(** * outage-data-ua: the Telegram image updater and the region fetcher

    A shallow embedding of the two Node.js scripts of the repository,
    [scripts/update-telegram-images.mjs] and
    [scripts/fetch_regions_playwright.mjs], and the properties their
    specification states about them.

    Conventions of the embedding.
    - A JavaScript value that comes out of [JSON.parse] is a [JVal]; numbers
      are integers ([Z]), which covers chat and message identifiers, HTTP
      error codes and millisecond clocks.  Fractions, [NaN] and the
      exponent notation of huge numbers are outside the model.
    - A string is a [string] of the standard library that holds the text
      in UTF-8, as the literals of this file do; [js_length] is
      JavaScript's [.length], the number of UTF-16 code units of that text.
      Whitespace is ASCII whitespace.
    - An object is the list of its own enumerable properties in the order
      [Object.keys] reports them: array indices first, in ascending order,
      then the other keys as they were created.  Inherited properties are
      not modelled, so keys that name members of [Object.prototype] are
      outside the model.
    - Two object values are never [===]: every object the scripts compare
      comes from a separate [JSON.parse] result.
    - What the platform provides (JSON text, collation, the [Intl] clock
      rendering, the URL parser) is gathered in the record [Platform]; what
      the outside world answers (HTTP replies, clock readings, page loads,
      random draws) is an oracle indexed by the number of the request.
    - A thrown exception is an explicit [None] (inside a [try]) or the
      outcome [Uncaught] (outside of one). *)

From Stdlib Require Import List String Ascii ZArith Bool Lia Permutation Sorted.
From Stdlib Require Import DecimalString DecimalZ OrdersEx.
Import ListNotations.
Local Open Scope string_scope.
Local Open Scope Z_scope.
Set Warnings "-register-all".

(** ** JavaScript values *)

Inductive JVal : Type :=
| JUndefined
| JNull
| JBool (b : bool)
| JNum (n : Z)
| JStr (s : string)
| JArr (elems : list JVal)
| JObj (props : list (string * JVal)).

Definition Props : Type := list (string * JVal).

(** [ToBoolean]. *)
Definition truthy (v : JVal) : bool :=
  match v with
  | JUndefined | JNull => false
  | JBool b => b
  | JNum n => negb (n =? 0)
  | JStr s => negb (s =? "")%string
  | JArr _ | JObj _ => true
  end.

Definition is_nullish (v : JVal) : bool :=
  match v with
  | JUndefined | JNull => true
  | _ => false
  end.

(** [typeof v === 'object']. *)
Definition typeof_object (v : JVal) : bool :=
  match v with
  | JNull | JArr _ | JObj _ => true
  | _ => false
  end.

Definition Array_isArray (v : JVal) : bool :=
  match v with
  | JArr _ => true
  | _ => false
  end.

(** [a === b]; objects and arrays are compared by reference and the
    references the scripts compare are always distinct. *)
Definition strict_eq (a b : JVal) : bool :=
  match a, b with
  | JUndefined, JUndefined => true
  | JNull, JNull => true
  | JBool x, JBool y => Bool.eqb x y
  | JNum x, JNum y => x =? y
  | JStr x, JStr y => (x =? y)%string
  | _, _ => false
  end.

(** A value that is not an object or an array. *)
Definition primitive (v : JVal) : bool :=
  match v with
  | JArr _ | JObj _ => false
  | _ => true
  end.

(** Decimal rendering of an integer ([Number.prototype.toString]). *)
Definition string_of_Z (z : Z) : string :=
  NilEmpty.string_of_int (Z.to_int z).

(** ** Objects as property lists *)

Fixpoint lookup (k : string) (ps : Props) : option JVal :=
  match ps with
  | [] => None
  | (k', v) :: ps' => if (k' =? k)%string then Some v else lookup k ps'
  end.

(** An array index is the canonical decimal string of an integer from 0
    to 2^32 - 2; [Object.keys] lists such keys first, in ascending numeric
    order, and the other keys after them in the order of their creation. *)
Definition array_index (k : string) : option Z :=
  match NilEmpty.uint_of_string k with
  | Some d =>
      let n := Z.of_uint d in
      if (string_of_Z n =? k)%string && (n <=? 4294967294) then Some n
      else None
  | None => None
  end.

(** The value of an existing property changes where the property is. *)
Fixpoint obj_replace (k : string) (v : JVal) (ps : Props) : Props :=
  match ps with
  | [] => []
  | (k', v') :: ps' =>
      if (k' =? k)%string then (k', v) :: ps' else (k', v') :: obj_replace k v ps'
  end.

(** A new array index [n] goes after the smaller array indices. *)
Fixpoint obj_add_index (n : Z) (k : string) (v : JVal) (ps : Props) : Props :=
  match ps with
  | [] => [(k, v)]
  | (k', v') :: ps' =>
      match array_index k' with
      | Some n' =>
          if n' <? n then (k', v') :: obj_add_index n k v ps' else (k, v) :: ps
      | None => (k, v) :: ps
      end
  end.

(** Any other new property goes last. *)
Definition obj_add (k : string) (v : JVal) (ps : Props) : Props :=
  match array_index k with
  | Some n => obj_add_index n k v ps
  | None => (ps ++ [(k, v)])%list
  end.

(** [obj[k] = v] on an ordinary object. *)
Definition obj_set (k : string) (v : JVal) (ps : Props) : Props :=
  match lookup k ps with
  | Some _ => obj_replace k v ps
  | None => obj_add k v ps
  end.

(** The index properties of an array, from index [i] on. *)
Fixpoint indexed (i : nat) (l : list JVal) : Props :=
  match l with
  | [] => []
  | x :: l' => (string_of_Z (Z.of_nat i), x) :: indexed (S i) l'
  end.

(** Own enumerable string-keyed properties, in [Object.keys] order. *)
Definition own_props (v : JVal) : Props :=
  match v with
  | JObj ps => ps
  | JArr l => indexed 0 l
  | _ => []
  end.

Definition Object_keys (v : JVal) : list string := map fst (own_props v).

(** [v[k]] and [v.k]: [None] is the [TypeError] of reading a property of
    [null] or [undefined]; a missing property reads as [undefined]. *)
Definition get_member (v : JVal) (k : string) : option JVal :=
  if is_nullish v then None
  else Some (match lookup k (own_props v) with
             | Some x => x
             | None => JUndefined
             end).

(** [v?.k]. *)
Definition get_member_opt (v : JVal) (k : string) : JVal :=
  match get_member v k with
  | Some x => x
  | None => JUndefined
  end.

(** [v.k = x] in strict mode (an ES module): [None] is the [TypeError] of
    creating a property on a primitive.  An array that receives a named
    property is represented from then on by the object with the same own
    properties; the scripts only ever read named properties back. *)
Definition set_member (v : JVal) (k : string) (x : JVal) : option JVal :=
  match v with
  | JObj ps => Some (JObj (obj_set k x ps))
  | JArr l => Some (JObj (obj_set k x (indexed 0 l)))
  | _ => None
  end.

(** ** Strings *)

(** [s.includes(sub)]. *)
Fixpoint includes (s sub : string) : bool :=
  if prefix sub s then true
  else match s with
       | EmptyString => false
       | String _ s' => includes s' sub
       end.

Definition is_ws (c : ascii) : bool :=
  match nat_of_ascii c with
  | 9%nat | 10%nat | 11%nat | 12%nat | 13%nat | 32%nat => true
  | _ => false
  end.

Fixpoint trimStart (s : string) : string :=
  match s with
  | EmptyString => EmptyString
  | String c s' => if is_ws c then trimStart s' else s
  end.

Fixpoint trimEnd (s : string) : string :=
  match s with
  | EmptyString => EmptyString
  | String c s' =>
      let t := trimEnd s' in
      if is_ws c && (t =? "")%string then EmptyString else String c t
  end.

(** [s.trim()]. *)
Definition trim (s : string) : string := trimEnd (trimStart s).

Fixpoint all_ws (s : string) : bool :=
  match s with
  | EmptyString => true
  | String c s' => is_ws c && all_ws s'
  end.

(** The number of UTF-16 code units a byte of UTF-8 text accounts for: one
    for an ASCII byte and for the first byte of a sequence of two or three
    bytes, none for a continuation byte, and two for the first byte of a
    sequence of four, which encodes a character beyond the basic plane,
    a surrogate pair in UTF-16. *)
Definition utf16_units (c : ascii) : nat :=
  let n := nat_of_ascii c in
  if (n <? 128)%nat then 1%nat
  else if (n <? 192)%nat then 0%nat
  else if (n <? 240)%nat then 1%nat
  else 2%nat.

(** [s.length]. *)
Fixpoint js_length (s : string) : nat :=
  match s with
  | EmptyString => 0%nat
  | String c s' => (utf16_units c + js_length s')%nat
  end.

(** [keys.sort((a, b) => cmp(a, b))]: a stable sort, here by insertion. *)
Fixpoint sort_insert (cmp : string -> string -> comparison)
  (x : string) (l : list string) : list string :=
  match l with
  | [] => [x]
  | y :: l' =>
      match cmp x y with
      | Gt => y :: sort_insert cmp x l'
      | _ => x :: l
      end
  end.

Fixpoint js_sort (cmp : string -> string -> comparison)
  (l : list string) : list string :=
  match l with
  | [] => []
  | x :: l' => sort_insert cmp x (js_sort cmp l')
  end.

(** ** What the platform provides *)

(** A parsed URL: its serialization up to the query, the decoded query
    pairs, and the fragment with its [#] (empty when there is none). *)
Record URL : Type := {
  url_prefix : string;
  url_query : list (string * string);
  url_fragment : string
}.

Record Platform : Type := {
  (** [JSON.parse]; [None] is a [SyntaxError]. *)
  JSON_parse : string -> option JVal;
  (** [JSON.stringify(v, null, 2)]. *)
  JSON_stringify : JVal -> string;
  (** [a.localeCompare(b)]. *)
  localeCompare : string -> string -> comparison;
  (** [new Intl.DateTimeFormat('en-CA', {timeZone, ...}).formatToParts(t)]
      as [(type, value)] pairs. *)
  Intl_formatToParts : string -> Z -> list (string * string);
  (** [new URL(s)]; [None] is the [TypeError] of an invalid URL. *)
  URL_parse : string -> option URL
}.

(** The comparator is a consistent one, as [Array.prototype.sort] needs. *)
Definition consistent (cmp : string -> string -> comparison) : Prop :=
  (forall a b, cmp b a = CompOpp (cmp a b)) /\
  (forall a b c, cmp a b <> Gt -> cmp b c <> Gt -> cmp a c <> Gt).

(** *** The serializer of [URLSearchParams] *)

Definition urlencoded_safe (c : ascii) : bool :=
  let n := nat_of_ascii c in
  ((48 <=? n) && (n <=? 57) || (65 <=? n) && (n <=? 90)
   || (97 <=? n) && (n <=? 122)
   || (n =? 42) || (n =? 45) || (n =? 46) || (n =? 95))%nat.

Definition hex_digit (n : nat) : ascii :=
  if (n <? 10)%nat then ascii_of_nat (48 + n) else ascii_of_nat (55 + n).

Definition urlencode_char (c : ascii) : string :=
  if urlencoded_safe c then String c ""
  else if (nat_of_ascii c =? 32)%nat then "+"
  else String "%" (String (hex_digit (nat_of_ascii c / 16))
                     (String (hex_digit (nat_of_ascii c mod 16)) "")).

Fixpoint urlencode (s : string) : string :=
  match s with
  | EmptyString => EmptyString
  | String c s' => urlencode_char c ++ urlencode s'
  end.

Definition serialize_pair (p : string * string) : string :=
  urlencode (fst p) ++ "=" ++ urlencode (snd p).

Fixpoint serialize_query (q : list (string * string)) : string :=
  match q with
  | [] => ""
  | [p] => serialize_pair p
  | p :: q' => serialize_pair p ++ "&" ++ serialize_query q'
  end.

(** [params.set(name, value)]: the first pair of that name takes the value
    and the others go; without one the pair is appended. *)
Fixpoint searchParams_set (name value : string) (q : list (string * string))
  : list (string * string) :=
  match q with
  | [] => [(name, value)]
  | (n, v) :: q' =>
      if (n =? name)%string
      then (n, value) :: filter (fun p => negb (fst p =? name)%string) q'
      else (n, v) :: searchParams_set name value q'
  end.

Definition URL_set (u : URL) (name value : string) : URL :=
  {| url_prefix := url_prefix u;
     url_query := searchParams_set name value (url_query u);
     url_fragment := url_fragment u |}.

Definition URL_toString (u : URL) : string :=
  url_prefix u
  ++ match url_query u with
     | [] => ""
     | q => "?" ++ serialize_query q
     end
  ++ url_fragment u.

(** ** The message updater: data *)

(** A chat identifier of the Bot API: an integer or a [@username]. *)
Inductive ChatId : Type :=
| ChatNum (n : Z)
| ChatStr (s : string).

(** An element of [CHATS_JSON]; [None] is a missing field. *)
Record ChatTarget : Type := {
  chat_id : option ChatId;
  image_url : option string;
  caption : option string;
  title : option string
}.

Definition truthy_id (i : option ChatId) : bool :=
  match i with
  | None => false
  | Some (ChatNum n) => negb (n =? 0)
  | Some (ChatStr s) => negb (s =? "")%string
  end.

Definition truthy_str (s : option string) : bool :=
  match s with
  | None => false
  | Some s => negb (s =? "")%string
  end.

(** The property key [messageMap[c.chat_id]] reads and writes. *)
Definition key_of (i : option ChatId) : string :=
  match i with
  | None => "undefined"
  | Some (ChatNum n) => string_of_Z n
  | Some (ChatStr s) => s
  end.

(** The three remote procedures, and the other effects of a run.  The edit
    call carries the stored identifier from which the script computes
    [Number(messageId)]. *)
Inductive Call : Type :=
| SendPhoto (chat : option ChatId) (photo caption : string)
| EditMessageMedia (chat : option ChatId) (message_id : JVal)
    (media caption : string)
| PinChatMessage (chat : option ChatId) (message_id : JVal)
| Delay (ms : Z)
| WriteMapFile (text : string).

(** What [await fetch(...)] followed by [await res.json()] delivers:
    either of them throws, or a JSON value arrives. *)
Inductive Reply : Type :=
| NetworkError
| Body (json : JVal).

(** The outside world of a run: the reply to the n-th request and the
    n-th reading of the clock, in milliseconds. *)
Record Env : Type := {
  net : nat -> Reply;
  clock : nat -> Z
}.

(** The state of [telegram-message-map.json] at start-up. *)
Inductive MapFile : Type :=
| FileMissing
| FileUnreadable
| FileText (raw : string).

(** The objects the send and edit functions return, by the fields the
    script reads afterwards. *)
Record Result : Type := {
  r_ok : bool;
  r_chat : ChatTarget;
  r_message_id : JVal;
  r_replaced : bool;
  r_not_modified : bool;
  r_reason : option string
}.

Definition failed (c : ChatTarget) : Result :=
  {| r_ok := false; r_chat := c; r_message_id := JUndefined;
     r_replaced := false; r_not_modified := false; r_reason := None |}.

Definition with_replaced (r : Result) : Result :=
  {| r_ok := r_ok r; r_chat := r_chat r; r_message_id := r_message_id r;
     r_replaced := true; r_not_modified := r_not_modified r;
     r_reason := r_reason r |}.

(** ** The message updater: state and effects *)

Record World : Type := {
  messageMap : Props;
  mapDirty : bool;
  calls : list Call;
  n_fetch : nat;
  n_clock : nat
}.

Inductive Outcome (A : Type) : Type :=
| Ok (a : A) (w : World)
| Uncaught (w : World).
Arguments Ok {A} a w.
Arguments Uncaught {A} w.

Definition M (A : Type) : Type := World -> Outcome A.

Definition ret {A} (a : A) : M A := fun w => Ok a w.

Definition bind {A B} (m : M A) (f : A -> M B) : M B :=
  fun w => match m w with
           | Ok a w' => f a w'
           | Uncaught w' => Uncaught w'
           end.

Definition throw {A} : M A := fun w => Uncaught w.

Notation "x <- m ;; k" := (bind m (fun x => k))
  (at level 61, m at next level, right associativity).
Notation "m ;;; k" := (bind m (fun _ => k))
  (at level 61, right associativity).

Definition world_of {A} (o : Outcome A) : World :=
  match o with
  | Ok _ w => w
  | Uncaught w => w
  end.

(** The world with another map, and with [mapDirty = true]. *)
Definition stored (m : Props) (w : World) : World :=
  {| messageMap := m; mapDirty := mapDirty w; calls := calls w;
     n_fetch := n_fetch w; n_clock := n_clock w |}.

Definition dirtied (w : World) : World :=
  {| messageMap := messageMap w; mapDirty := true; calls := calls w;
     n_fetch := n_fetch w; n_clock := n_clock w |}.

Definition set_map (m : Props) : M unit := fun w => Ok tt (stored m w).

Definition set_dirty : M unit := fun w => Ok tt (dirtied w).

Definition get_map : M Props := fun w => Ok (messageMap w) w.

Definition get_dirty : M bool := fun w => Ok (mapDirty w) w.

(** The world after one more effect, one more request, one more reading
    of the clock. *)
Definition logged (c : Call) (w : World) : World :=
  {| messageMap := messageMap w; mapDirty := mapDirty w;
     calls := calls w ++ [c]; n_fetch := n_fetch w; n_clock := n_clock w |}.

Definition requested (c : Call) (w : World) : World :=
  {| messageMap := messageMap w; mapDirty := mapDirty w;
     calls := calls w ++ [c]; n_fetch := S (n_fetch w);
     n_clock := n_clock w |}.

Definition tick (w : World) : World :=
  {| messageMap := messageMap w; mapDirty := mapDirty w;
     calls := calls w; n_fetch := n_fetch w; n_clock := S (n_clock w) |}.

(** An effect without an answer: a pause or the write of the map file. *)
Definition emit (c : Call) : M unit := fun w => Ok tt (logged c w).

Definition nl : string := String (ascii_of_nat 10) "".

(** The caption label, "Updated: " in Ukrainian. *)
Definition updated_label : string := "Оновлено: ".

Definition map_get (m : Props) (k : string) : JVal :=
  match lookup k m with
  | Some v => v
  | None => JUndefined
  end.

Section Updater.

Context (P : Platform) (E : Env).

(** *** [loadMessageMap] *)

(** The body of the [for (const item of arr)] loop. *)
Definition load_item (m : Props) (item : JVal) : Props :=
  if truthy item && typeof_object item then
    match Object_keys item with
    | k :: _ =>
        if negb (k =? "")%string then obj_set k (get_member_opt item k) m
        else m
    | [] => m
    end
  else m.

Definition load_array (arr : list JVal) : Props := fold_left load_item arr [].

(** The [try] block; [None] is an exception on its way to [catch]. *)
Definition loadMessageMap_try (f : MapFile) : option Props :=
  match f with
  | FileMissing => Some []
  | FileUnreadable => None
  | FileText raw =>
      let txt := trim raw in
      if (txt =? "")%string then Some []
      else match JSON_parse P txt with
           | None => None
           | Some (JArr arr) => Some (load_array arr)
           | Some _ => Some []
           end
  end.

Definition loadMessageMap (f : MapFile) : Props :=
  match loadMessageMap_try f with
  | Some m => m
  | None => []
  end.

(** *** [saveMessageMap] *)

(** [{ [k]: { message_id: map[k].message_id } }]; [None] is the
    [TypeError] of a record that is [null] or [undefined]. *)
Definition save_record (m : Props) (k : string) : option JVal :=
  match get_member (map_get m k) "message_id" with
  | Some mid => Some (JObj [(k, JObj [("message_id", mid)])])
  | None => None
  end.

Fixpoint save_records (m : Props) (keys : list string) : option (list JVal) :=
  match keys with
  | [] => Some []
  | k :: ks =>
      match save_record m k with
      | None => None
      | Some r =>
          match save_records m ks with
          | None => None
          | Some rs => Some (r :: rs)
          end
      end
  end.

(** The array handed to [JSON.stringify]. *)
Definition save_array (m : Props) : option (list JVal) :=
  save_records m (js_sort (localeCompare P) (map fst m)).

(** The write is recorded as an effect; the file system accepts it. *)
Definition saveMessageMap (m : Props) : M bool :=
  match save_array m with
  | Some arr =>
      emit (WriteMapFile (JSON_stringify P (JArr arr) ++ nl)) ;;; ret true
  | None => ret false
  end.

(** *** Time stamps and cache busting *)

Definition Date_now : M Z := fun w => Ok (clock E (n_clock w)) (tick w).

(** [parts.find(p => p.type === type)?.value || '']. *)
Definition part (parts : list (string * string)) (type : string) : string :=
  match find (fun p => (fst p =? type)%string) parts with
  | Some p => snd p
  | None => ""
  end.

(** The [try] branch of [getTimestamp].  The platform knows the zone, so
    the formatter does not throw and the [catch] branch is not reached. *)
Definition format_timestamp (t : Z) : string :=
  let parts := Intl_formatToParts P "Europe/Kyiv" t in
  part parts "year" ++ "-" ++ part parts "month" ++ "-" ++ part parts "day"
  ++ " " ++ part parts "hour" ++ ":" ++ part parts "minute".

Definition getTimestamp : M string :=
  now <- Date_now ;; ret (format_timestamp now).

Definition caption_at (caption : option string) (ts : string) : string :=
  match caption with
  | Some c => if negb (c =? "")%string then c ++ nl ++ updated_label ++ ts
              else updated_label ++ ts
  | None => updated_label ++ ts
  end.

Definition withTimestamp (caption : option string) : M string :=
  ts <- getTimestamp ;; ret (caption_at caption ts).

(** The [try] branch and the [catch] branch of [cacheBustedUrl]. *)
Definition url_with_cb (u : URL) (ts : Z) : string :=
  URL_toString (URL_set u "cb" (string_of_Z ts)).

Definition url_append_cb (url : string) (ts : Z) : string :=
  url ++ (if includes url "?" then "&" else "?") ++ "cb=" ++ string_of_Z ts.

Definition cacheBustedUrl (url : option string) : M string :=
  ts <- Date_now ;;
  match url with
  | None => throw
  | Some s =>
      match URL_parse P s with
      | Some u => ret (url_with_cb u ts)
      | None => ts' <- Date_now ;; ret (url_append_cb s ts')
      end
  end.

(** *** The remote procedures *)

(** One request: it is recorded and the world's next reply comes back. *)
Definition fetch_json (c : Call) : M Reply :=
  fun w => Ok (net E (n_fetch w)) (requested c w).

(** [json.ok] read inside a [try]: [None] stands for both a thrown
    request and the [TypeError] of a reply that is [null]. *)
Definition reply_ok (r : Reply) : option (JVal * bool) :=
  match r with
  | NetworkError => None
  | Body json =>
      match get_member json "ok" with
      | Some ok => Some (json, truthy ok)
      | None => None
      end
  end.

Definition pinMessage (chat : option ChatId) (message_id : JVal) : M bool :=
  reply <- fetch_json (PinChatMessage chat message_id) ;;
  match reply_ok reply with
  | Some (_, ok) => ret ok
  | None => ret false
  end.

(** [json.result && json.result.message_id]. *)
Definition result_message_id (json : JVal) : JVal :=
  let result := get_member_opt json "result" in
  if truthy result then get_member_opt result "message_id" else result.

Definition sendPhoto (chat : ChatTarget) : M Result :=
  caption <- withTimestamp (caption chat) ;;
  photoUrl <- cacheBustedUrl (image_url chat) ;;
  reply <- fetch_json (SendPhoto (chat_id chat) photoUrl caption) ;;
  match reply_ok reply with
  | None => ret (failed chat)
  | Some (json, false) => ret (failed chat)
  | Some (json, true) =>
      let messageId := result_message_id json in
      pinMessage (chat_id chat) messageId ;;;
      ret {| r_ok := true; r_chat := chat; r_message_id := messageId;
             r_replaced := false; r_not_modified := false;
             r_reason := None |}
  end.

(** The reply is the "message is not modified" error. *)
Definition not_modified (json : JVal) : bool :=
  strict_eq (get_member_opt json "error_code") (JNum 400)
  && match get_member_opt json "description" with
     | JStr d => includes d "message is not modified"
     | _ => false
     end.

Definition editPhoto (chat : ChatTarget) (messageId : JVal) : M Result :=
  caption <- withTimestamp (caption chat) ;;
  photoUrl <- cacheBustedUrl (image_url chat) ;;
  reply <- fetch_json
             (EditMessageMedia (chat_id chat) messageId photoUrl caption) ;;
  match reply_ok reply with
  | None => ret (failed chat)
  | Some (json, false) =>
      if not_modified json then
        pinMessage (chat_id chat) messageId ;;;
        ret {| r_ok := true; r_chat := chat; r_message_id := JUndefined;
               r_replaced := false; r_not_modified := true;
               r_reason := None |}
      else if strict_eq (get_member_opt json "error_code") (JNum 400) then
        sent <- sendPhoto chat ;; ret (with_replaced sent)
      else ret (failed chat)
  | Some (json, true) =>
      pinMessage (chat_id chat) messageId ;;;
      ret {| r_ok := true; r_chat := chat; r_message_id := JUndefined;
             r_replaced := false; r_not_modified := false;
             r_reason := None |}
  end.

(** *** The main loop *)

Definition setMessageId (chatId : string) (messageId : JVal) : M unit :=
  if negb (truthy messageId) then ret tt
  else
    m <- get_map ;;
    (if negb (truthy (map_get m chatId))
     then set_map (obj_set chatId (JObj []) m) else ret tt) ;;;
    m <- get_map ;;
    if negb (strict_eq (get_member_opt (map_get m chatId) "message_id")
               messageId)
    then match set_member (map_get m chatId) "message_id" messageId with
         | Some record => set_map (obj_set chatId record m) ;;; set_dirty
         | None => throw
         end
    else ret tt.

Definition invalid_config (c : ChatTarget) : Result :=
  {| r_ok := false; r_chat := c; r_message_id := JUndefined;
     r_replaced := false; r_not_modified := false;
     r_reason := Some "invalid-config" |}.

Definition valid (c : ChatTarget) : bool :=
  truthy_id (chat_id c) && truthy_str (image_url c).

(** [messageMap[c.chat_id]?.message_id]. *)
Definition known_id (m : Props) (c : ChatTarget) : JVal :=
  get_member_opt (map_get m (key_of (chat_id c))) "message_id".

(** The body of [for (const c of chats)]. *)
Definition loop_body (c : ChatTarget) : M Result :=
  if negb (valid c) then ret (invalid_config c)
  else
    m <- get_map ;;
    let known := known_id m c in
    r <- (if negb (truthy known) then
            r <- sendPhoto c ;;
            (if r_ok r && truthy (r_message_id r)
             then setMessageId (key_of (chat_id c)) (r_message_id r)
             else ret tt) ;;;
            ret r
          else
            r <- editPhoto c known ;;
            (if r_ok r && r_replaced r && truthy (r_message_id r)
             then setMessageId (key_of (chat_id c)) (r_message_id r)
             else ret tt) ;;;
            ret r) ;;
    emit (Delay 600) ;;;
    ret r.

Fixpoint loop (chats : list ChatTarget) : M (list Result) :=
  match chats with
  | [] => ret []
  | c :: cs => r <- loop_body c ;; rs <- loop cs ;; ret (r :: rs)
  end.

(** How the process ends when nothing is thrown: [process.exit(n)] or
    the end of the script. *)
Inductive Exit : Type :=
| ExitCode (n : Z)
| Completed.

(** [!r.ok && r.reason !== 'invalid-config']. *)
Definition genuine_failure (r : Result) : bool :=
  negb (r_ok r)
  && negb (match r_reason r with
           | Some s => (s =? "invalid-config")%string
           | None => false
           end).

(** The asynchronous function the script ends with. *)
Definition run (chats : list ChatTarget) : M Exit :=
  results <- loop chats ;;
  dirty <- get_dirty ;;
  (if dirty then m <- get_map ;; saveMessageMap m ;;; ret tt
   else ret tt) ;;;
  if (0 <? List.length (filter genuine_failure results))%nat
  then ret (ExitCode 10) else ret Completed.

Definition initial_world (f : MapFile) : World :=
  {| messageMap := loadMessageMap f; mapDirty := false; calls := [];
     n_fetch := 0; n_clock := 0 |}.

(** The script from [const messageMap = loadMessageMap()] on, for a
    configuration that passed the start-up checks. *)
Definition main (f : MapFile) (chats : list ChatTarget) : Outcome Exit :=
  run chats (initial_world f).

End Updater.

(** ** The region fetcher *)

(** [MAX_FETCH_RETRY], [MIN_HTML_BYTES] and [FETCH_BACKOFF_MS]. *)
Record FetchConfig : Type := {
  MAX_RETRY : Z;
  MIN_BYTES : Z;
  BACKOFF_MS : Z
}.

Definition marker_fact : string := "DisconSchedule.fact".
Definition marker_preset : string := "DisconSchedule.preset".

Definition isSuspectHtml (cfg : FetchConfig) (html : string) : bool :=
  if (html =? "")%string then true
  else
    let len := Z.of_nat (js_length html) in
    let hasMarkers := includes html marker_fact && includes html marker_preset in
    (len <? MIN_BYTES cfg) || negb hasMarkers.

(** What one page does: [goto] throws, [content] throws after the settle
    delay, or the rendered markup arrives. *)
Inductive PageLoad : Type :=
| GotoFailed
| ContentFailed
| Rendered (html : string).

(** The outside world of a fetch run: the n-th page that is opened, and
    the n-th value of [Math.floor(Math.random() * 400)]. *)
Record FetchEnv : Type := {
  page_load : nat -> PageLoad;
  random_jitter : nat -> Z
}.

Inductive FetchEvent : Type :=
| NewPage
| Goto (url : string)
| WaitForTimeout (ms : Z)
| Sleep (ms : Z)
| ClosePage
| WriteFile (path content : string)
| LogSaved (path : string) (bytes : Z)
| WarnSavedSuspect (region : string) (attempts bytes : Z)
| WarnNoUrl (region : string).

Record FetchState : Type := {
  opened : nat;
  drawn : nat;
  events : list FetchEvent
}.

Record FetchResult : Type := {
  f_ok : bool;
  f_html : string;
  f_bytes : Z;
  f_attempt : Z
}.

Definition record (e : FetchEvent) (s : FetchState) : FetchState :=
  {| opened := opened s; drawn := drawn s; events := events s ++ [e] |}.

Definition empty_placeholder : string := "<!-- empty -->".

Section Fetcher.

Context (cfg : FetchConfig) (W : FetchEnv).

(** [ctx.newPage()] and the start of [page.goto]. *)
Definition open_page (url : string) (s : FetchState) : FetchState :=
  {| opened := S (opened s); drawn := drawn s;
     events := events s ++ [NewPage; Goto url] |}.

(** [if (attempt < MAX_RETRY) { jitter; await sleep(...) }]. *)
Definition backoff (attempt : Z) (s : FetchState) : FetchState :=
  if attempt <? MAX_RETRY cfg then
    {| opened := opened s; drawn := S (drawn s);
       events := events s
                 ++ [Sleep (BACKOFF_MS cfg * attempt
                            + random_jitter W (drawn s))] |}
  else s.

(** The [for] loop of [fetchWithRetry] from the iteration [attempt] on;
    [remaining] counts the iterations for which [attempt <= MAX_RETRY]
    still holds. *)
Fixpoint attempts (remaining : nat) (attempt : Z) (url lastHtml : string)
  (s : FetchState) : FetchResult * FetchState :=
  match remaining with
  | O =>
      ({| f_ok := false; f_html := lastHtml;
          f_bytes := Z.of_nat (js_length lastHtml);
          f_attempt := MAX_RETRY cfg |}, s)
  | S k =>
      let s1 := open_page url s in
      match page_load W (opened s) with
      | Rendered html =>
          let s2 := record (WaitForTimeout 500) s1 in
          if negb (isSuspectHtml cfg html) then
            ({| f_ok := true; f_html := html;
                f_bytes := Z.of_nat (js_length html);
                f_attempt := attempt |}, record ClosePage s2)
          else
            attempts k (attempt + 1) url html
              (record ClosePage (backoff attempt s2))
      | ContentFailed =>
          attempts k (attempt + 1) url lastHtml
            (record ClosePage
               (backoff attempt (record (WaitForTimeout 500) s1)))
      | GotoFailed =>
          attempts k (attempt + 1) url lastHtml
            (record ClosePage (backoff attempt s1))
      end
  end.

Definition fetchWithRetry (url : string) (s : FetchState)
  : FetchResult * FetchState :=
  attempts (Z.to_nat (MAX_RETRY cfg)) 1 url "" s.

(** [sources[r]] on the parsed [REGION_SOURCES_JSON]. *)
Fixpoint source_url (sources : list (string * string)) (r : string)
  : option string :=
  match sources with
  | [] => None
  | (k, u) :: rest => if (k =? r)%string then Some u else source_url rest r
  end.

Definition out_file (r : string) : string := "outputs/" ++ r ++ ".html".

(** The body of [for (const r of regions)]. *)
Definition fetch_region (sources : list (string * string)) (s : FetchState)
  (r : string) : FetchState :=
  match source_url sources r with
  | None => record (WarnNoUrl r) s
  | Some url =>
      if (url =? "")%string then record (WarnNoUrl r) s
      else
        let (res, s1) := fetchWithRetry url s in
        if f_ok res then
          record (LogSaved (out_file r) (f_bytes res))
            (record (WriteFile (out_file r) (f_html res)) s1)
        else
          record (WarnSavedSuspect r (f_attempt res) (f_bytes res))
            (record (WriteFile (out_file r)
                       (if (f_html res =? "")%string then empty_placeholder
                        else f_html res)) s1)
  end.

(** [onlyRegion ? [onlyRegion] : Object.keys(sources)]. *)
Definition regions (onlyRegion : option string)
  (sources : list (string * string)) : list string :=
  if truthy_str onlyRegion
  then match onlyRegion with Some r => [r] | None => [] end
  else map fst sources.

Definition fetch_all (onlyRegion : option string)
  (sources : list (string * string)) (s : FetchState) : FetchState :=
  fold_left (fetch_region sources) (regions onlyRegion sources) s.

End Fetcher.

(** ** A sample platform and sample worlds

    Concrete stand-ins on which the model runs: collation by character
    code (what [localeCompare] gives on chat identifiers, which are made of
    digits and a sign), a clock that ticks, and a server that accepts
    every request. *)

Module Sample.

Definition compare : string -> string -> comparison := String_as_OT.compare.

Definition parse (s : string) : option JVal :=
  if (s =? "[]")%string then Some (JArr []) else None.

Definition stringify (v : JVal) : string :=
  match v with
  | JArr [] => "[]"
  | _ => "[ ... ]"
  end.

Definition formatToParts (tz : string) (t : Z) : list (string * string) :=
  [("year", "2025"); ("literal", "-"); ("month", "01"); ("literal", "-");
   ("day", "31"); ("literal", ", "); ("hour", "09"); ("literal", ":");
   ("minute", "05")].

Definition parse_url (s : string) : option URL :=
  if prefix "https://" s
  then Some {| url_prefix := s; url_query := []; url_fragment := "" |}
  else None.

Definition platform : Platform :=
  {| JSON_parse := parse; JSON_stringify := stringify;
     localeCompare := compare; Intl_formatToParts := formatToParts;
     URL_parse := parse_url |}.

(** Every request succeeds and returns a fresh message identifier. *)
Definition accepting : Env :=
  {| net := fun n =>
              Body (JObj [("ok", JBool true);
                          ("result",
                           JObj [("message_id", JNum (100 + Z.of_nat n))])]);
     clock := fun n => 1700000000000 + 1000 * Z.of_nat n |}.

Definition error (code : Z) (description : string) : Reply :=
  Body (JObj [("ok", JBool false); ("error_code", JNum code);
              ("description", JStr description)]).

(** The first request is an edit of a message that no longer exists. *)
Definition gone : Env :=
  {| net := fun n =>
              match n with
              | O => error 400 "Bad Request: message to edit not found"
              | _ => net accepting n
              end;
     clock := clock accepting |}.

(** The first request is an edit that changes nothing. *)
Definition unchanged : Env :=
  {| net := fun n =>
              match n with
              | O => error 400 "Bad Request: message is not modified"
              | _ => net accepting n
              end;
     clock := clock accepting |}.

(** The bot was removed from every chat. *)
Definition refusing : Env :=
  {| net := fun _ => error 403 "Forbidden: bot was kicked from the group chat";
     clock := clock accepting |}.

(** A map that remembers the message [mid] for the chat [id]. *)
Definition remembered (id mid : Z) : Props :=
  [(string_of_Z id, JObj [("message_id", JNum mid)])].

Definition chat (id : Z) : ChatTarget :=
  {| chat_id := Some (ChatNum id);
     image_url := Some "https://example.org/a.png";
     caption := Some "Schedule"; title := None |}.

Definition world (m : Props) : World :=
  {| messageMap := m; mapDirty := false; calls := []; n_fetch := 0;
     n_clock := 0 |}.

(** Three attempts, two seconds of base delay, a small size threshold. *)
Definition config : FetchConfig :=
  {| MAX_RETRY := 3; MIN_BYTES := 60; BACKOFF_MS := 2000 |}.

Definition schedule_page : string :=
  "<script>DisconSchedule.fact = {}; DisconSchedule.preset = {};</script>".

(** The first page is a placeholder, the second one the schedule. *)
Definition second_time : FetchEnv :=
  {| page_load := fun n =>
                    match n with
                    | O => Rendered "<html>Just a moment...</html>"
                    | _ => Rendered schedule_page
                    end;
     random_jitter := fun n => 137 + Z.of_nat n |}.

(** No page ever loads. *)
Definition blocked : FetchEnv :=
  {| page_load := fun _ => GotoFailed;
     random_jitter := fun n => 137 + Z.of_nat n |}.

Definition sources : list (string * string) :=
  [("kyiv", "https://example.org/kyiv")].

Definition start : FetchState := {| opened := 0; drawn := 0; events := [] |}.

End Sample.

(** ** Vocabulary of the statements *)

(** [sub] occurs in [s]. *)
Definition contains (s sub : string) : Prop :=
  exists pre suf, s = pre ++ sub ++ suf.

(** The keys of a property list are pairwise distinct. *)
Definition unique_keys (m : Props) : Prop := NoDup (map fst m).

(** [a] does not come after [b] in the collation. *)
Definition key_le (cmp : string -> string -> comparison) (a b : string) : Prop :=
  cmp a b <> Gt.

(** [a] comes before [b] in the collation. *)
Definition key_lt (cmp : string -> string -> comparison) (a b : string) : Prop :=
  cmp a b = Lt.

(** The element [{ k: { message_id: mid } }] of the persisted array. *)
Definition entry (kv : string * JVal) : JVal :=
  JObj [(fst kv, JObj [("message_id", snd kv)])].

(** The record [{ message_id: mid }] under its key. *)
Definition record_of (kv : string * JVal) : string * JVal :=
  (fst kv, JObj [("message_id", snd kv)]).

(** The stored message identifier of a chat, [undefined] without one. *)
Definition message_id_of (m : Props) (k : string) : JVal :=
  get_member_opt (map_get m k) "message_id".

(** What [cacheBustedUrl] returns for the string [s] when the clock reads
    [t1] at its first line and [t2] in its [catch] block. *)
Definition busted (P : Platform) (s : string) (t1 t2 : Z) : string :=
  match URL_parse P s with
  | Some u => url_with_cb u t1
  | None => url_append_cb s t2
  end.

(** The map after [if (!messageMap[chatId]) messageMap[chatId] = {}]. *)
Definition ensured (m : Props) (k : string) : Props :=
  if truthy (map_get m k) then m else obj_set k (JObj []) m.

(** The events of a run that came after the world [w]. *)
Definition since (w w' : World) : list Call :=
  skipn (List.length (calls w)) (calls w').

Definition is_send (c : Call) : bool :=
  match c with SendPhoto _ _ _ => true | _ => false end.

Definition is_edit (c : Call) : bool :=
  match c with EditMessageMedia _ _ _ _ => true | _ => false end.

Definition is_pin (c : Call) : bool :=
  match c with PinChatMessage _ _ => true | _ => false end.

Definition is_write (c : Call) : bool :=
  match c with WriteMapFile _ => true | _ => false end.

(** The caption and the image reference a request carries. *)
Definition caption_of (c : Call) : string :=
  match c with
  | SendPhoto _ _ cap => cap
  | EditMessageMedia _ _ _ cap => cap
  | _ => ""
  end.

Definition photo_of (c : Call) : string :=
  match c with
  | SendPhoto _ photo _ => photo
  | EditMessageMedia _ _ media _ => media
  | _ => ""
  end.

Definition count (f : Call -> bool) (l : list Call) : nat :=
  List.length (filter f l).

(** Every record of the map is an object. *)
Definition records_are_objects (m : Props) : Prop :=
  Forall (fun kv => primitive (snd kv) = false) m.

(** The maps of a run: the one it starts from and the one after each
    target. *)
Fixpoint trajectory (P : Platform) (E : Env) (chats : list ChatTarget)
  (w : World) : list Props :=
  messageMap w
  :: match chats with
     | [] => []
     | c :: cs =>
         match loop_body P E c w with
         | Ok _ w' => trajectory P E cs w'
         | Uncaught w' => [messageMap w']
         end
     end.

(** Some chat has another stored message identifier in [m'] than in [m]. *)
Definition changed_between (m m' : Props) : Prop :=
  exists k, message_id_of m k <> message_id_of m' k.

(** Two consecutive maps of the list differ in a stored identifier. *)
Fixpoint any_change (maps : list Props) : Prop :=
  match maps with
  | m :: (m' :: _) as rest => changed_between m m' \/ any_change rest
  | _ => False
  end.

(** The pages a fetch opened and the delays it slept, read off its
    events. *)
Definition pages (evs : list FetchEvent) : nat :=
  List.length (filter (fun e => match e with NewPage => true | _ => false end)
                 evs).

Definition sleeps (evs : list FetchEvent) : list Z :=
  flat_map (fun e => match e with Sleep ms => [ms] | _ => [] end) evs.

Definition writes (evs : list FetchEvent) : list (string * string) :=
  flat_map (fun e => match e with
                     | WriteFile p c => [(p, c)]
                     | _ => []
                     end) evs.

(** The delays after [n] consecutive attempts, the first of them numbered
    [attempt] and drawing the jitter number [draw]: each is the base delay
    times the attempt number, plus the jitter. *)
Fixpoint backoffs (cfg : FetchConfig) (W : FetchEnv) (n : nat) (attempt : Z)
  (draw : nat) : list Z :=
  match n with
  | O => []
  | S m =>
      (BACKOFF_MS cfg * attempt + random_jitter W draw)
      :: backoffs cfg W m (attempt + 1) (S draw)
  end.

(** The page did not deliver acceptable markup: it threw, or its markup
    is suspect. *)
Definition rejected (cfg : FetchConfig) (p : PageLoad) : Prop :=
  match p with
  | Rendered html => isSuspectHtml cfg html = true
  | _ => True
  end.

(** The markup of the last page that rendered among the [n] pages from
    number [page] on, [default] when none did. *)
Fixpoint last_obtained (W : FetchEnv) (n page : nat) (default : string)
  : string :=
  match n with
  | O => default
  | S m =>
      last_obtained W m (S page)
        match page_load W page with
        | Rendered html => html
        | _ => default
        end
  end.

(** The state after an iteration of the fetch loop that goes on to the
    next one; [settled] tells whether the page got as far as the settle
    delay. *)
Definition moved_on (cfg : FetchConfig) (W : FetchEnv) (url : string)
  (attempt : Z) (settled : bool) (s : FetchState) : FetchState :=
  record ClosePage
    (backoff cfg W attempt
       (if settled then record (WaitForTimeout 500) (open_page url s)
        else open_page url s)).

(** The server never sends an object where a message identifier goes. *)
Definition plain_ids (E : Env) : Prop :=
  forall n json, net E n = Body json -> primitive (result_message_id json) = true.

(** The number of clock readings one send or edit makes: one for the
    caption, one or two for the image reference. *)
Definition ticks (P : Platform) (s : string) : nat :=
  match URL_parse P s with
  | Some _ => 2%nat
  | None => 3%nat
  end.

(** The caption and the image reference of a request made for the target
    [c] when the clock has been read [n] times. *)
Definition caption_sent (P : Platform) (E : Env) (c : ChatTarget) (n : nat)
  : string :=
  caption_at (caption c) (format_timestamp P (clock E n)).

Definition photo_sent (P : Platform) (E : Env) (s : string) (n : nat)
  : string :=
  busted P s (clock E (S n)) (clock E (S (S n))).

(** What a call of [sendPhoto] for the target [c] from the world [w]
    returned and left behind. *)
Definition sent_as (P : Platform) (E : Env) (c : ChatTarget) (s : string)
  (w : World) (r : Result) (w' : World) : Prop :=
  let send := SendPhoto (chat_id c) (photo_sent P E s (n_clock w))
                (caption_sent P E c (n_clock w)) in
  match reply_ok (net E (n_fetch w)) with
  | Some (json, true) =>
      r_ok r = true /\ r_message_id r = result_message_id json
      /\ calls w' =
         (calls w
          ++ [send; PinChatMessage (chat_id c) (result_message_id json)])%list
  | _ => r = failed c /\ calls w' = (calls w ++ [send])%list
  end.

(** The same for a call of [editPhoto] with the stored identifier [mid]. *)
Definition edited_as (P : Platform) (E : Env) (c : ChatTarget) (s : string)
  (mid : JVal) (w : World) (r : Result) (w' : World) : Prop :=
  let edit := EditMessageMedia (chat_id c) mid (photo_sent P E s (n_clock w))
                (caption_sent P E c (n_clock w)) in
  let pin := PinChatMessage (chat_id c) mid in
  match reply_ok (net E (n_fetch w)) with
  | Some (json, true) =>
      r_ok r = true /\ r_replaced r = false /\ r_not_modified r = false
      /\ calls w' = (calls w ++ [edit; pin])%list
  | Some (json, false) =>
      if not_modified json then
        r_ok r = true /\ r_replaced r = false /\ r_not_modified r = true
        /\ calls w' = (calls w ++ [edit; pin])%list
      else if strict_eq (get_member_opt json "error_code") (JNum 400) then
        let n := (n_clock w + ticks P s)%nat in
        let send := SendPhoto (chat_id c) (photo_sent P E s n)
                      (caption_sent P E c n) in
        r_replaced r = true /\ r_not_modified r = false
        /\ match reply_ok (net E (S (n_fetch w))) with
           | Some (j, true) =>
               r_ok r = true /\ r_message_id r = result_message_id j
               /\ calls w' =
                  (calls w
                   ++ [edit; send;
                       PinChatMessage (chat_id c) (result_message_id j)])%list
           | _ => r_ok r = false /\ calls w' = (calls w ++ [edit; send])%list
           end
      else r = failed c /\ calls w' = (calls w ++ [edit])%list
  | None => r = failed c /\ calls w' = (calls w ++ [edit])%list
  end.

(** The end of the loop body once the send or the edit has returned [r]:
    the update of the map when [guard] holds, then the pause. *)
Definition finish (k : string) (guard : bool) (r : Result) : M Result :=
  (if guard then setMessageId k (r_message_id r) else ret tt) ;;;
  emit (Delay 600) ;;;
  ret r.

(** The key under which [loadMessageMap] stores an element of the array:
    the first key of an object or array, when that key is not empty. *)
Definition first_key (item : JVal) : option string :=
  if truthy item && typeof_object item then
    match Object_keys item with
    | k :: _ => if negb (k =? "")%string then Some k else None
    | [] => None
    end
  else None.

(** No record of the map is [null] or [undefined]. *)
Definition no_null_record (m : Props) : Prop :=
  forall k, In k (map fst m) -> is_nullish (map_get m k) = false.

(** The record a chat has in the map. *)
Definition record_at (m : Props) (c : ChatTarget) : JVal :=
  map_get m (key_of (chat_id c)).

Definition is_delay (c : Call) : bool :=
  match c with Delay _ => true | _ => false end.

(** One of the three remote procedures. *)
Definition is_request (c : Call) : bool := is_send c || is_edit c || is_pin c.

(** The chat a request is addressed to. *)
Definition chat_of (c : Call) : option ChatId :=
  match c with
  | SendPhoto i _ _ => i
  | EditMessageMedia i _ _ _ => i
  | PinChatMessage i _ => i
  | _ => None
  end.

(** The requests of one target, each addressed to its chat: at least one
    and at most three. *)
Definition requests_of (c : ChatTarget) (block : list Call) : Prop :=
  (1 <= List.length block <= 3)%nat
  /\ Forall (fun e => is_request e = true /\ chat_of e = chat_id c) block.

(** The events of a loop over targets that each made the requests of its
    block and then paused. *)
Definition paced (blocks : list (list Call)) : list Call :=
  List.concat (map (fun block => block ++ [Delay 600])%list blocks).

(** The outside world with another reply to the request number [n]. *)
Definition with_reply (E : Env) (n : nat) (r : Reply) : Env :=
  {| net := fun i => if (i =? n)%nat then r else net E i; clock := clock E |}.

(** The edit is answered by an error 400 other than "not modified", after
    which [editPhoto] sends a new message. *)
Definition falls_back (r : Reply) : bool :=
  match reply_ok r with
  | Some (json, false) =>
      negb (not_modified json)
      && strict_eq (get_member_opt json "error_code") (JNum 400)
  | _ => false
  end.

(** The region has a URL the fetcher accepts. *)
Definition has_url (sources : list (string * string)) (r : string) : bool :=
  match source_url sources r with
  | Some url => negb (url =? "")%string
  | None => false
  end.

(** The regions a fetch run warned about for want of a URL. *)
Definition warned (evs : list FetchEvent) : list string :=
  flat_map (fun e => match e with WarnNoUrl r => [r] | _ => [] end) evs.

(** Whether a page is open after the events, starting from [open]; [None]
    when a page is opened while another one is open, when something is done
    with a page while none is open, or when a file is written while one
    is. *)
Fixpoint page_open (evs : list FetchEvent) (open : bool) : option bool :=
  match evs with
  | [] => Some open
  | NewPage :: rest => if open then None else page_open rest true
  | ClosePage :: rest => if open then page_open rest false else None
  | Goto _ :: rest | WaitForTimeout _ :: rest =>
      if open then page_open rest true else None
  | WriteFile _ _ :: rest => if open then None else page_open rest false
  | _ :: rest => page_open rest open
  end.

(** What the fetch of one URL leaves in the events: pages that open and
    close in turn, at most [n] of them, no file and no warning about a
    missing URL. *)
Definition quiet (evs : list FetchEvent) (n : nat) : Prop :=
  page_open evs false = Some false /\ warned evs = [] /\ writes evs = []
  /\ (pages evs <= n)%nat.

(** A delay the fetcher may sleep from the attempt [first] on: at least
    the base delay times that attempt, at most the base delay times the
    last attempt that is followed by another, plus the largest jitter. *)
Definition delay_in_range (cfg : FetchConfig) (first : Z) (ms : Z) : Prop :=
  BACKOFF_MS cfg * first <= ms
  <= BACKOFF_MS cfg * (MAX_RETRY cfg - 1) + 399.

Arguments sendPhoto : simpl never.
Arguments cacheBustedUrl : simpl never.
Arguments pinMessage : simpl never.
Arguments url_with_cb : simpl never.
Arguments url_append_cb : simpl never.
Arguments caption_at : simpl never.
Arguments format_timestamp : simpl never.
Arguments result_message_id : simpl never.
Arguments reply_ok : simpl never.
Arguments not_modified : simpl never.
Arguments strict_eq : simpl never.

(** * Strings *)

Lemma append_nil_r (s : string) : s ++ "" = s.
Proof. induction s; simpl; congruence. Qed.

Lemma append_assoc (a b c : string) : (a ++ b) ++ c = a ++ (b ++ c).
Proof. induction a; simpl; congruence. Qed.

Lemma append_length (a b : string) :
  String.length (a ++ b) = (String.length a + String.length b)%nat.
Proof. induction a; simpl; congruence. Qed.

Lemma append_inv_head (a b c : string) : a ++ b = a ++ c -> b = c.
Proof. induction a; simpl; intros H; [assumption | injection H; auto]. Qed.

Lemma append_inv_tail (a b c : string) : a ++ c = b ++ c -> a = b.
Proof.
  revert b; induction a as [|x a IH]; intros [|y b] H; simpl in H.
  - reflexivity.
  - apply (f_equal String.length) in H; simpl in H.
    rewrite append_length in H; lia.
  - apply (f_equal String.length) in H; simpl in H.
    rewrite append_length in H; lia.
  - injection H as -> H. f_equal. now apply IH.
Qed.

Lemma prefix_iff (a s : string) :
  prefix a s = true <-> exists suf, s = a ++ suf.
Proof.
  revert s; induction a as [|x a IH]; intros s.
  - destruct s; simpl; split; intros; eauto.
  - destruct s as [|y s]; simpl.
    + split; [discriminate | intros [suf H]; discriminate].
    + destruct (ascii_dec x y) as [->|N].
      * rewrite IH. split; intros [suf H]; exists suf; congruence.
      * split; [discriminate | intros [suf H]; congruence].
Qed.

Lemma includes_unfold (s sub : string) :
  includes s sub =
  if prefix sub s then true
  else match s with
       | EmptyString => false
       | String _ s' => includes s' sub
       end.
Proof. destruct s; reflexivity. Qed.

Lemma includes_iff (s sub : string) : includes s sub = true <-> contains s sub.
Proof.
  unfold contains. induction s as [|c s IH]; rewrite includes_unfold.
  - destruct (prefix sub "") eqn:Hp.
    + apply prefix_iff in Hp as [suf H].
      split; [intros _; exists "", suf; exact H | reflexivity].
    + split; [discriminate |].
      intros (pre & suf & H). destruct pre; simpl in H.
      * assert (prefix sub "" = true) by (apply prefix_iff; eauto). congruence.
      * discriminate.
  - destruct (prefix sub (String c s)) eqn:Hp.
    + apply prefix_iff in Hp as [suf H].
      split; [intros _; exists "", suf; exact H | reflexivity].
    + rewrite IH. split.
      * intros (pre & suf & H). exists (String c pre), suf. simpl. congruence.
      * intros (pre & suf & H). destruct pre as [|d pre]; simpl in H.
        -- assert (prefix sub (String c s) = true) by (apply prefix_iff; eauto).
           congruence.
        -- injection H as _ H. eauto.
Qed.

Lemma trimStart_all_ws (s : string) : all_ws s = true -> trimStart s = "".
Proof.
  induction s as [|c s IH]; simpl; [reflexivity |].
  intros H. apply andb_true_iff in H as [Hc Hs]. rewrite Hc. auto.
Qed.

Lemma trim_all_ws (s : string) : all_ws s = true -> trim s = "".
Proof. intros H. unfold trim. now rewrite trimStart_all_ws. Qed.

(** * Property lists *)

Lemma lookup_None_iff k (m : Props) : lookup k m = None <-> ~ In k (map fst m).
Proof.
  induction m as [|[k0 v0] m IH]; simpl.
  - intuition.
  - destruct (String.eqb_spec k0 k) as [->|Hk].
    + split; [discriminate | intros H; exfalso; apply H; now left].
    + rewrite IH. intuition.
Qed.

Lemma keys_obj_replace k v m : map fst (obj_replace k v m) = map fst m.
Proof.
  induction m as [|[k0 v0] m IH]; simpl; [reflexivity |].
  destruct (k0 =? k)%string; simpl; congruence.
Qed.

Lemma lookup_obj_replace k k' v m :
  lookup k' (obj_replace k v m)
  = if (k =? k')%string then option_map (fun _ => v) (lookup k m)
    else lookup k' m.
Proof.
  induction m as [|[k0 v0] m IH]; simpl.
  - now destruct (k =? k')%string.
  - destruct (String.eqb_spec k0 k) as [->|Hk]; simpl.
    + destruct (String.eqb_spec k k'); reflexivity.
    + rewrite IH. destruct (String.eqb_spec k k') as [<-|N].
      * destruct (String.eqb_spec k0 k); [contradiction | reflexivity].
      * reflexivity.
Qed.

Lemma obj_add_index_perm n k v m :
  Permutation (obj_add_index n k v m) ((k, v) :: m).
Proof.
  induction m as [|[k0 v0] m IH]; simpl; [reflexivity |].
  destruct (array_index k0) as [n0|]; [| reflexivity].
  destruct (n0 <? n); [| reflexivity].
  rewrite IH. apply perm_swap.
Qed.

Lemma obj_add_perm k v m : Permutation (obj_add k v m) ((k, v) :: m).
Proof.
  unfold obj_add. destruct (array_index k); [apply obj_add_index_perm |].
  symmetry. apply Permutation_cons_append.
Qed.

Lemma lookup_obj_add_index n k k' v m :
  lookup k m = None ->
  lookup k' (obj_add_index n k v m)
  = if (k =? k')%string then Some v else lookup k' m.
Proof.
  induction m as [|[k0 v0] m IH]; simpl; [reflexivity |].
  destruct (String.eqb_spec k0 k) as [->|Hk]; [discriminate |]. intros Hm.
  destruct (array_index k0) as [n0|]; [destruct (n0 <? n) |]; simpl;
    try reflexivity.
  rewrite (IH Hm). destruct (String.eqb_spec k k') as [<-|N]; [| reflexivity].
  destruct (String.eqb_spec k0 k); [contradiction | reflexivity].
Qed.

Lemma lookup_app k (m m' : Props) :
  lookup k (m ++ m')%list
  = match lookup k m with Some v => Some v | None => lookup k m' end.
Proof.
  induction m as [|[k0 v0] m IH]; simpl; [reflexivity |].
  now destruct (k0 =? k)%string.
Qed.

Lemma lookup_obj_add k k' v m :
  lookup k m = None ->
  lookup k' (obj_add k v m)
  = if (k =? k')%string then Some v else lookup k' m.
Proof.
  intros Hm. unfold obj_add.
  destruct (array_index k); [now apply lookup_obj_add_index |].
  rewrite lookup_app; simpl.
  destruct (String.eqb_spec k k') as [<-|N].
  - now rewrite Hm.
  - now destruct (lookup k' m).
Qed.

Lemma lookup_obj_set_same k v m : lookup k (obj_set k v m) = Some v.
Proof.
  unfold obj_set. destruct (lookup k m) eqn:Hm.
  - now rewrite lookup_obj_replace, String.eqb_refl, Hm.
  - now rewrite (lookup_obj_add _ _ _ _ Hm), String.eqb_refl.
Qed.

Lemma lookup_obj_set_other k k' v m :
  k <> k' -> lookup k' (obj_set k v m) = lookup k' m.
Proof.
  intros N. unfold obj_set. destruct (lookup k m) eqn:Hm.
  - rewrite lookup_obj_replace.
    destruct (String.eqb_spec k k'); [contradiction | reflexivity].
  - rewrite (lookup_obj_add _ _ _ _ Hm).
    destruct (String.eqb_spec k k'); [contradiction | reflexivity].
Qed.

(** A property that was not there is one more property. *)
Lemma obj_set_fresh k v (m : Props) :
  ~ In k (map fst m) -> Permutation (obj_set k v m) ((k, v) :: m).
Proof.
  intros H. apply lookup_None_iff in H. unfold obj_set. rewrite H.
  apply obj_add_perm.
Qed.

Lemma keys_obj_set k v m x :
  In x (map fst (obj_set k v m)) <-> x = k \/ In x (map fst m).
Proof.
  unfold obj_set. destruct (lookup k m) eqn:Hm.
  - rewrite keys_obj_replace. split; [auto | intros [->|H]; [| exact H]].
    destruct (in_dec string_dec k (map fst m)) as [Hin|Hn]; [exact Hin |].
    apply lookup_None_iff in Hn. congruence.
  - split; intros H.
    + apply (Permutation_in _ (Permutation_map fst (obj_add_perm k v m))) in H.
      destruct H as [<-|H]; auto.
    + apply (Permutation_in _
               (Permutation_sym (Permutation_map fst (obj_add_perm k v m)))).
      destruct H as [->|H]; [now left | now right].
Qed.

Lemma unique_keys_obj_set k v m :
  unique_keys m -> unique_keys (obj_set k v m).
Proof.
  unfold unique_keys, obj_set. intros H. destruct (lookup k m) eqn:Hm.
  - now rewrite keys_obj_replace.
  - eapply Permutation_NoDup.
    + symmetry. apply Permutation_map, obj_add_perm.
    + simpl. constructor; [now apply lookup_None_iff | exact H].
Qed.

Lemma lookup_In k v (m : Props) : lookup k m = Some v -> In (k, v) m.
Proof.
  induction m as [|[k0 v0] m IH]; simpl; [discriminate |].
  destruct (String.eqb_spec k0 k) as [->|Hk].
  - intros [= ->]. now left.
  - auto.
Qed.

Lemma In_lookup k v (m : Props) :
  unique_keys m -> In (k, v) m -> lookup k m = Some v.
Proof.
  unfold unique_keys. induction m as [|[k0 v0] m IH]; simpl; [intros _ [] |].
  intros H [E|Hin]; inversion H as [|? ? Hn Hd]; subst.
  - injection E as -> ->. now rewrite String.eqb_refl.
  - destruct (String.eqb_spec k0 k) as [->|Hk]; [| auto].
    exfalso. apply Hn. now apply (in_map fst) in Hin.
Qed.

Lemma In_obj_set k v m x y :
  In (x, y) (obj_set k v m) -> (x = k /\ y = v) \/ In (x, y) m.
Proof.
  unfold obj_set. destruct (lookup k m) as [old|].
  - induction m as [|[k0 v0] m IH]; simpl; [intros [] |].
    destruct (String.eqb_spec k0 k) as [->|Hk]; simpl.
    + intros [[= <- <-]|H]; auto.
    + intros [E|H]; auto. destruct (IH H); auto.
  - intros H. apply (Permutation_in _ (obj_add_perm k v m)) in H.
    destruct H as [[= <- <-]|H]; auto.
Qed.

(** * The suspect-content classifier *)

Lemma empty_contains_no_marker (sub : string) :
  sub <> "" -> ~ contains "" sub.
Proof.
  intros N (pre & suf & H). destruct pre; [| discriminate].
  destruct sub; [congruence | discriminate].
Qed.

(** C3: markup is suspect exactly when its length, the [html.length] the
    script compares, is below [MIN_BYTES] or one of the two markers
    [DisconSchedule.fact] and [DisconSchedule.preset] does not occur in
    it; markup of at least that length in which both occur is accepted. *)
Theorem isSuspectHtml_exact (cfg : FetchConfig) (html : string) :
  (isSuspectHtml cfg html = true <->
     Z.of_nat (js_length html) < MIN_BYTES cfg
     \/ ~ contains html marker_fact \/ ~ contains html marker_preset)
  /\ (isSuspectHtml cfg html = false <->
        MIN_BYTES cfg <= Z.of_nat (js_length html)
        /\ contains html marker_fact /\ contains html marker_preset).
Proof.
  unfold isSuspectHtml.
  destruct (String.eqb_spec html "") as [->|Hne].
  - assert (Hf : ~ contains "" marker_fact)
      by (apply empty_contains_no_marker; discriminate).
    split; split; try discriminate; try tauto.
  - pose proof (includes_iff html marker_fact) as Hfact.
    pose proof (includes_iff html marker_preset) as Hpre.
    destruct (Z.ltb_spec (Z.of_nat (js_length html)) (MIN_BYTES cfg));
      destruct (includes html marker_fact);
      destruct (includes html marker_preset); simpl;
      split; split; intros; try discriminate; try reflexivity;
      try lia; intuition (try discriminate; try lia).
Qed.

(** Markup in Ukrainian with both markers: 104 bytes in UTF-8 but 88 code
    units, which is what counts against a threshold of 100. *)
Lemma isSuspectHtml_exact_witness :
  let cfg := {| MAX_RETRY := 3; MIN_BYTES := 100; BACKOFF_MS := 2000 |} in
  let html :=
    "<p>Графік відключень</p><script>DisconSchedule.fact={};DisconSchedule.preset={}</script>" in
  String.length html = 104%nat /\ js_length html = 88%nat
  /\ includes html marker_fact = true /\ includes html marker_preset = true
  /\ isSuspectHtml cfg html = true.
Proof.
  intros cfg html. repeat (split; [reflexivity |]).
  apply (proj1 (isSuspectHtml_exact cfg html)). left. vm_compute. reflexivity.
Defined.

(** * Loading the message map *)

Lemma load_item_unique m item : unique_keys m -> unique_keys (load_item m item).
Proof.
  intros H. unfold load_item.
  destruct (truthy item && typeof_object item); [| assumption].
  destruct (Object_keys item) as [|k ks]; [assumption |].
  destruct (negb (k =? "")%string); [| assumption].
  now apply unique_keys_obj_set.
Qed.

Lemma fold_load_item_unique arr m :
  unique_keys m -> unique_keys (fold_left load_item arr m).
Proof.
  revert m; induction arr as [|item arr IH]; simpl; intros m H;
    [assumption | apply IH, load_item_unique, H].
Qed.

Lemma load_array_unique arr : unique_keys (load_array arr).
Proof. apply fold_load_item_unique. constructor. Qed.

Lemma load_item_origin m item k v :
  In (k, v) (load_item m item) ->
  In (k, v) m
  \/ (exists rest, Object_keys item = k :: rest)
     /\ get_member_opt item k = v /\ k <> "".
Proof.
  unfold load_item.
  destruct (truthy item && typeof_object item); [| auto].
  destruct (Object_keys item) as [|k0 ks] eqn:Hk; [auto |].
  destruct (String.eqb_spec k0 "") as [->|Hne]; simpl; [auto |].
  intros H. apply In_obj_set in H as [[-> ->]|H]; [right | auto].
  split; [eauto | split; [reflexivity | assumption]].
Qed.

Lemma fold_load_item_origin arr m k v :
  In (k, v) (fold_left load_item arr m) ->
  In (k, v) m
  \/ exists item rest,
       In item arr /\ Object_keys item = k :: rest
       /\ get_member_opt item k = v /\ k <> "".
Proof.
  revert m; induction arr as [|item arr IH]; simpl; intros m H; [auto |].
  apply IH in H as [H|(it & rest & Hin & Hk & Hv & Hne)].
  - apply load_item_origin in H as [H|([rest Hk] & Hv & Hne)]; [auto |].
    right. exists item, rest. auto.
  - right. exists it, rest. auto.
Qed.

Lemma loadMessageMap_unique (P : Platform) (f : MapFile) :
  unique_keys (loadMessageMap P f).
Proof.
  unfold loadMessageMap, loadMessageMap_try.
  destruct f as [| |raw]; try constructor.
  destruct (trim raw =? "")%string; [constructor |].
  destruct (JSON_parse P (trim raw)) as [[]|]; try constructor.
  apply load_array_unique.
Qed.

(** C10: [loadMessageMap] always returns a map.  A missing or unreadable
    file, an empty or whitespace-only file, unparsable JSON and JSON that
    is not an array all give the empty map, whatever exception the [try]
    block met; for an array, every loaded record is the value under the
    first key of one element; and the loaded map never holds two records
    for one chat id. *)
Theorem loadMessageMap_total (P : Platform) :
  loadMessageMap P FileMissing = []
  /\ (forall f, loadMessageMap_try P f = None -> loadMessageMap P f = [])
  /\ (forall raw, all_ws raw = true -> loadMessageMap P (FileText raw) = [])
  /\ (forall raw,
        JSON_parse P (trim raw) = None -> loadMessageMap P (FileText raw) = [])
  /\ (forall raw v,
        JSON_parse P (trim raw) = Some v -> Array_isArray v = false ->
        loadMessageMap P (FileText raw) = [])
  /\ (forall raw arr,
        trim raw <> "" -> JSON_parse P (trim raw) = Some (JArr arr) ->
        loadMessageMap P (FileText raw) = load_array arr)
  /\ (forall arr k v,
        In (k, v) (load_array arr) ->
        exists item rest,
          In item arr /\ Object_keys item = k :: rest
          /\ get_member_opt item k = v /\ k <> "")
  /\ (forall f, unique_keys (loadMessageMap P f)).
Proof.
  repeat split.
  - intros f H. unfold loadMessageMap. now rewrite H.
  - intros raw H. unfold loadMessageMap, loadMessageMap_try.
    now rewrite (trim_all_ws _ H).
  - intros raw H. unfold loadMessageMap, loadMessageMap_try.
    rewrite H. now destruct (trim raw =? "")%string.
  - intros raw v H Hv. unfold loadMessageMap, loadMessageMap_try.
    rewrite H. destruct (trim raw =? "")%string; [reflexivity |].
    destruct v; try reflexivity; discriminate.
  - intros raw arr Hne H. unfold loadMessageMap, loadMessageMap_try.
    rewrite H. destruct (String.eqb_spec (trim raw) ""); [contradiction |].
    reflexivity.
  - intros arr k v H. unfold load_array in H.
    apply fold_load_item_origin in H as [[]|H]. exact H.
  - apply loadMessageMap_unique.
Qed.

(** * Sorting the keys *)

Section Sorting.

Variable cmp : string -> string -> comparison.

Lemma sort_insert_perm x l : Permutation (sort_insert cmp x l) (x :: l).
Proof.
  induction l as [|y l IH]; simpl; [reflexivity |].
  destruct (cmp x y); try reflexivity.
  rewrite IH. apply perm_swap.
Qed.

Lemma js_sort_perm l : Permutation (js_sort cmp l) l.
Proof.
  induction l as [|x l IH]; simpl; [reflexivity |].
  rewrite sort_insert_perm. now constructor.
Qed.

Lemma js_sort_sorted_id l : Sorted (key_le cmp) l -> js_sort cmp l = l.
Proof.
  induction 1 as [|a l Hs IH Hd]; simpl; [reflexivity |].
  rewrite IH. destruct Hd as [|b l Hab]; simpl; [reflexivity |].
  unfold key_le in Hab. destruct (cmp a b); congruence.
Qed.

Hypothesis cmp_ok : consistent cmp.

Lemma key_le_flip a b : cmp a b = Gt -> key_le cmp b a.
Proof.
  intros H. unfold key_le. destruct cmp_ok as [Ha _].
  rewrite (Ha a b), H. discriminate.
Qed.

Lemma sort_insert_Forall x l (Q : string -> Prop) :
  Q x -> Forall Q l -> Forall Q (sort_insert cmp x l).
Proof.
  intros Hx Hl. eapply Permutation_Forall.
  - symmetry. apply sort_insert_perm.
  - now constructor.
Qed.

Lemma sort_insert_sorted x l :
  StronglySorted (key_le cmp) l ->
  StronglySorted (key_le cmp) (sort_insert cmp x l).
Proof.
  induction 1 as [|y l Hs IH Hy]; simpl.
  - repeat constructor.
  - destruct (cmp x y) eqn:Hxy.
    + constructor; [now constructor |].
      constructor; [unfold key_le; congruence |].
      eapply Forall_impl; [| exact Hy].
      intros z Hz. destruct cmp_ok as [_ Ht].
      apply (Ht x y z); [congruence | exact Hz].
    + constructor; [now constructor |].
      constructor; [unfold key_le; congruence |].
      eapply Forall_impl; [| exact Hy].
      intros z Hz. destruct cmp_ok as [_ Ht].
      apply (Ht x y z); [congruence | exact Hz].
    + constructor; [exact IH |].
      apply sort_insert_Forall; [now apply key_le_flip | exact Hy].
Qed.

Lemma js_sort_sorted l : StronglySorted (key_le cmp) (js_sort cmp l).
Proof.
  induction l as [|x l IH]; simpl; [constructor | now apply sort_insert_sorted].
Qed.

Lemma cmp_refl a : cmp a a = Eq.
Proof.
  destruct cmp_ok as [Ha _]. specialize (Ha a a).
  destruct (cmp a a); simpl in Ha; congruence.
Qed.




Lemma strictly_sorted_NoDup l : StronglySorted (key_lt cmp) l -> NoDup l.
Proof.
  induction 1 as [|a l Hs IH Ha]; constructor; [| exact IH].
  intros Hin. apply (proj1 (Forall_forall _ _) Ha) in Hin.
  unfold key_lt in Hin. rewrite cmp_refl in Hin. discriminate.
Qed.


End Sorting.

(** * Saving after loading *)

Lemma load_item_entry m kv :
  fst kv <> "" ->
  load_item m (entry kv) = obj_set (fst kv) (snd (record_of kv)) m.
Proof.
  intros Hne. destruct kv as [k mid]; simpl in *.
  unfold load_item, entry, Object_keys, get_member_opt, get_member; simpl.
  destruct (String.eqb_spec k "") as [->|_]; [congruence |]; simpl.
  now rewrite String.eqb_refl.
Qed.

(** The records come in the order the keys of the object have, which is
    the order of the array up to the place of the array indices. *)
Lemma fold_load_entries kvs m :
  Forall (fun k => k <> "") (map fst kvs) ->
  NoDup (map fst m ++ map fst kvs)%list ->
  Permutation (fold_left load_item (map entry kvs) m)
    (m ++ map record_of kvs)%list.
Proof.
  revert m; induction kvs as [|kv kvs IH]; simpl; intros m Hne Hnd.
  - now rewrite app_nil_r.
  - inversion Hne as [|? ? Hk Hks]; subst.
    rewrite load_item_entry by assumption.
    assert (Hfresh : ~ In (fst kv) (map fst m)).
    { apply NoDup_remove_2 in Hnd. intros Hin. apply Hnd, in_or_app. now left. }
    pose proof (obj_set_fresh (fst kv) (snd (record_of kv)) m Hfresh) as Hp.
    rewrite IH; [| assumption |].
    + rewrite Hp. simpl. apply Permutation_middle.
    + eapply Permutation_NoDup; [| exact Hnd].
      rewrite (Permutation_map fst Hp). simpl. symmetry.
      apply Permutation_middle.
Qed.

Lemma load_array_entries kvs :
  Forall (fun k => k <> "") (map fst kvs) -> NoDup (map fst kvs) ->
  Permutation (load_array (map entry kvs)) (map record_of kvs).
Proof.
  intros Hne Hnd. unfold load_array. now rewrite fold_load_entries.
Qed.

Lemma keys_record_of kvs : map fst (map record_of kvs) = map fst kvs.
Proof. rewrite map_map. reflexivity. Qed.

Lemma save_record_of m kv :
  lookup (fst kv) m = Some (snd (record_of kv)) ->
  save_record m (fst kv) = Some (entry kv).
Proof.
  intros H. unfold save_record, map_get. rewrite H. reflexivity.
Qed.

Lemma save_records_entries m kvs :
  (forall kv, In kv kvs -> lookup (fst kv) m = Some (snd (record_of kv))) ->
  save_records m (map fst kvs) = Some (map entry kvs).
Proof.
  induction kvs as [|kv kvs IH]; simpl; intros H; [reflexivity |].
  rewrite save_record_of by auto. rewrite IH by auto. reflexivity.
Qed.

(** * The remote procedures, seen from outside *)

Section Views.

Context (P : Platform) (E : Env).

Lemma since_app w w' evs : calls w' = (calls w ++ evs)%list -> since w w' = evs.
Proof.
  unfold since. intros ->. induction (calls w); simpl; auto.
Qed.

Lemma pinMessage_view id mid w :
  exists b, pinMessage E id mid w = Ok b (requested (PinChatMessage id mid) w).
Proof.
  unfold pinMessage, fetch_json, bind, ret.
  destruct (reply_ok (net E (n_fetch w))) as [[json ok]|]; eauto.
Qed.

Lemma cacheBustedUrl_view s w :
  exists w1,
    cacheBustedUrl P E (Some s) (tick w) = Ok (photo_sent P E s (n_clock w)) w1
    /\ messageMap w1 = messageMap w /\ mapDirty w1 = mapDirty w
    /\ calls w1 = calls w /\ n_fetch w1 = n_fetch w
    /\ n_clock w1 = (n_clock w + ticks P s)%nat.
Proof.
  unfold cacheBustedUrl, Date_now, bind, ret, photo_sent, busted, ticks.
  cbn. destruct (URL_parse P s); cbn;
    eexists; (split; [reflexivity |]); cbn; repeat split; lia.
Qed.

Ltac use_pin :=
  match goal with
  | |- context [pinMessage E ?i ?m ?x] =>
      let b := fresh "b" in destruct (pinMessage_view i m x) as [b ->]
  end.

Lemma sendPhoto_view c s w :
  image_url c = Some s ->
  exists r w',
    sendPhoto P E c w = Ok r w'
    /\ messageMap w' = messageMap w /\ mapDirty w' = mapDirty w
    /\ n_clock w' = (n_clock w + ticks P s)%nat
    /\ r_chat r = c /\ r_reason r = None /\ r_replaced r = false
    /\ r_not_modified r = false
    /\ sent_as P E c s w r w'.
Proof.
  intros Hurl.
  unfold sendPhoto, withTimestamp, getTimestamp, Date_now, fetch_json, bind,
    ret, sent_as.
  rewrite Hurl. cbn.
  destruct (cacheBustedUrl_view s w) as (w1 & -> & Hm1 & Hd1 & Hc1 & Hf1 & Hn1).
  cbn. rewrite Hf1.
  destruct (reply_ok (net E (n_fetch w))) as [[json [|]]|]; cbn;
    [use_pin | |];
    eexists; eexists; (split; [reflexivity |]); cbn;
    rewrite Hc1, <- ?app_assoc; repeat split; assumption.
Qed.

Lemma editPhoto_view c s mid w :
  image_url c = Some s ->
  exists r w',
    editPhoto P E c mid w = Ok r w'
    /\ messageMap w' = messageMap w /\ mapDirty w' = mapDirty w
    /\ r_chat r = c /\ r_reason r = None
    /\ edited_as P E c s mid w r w'.
Proof.
  intros Hurl.
  unfold editPhoto, withTimestamp, getTimestamp, Date_now, fetch_json, bind,
    ret, edited_as.
  rewrite Hurl. cbn.
  destruct (cacheBustedUrl_view s w) as (w1 & -> & Hm1 & Hd1 & Hc1 & Hf1 & Hn1).
  cbn. rewrite Hf1.
  destruct (reply_ok (net E (n_fetch w))) as [[json [|]]|]; cbn.
  - use_pin. eexists; eexists; (split; [reflexivity |]); cbn.
    rewrite Hc1, <- app_assoc. repeat split; assumption.
  - destruct (not_modified json); [| destruct (strict_eq _ _)]; cbn.
    + use_pin. eexists; eexists; (split; [reflexivity |]); cbn.
      rewrite Hc1, <- app_assoc. repeat split; assumption.
    + set (w2 := requested _ w1).
      destruct (sendPhoto_view c s w2 Hurl)
        as (sent & w' & Hs & Hm & Hd & Hn & Hch & Hre & Hrp & Hnm & Hcase).
      rewrite Hs. exists (with_replaced sent), w'.
      split; [reflexivity |]. cbn. unfold sent_as in Hcase.
      replace (n_fetch w2) with (S (n_fetch w)) in Hcase
        by (unfold w2; cbn; now rewrite Hf1).
      replace (n_clock w2) with (n_clock w + ticks P s)%nat in Hcase
        by (unfold w2; cbn; now rewrite Hn1).
      replace (calls w2) with (calls w ++ [EditMessageMedia (chat_id c) mid
                 (photo_sent P E s (n_clock w))
                 (caption_sent P E c (n_clock w))])%list in Hcase
        by (unfold w2; cbn; now rewrite Hc1).
      rewrite Hm, Hd. unfold w2; cbn. rewrite Hm1, Hd1.
      repeat split; try assumption.
      destruct (reply_ok (net E (S (n_fetch w)))) as [[j [|]]|].
      * destruct Hcase as (Hok & Hid & Hcalls).
        rewrite Hcalls, <- app_assoc. auto.
      * destruct Hcase as (-> & Hcalls).
        rewrite Hcalls, <- app_assoc. auto.
      * destruct Hcase as (-> & Hcalls).
        rewrite Hcalls, <- app_assoc. auto.
    + eexists; eexists; (split; [reflexivity |]); cbn.
      rewrite Hc1. repeat split; assumption.
  - eexists; eexists; (split; [reflexivity |]); cbn.
    rewrite Hc1. repeat split; assumption.
Qed.

Lemma setMessageId_view k mid w :
  let m1 := ensured (messageMap w) k in
  (setMessageId k mid w = Ok tt w
   /\ (truthy mid = false
       \/ truthy (map_get (messageMap w) k) = true
          /\ strict_eq (message_id_of (messageMap w) k) mid = true))
  \/ (truthy mid = true
      /\ strict_eq (message_id_of m1 k) mid = false
      /\ ((exists record w',
              set_member (map_get m1 k) "message_id" mid = Some record
              /\ setMessageId k mid w = Ok tt w'
              /\ messageMap w' = obj_set k record m1 /\ mapDirty w' = true
              /\ calls w' = calls w /\ n_fetch w' = n_fetch w
              /\ n_clock w' = n_clock w)
          \/ (set_member (map_get m1 k) "message_id" mid = None
              /\ exists w', setMessageId k mid w = Uncaught w'
                            /\ calls w' = calls w))).
Proof.
  unfold setMessageId, ensured, message_id_of.
  destruct (truthy mid) eqn:Hmid; cbn; [| left; auto].
  unfold bind, get_map, set_map, set_dirty, ret, throw.
  destruct (truthy (map_get (messageMap w) k)) eqn:Hrec; cbn.
  - destruct (strict_eq _ mid) eqn:Heq; cbn; [left; auto | right].
    split; [reflexivity | split; [reflexivity |]].
    destruct (set_member _ _ _) as [record|]; cbn.
    + left. eexists; eexists. repeat split.
    + right. split; [reflexivity |]. eexists; split; reflexivity.
  - destruct (strict_eq _ mid) eqn:Heq; cbn.
    + exfalso. revert Heq.
      unfold map_get. rewrite lookup_obj_set_same. cbn.
      destruct mid; cbn in *; discriminate.
    + right. split; [reflexivity | split; [reflexivity |]].
      destruct (set_member _ _ _) as [record|]; cbn.
      * left. eexists; eexists. repeat split.
      * right. split; [reflexivity |]. eexists; split; reflexivity.
Qed.

Lemma loop_body_invalid c w :
  valid c = false -> loop_body P E c w = Ok (invalid_config c) w.
Proof. intros H. unfold loop_body. now rewrite H. Qed.

Lemma loop_body_send c s w :
  valid c = true -> image_url c = Some s ->
  truthy (known_id (messageMap w) c) = false ->
  exists r w1,
    loop_body P E c w
    = finish (key_of (chat_id c)) (r_ok r && truthy (r_message_id r)) r w1
    /\ messageMap w1 = messageMap w /\ mapDirty w1 = mapDirty w
    /\ r_chat r = c /\ r_reason r = None /\ r_replaced r = false
    /\ r_not_modified r = false
    /\ sent_as P E c s w r w1.
Proof.
  intros Hv Hurl Hk.
  destruct (sendPhoto_view c s w Hurl)
    as (r & w1 & Hs & Hm & Hd & Hn & Hch & Hre & Hrp & Hnm & Hcase).
  exists r, w1. repeat split; try assumption.
  unfold loop_body, finish. rewrite Hv. cbn.
  unfold bind at 1. rewrite Hk. cbn.
  unfold bind. rewrite Hs.
  match goal with |- context [?f w1] =>
    match f with (if _ then _ else _) => destruct (f w1) end end;
    reflexivity.
Qed.

Lemma loop_body_edit c s w :
  valid c = true -> image_url c = Some s ->
  truthy (known_id (messageMap w) c) = true ->
  exists r w1,
    loop_body P E c w
    = finish (key_of (chat_id c))
        (r_ok r && r_replaced r && truthy (r_message_id r)) r w1
    /\ messageMap w1 = messageMap w /\ mapDirty w1 = mapDirty w
    /\ r_chat r = c /\ r_reason r = None
    /\ edited_as P E c s (known_id (messageMap w) c) w r w1.
Proof.
  intros Hv Hurl Hk.
  destruct (editPhoto_view c s (known_id (messageMap w) c) w Hurl)
    as (r & w1 & Hs & Hm & Hd & Hch & Hre & Hcase).
  exists r, w1. repeat split; try assumption.
  unfold loop_body, finish. rewrite Hv. cbn.
  unfold bind at 1. rewrite Hk. cbn.
  unfold bind. rewrite Hs.
  match goal with |- context [?f w1] =>
    match f with (if _ then _ else _) => destruct (f w1) end end;
    reflexivity.
Qed.

Lemma finish_view k guard r w1 :
  let m := messageMap w1 in
  let mid := r_message_id r in
  (exists w',
      finish k guard r w1 = Ok r w'
      /\ calls w' = (calls w1 ++ [Delay 600])%list
      /\ ((messageMap w' = m /\ mapDirty w' = mapDirty w1
           /\ (guard = false \/ truthy mid = false
               \/ truthy (map_get m k) = true
                  /\ strict_eq (message_id_of m k) mid = true))
          \/ (guard = true /\ truthy mid = true
              /\ strict_eq (message_id_of (ensured m k) k) mid = false
              /\ exists record,
                   set_member (map_get (ensured m k) k) "message_id" mid
                   = Some record
                   /\ messageMap w' = obj_set k record (ensured m k)
                   /\ mapDirty w' = true)))
  \/ (guard = true /\ truthy mid = true
      /\ set_member (map_get (ensured m k) k) "message_id" mid = None
      /\ exists w', finish k guard r w1 = Uncaught w' /\ calls w' = calls w1).
Proof.
  unfold finish. destruct guard; cbn.
  - destruct (setMessageId_view k (r_message_id r) w1)
      as [[Heq Hwhy]|(Hmid & Hneq & [(record & w' & Hset & Heq & Hm & Hd & Hc & _)
                                    |(Hset & w' & Heq & Hc)])];
      unfold bind; rewrite Heq; cbn.
    + left. eexists. split; [reflexivity |]. cbn.
      split; [reflexivity |]. left. repeat split. right. exact Hwhy.
    + left. eexists. split; [reflexivity |]. cbn.
      split; [now rewrite Hc |]. right. repeat split; try assumption.
      exists record. auto.
    + right. repeat split; try assumption. eauto.
  - left. eexists. split; [reflexivity |]. cbn.
    split; [reflexivity |]. left. auto.
Qed.

Lemma reply_ok_body n json okv :
  net E n = Body json -> get_member json "ok" = Some okv ->
  reply_ok (net E n) = Some (json, truthy okv).
Proof. intros H1 H2. unfold reply_ok. now rewrite H1, H2. Qed.

Lemma not_modified_intro json d :
  get_member_opt json "error_code" = JNum 400 ->
  get_member_opt json "description" = JStr d ->
  contains d "message is not modified" ->
  not_modified json = true.
Proof.
  intros H1 H2 H3. unfold not_modified. rewrite H1, H2.
  apply includes_iff in H3. now rewrite H3.
Qed.

(** C7: an edit answered by the error 400 whose description contains
    "message is not modified" counts as a success: the result is [ok], the
    stored message is pinned again, and neither the map nor its dirty flag
    changes. *)
Theorem unchanged_edit_is_success c s w json okv d :
  valid c = true -> image_url c = Some s ->
  truthy (known_id (messageMap w) c) = true ->
  net E (n_fetch w) = Body json ->
  get_member json "ok" = Some okv -> truthy okv = false ->
  get_member_opt json "error_code" = JNum 400 ->
  get_member_opt json "description" = JStr d ->
  contains d "message is not modified" ->
  exists r w',
    loop_body P E c w = Ok r w'
    /\ r_ok r = true /\ r_not_modified r = true
    /\ since w w'
       = [EditMessageMedia (chat_id c) (known_id (messageMap w) c)
            (photo_sent P E s (n_clock w)) (caption_sent P E c (n_clock w));
          PinChatMessage (chat_id c) (known_id (messageMap w) c);
          Delay 600]
    /\ messageMap w' = messageMap w /\ mapDirty w' = mapDirty w.
Proof.
  intros Hv Hurl Hk Hnet Hok Hfalse Hcode Hdesc Hd.
  destruct (loop_body_edit c s w Hv Hurl Hk)
    as (r & w1 & Heq & Hm & Hdirty & _ & _ & Hcase).
  unfold edited_as in Hcase.
  rewrite (reply_ok_body _ _ _ Hnet Hok), Hfalse in Hcase.
  rewrite (not_modified_intro _ _ Hcode Hdesc Hd) in Hcase.
  destruct Hcase as (Hrok & Hrep & Hnm & Hcalls).
  rewrite Hrok, Hrep in Heq. cbn in Heq.
  exists r, (logged (Delay 600) w1). rewrite Heq. cbn.
  repeat split; try assumption.
  apply since_app. cbn. rewrite Hcalls, <- app_assoc. reflexivity.
Qed.

Lemma finish_calls k guard r w1 :
  exists tail,
    calls (world_of (finish k guard r w1)) = (calls w1 ++ tail)%list
    /\ (tail = [Delay 600] \/ tail = []).
Proof.
  destruct (finish_view k guard r w1)
    as [(w' & -> & Hc & _)|(_ & _ & _ & w' & -> & Hc)]; cbn.
  - exists [Delay 600]. auto.
  - exists []. rewrite app_nil_r. auto.
Qed.

Lemma absent_is_unknown m c :
  lookup (key_of (chat_id c)) m = None -> known_id m c = JUndefined.
Proof. intros H. unfold known_id, map_get. now rewrite H. Qed.

Lemma finish_inserts k r w1 :
  lookup k (messageMap w1) = None ->
  r_ok r = true -> truthy (r_message_id r) = true ->
  exists w',
    finish k (r_ok r && truthy (r_message_id r)) r w1 = Ok r w'
    /\ lookup k (messageMap w')
       = Some (JObj [("message_id", r_message_id r)])
    /\ mapDirty w' = true.
Proof.
  intros Hnone Hok Hmid.
  assert (Hg : map_get (messageMap w1) k = JUndefined)
    by (unfold map_get; now rewrite Hnone).
  assert (He : map_get (ensured (messageMap w1) k) k = JObj []).
  { unfold ensured. rewrite Hg. cbn. unfold map_get.
    now rewrite lookup_obj_set_same. }
  destruct (finish_view k (r_ok r && truthy (r_message_id r)) r w1)
    as [(w' & Heq & _ & [(_ & _ & [Hc|[Hc|[Hc _]]])
                        |(_ & _ & _ & record & Hset & Hm & Hd)])
       |(_ & _ & Hset & _)].
  - rewrite Hok, Hmid in Hc. discriminate.
  - congruence.
  - rewrite Hg in Hc. discriminate.
  - exists w'. split; [exact Heq |]. split; [| exact Hd].
    rewrite Hm, lookup_obj_set_same. rewrite He in Hset. cbn in Hset.
    now injection Hset as <-.
  - rewrite He in Hset. discriminate.
Qed.

(** The send and edit calls of one target, by what the loop body reads in
    the map and in the reply. *)
Lemma loop_body_calls c s w :
  valid c = true -> image_url c = Some s ->
  let k := key_of (chat_id c) in
  let known := known_id (messageMap w) c in
  let o := loop_body P E c w in
  let evs := since w (world_of o) in
  (truthy known = false -> count is_send evs = 1%nat /\ count is_edit evs = 0%nat)
  /\ (lookup k (messageMap w) = None ->
      truthy known = false
      /\ forall json,
           reply_ok (net E (n_fetch w)) = Some (json, true) ->
           truthy (result_message_id json) = true ->
           exists r w',
             o = Ok r w' /\ r_ok r = true
             /\ lookup k (messageMap w')
                = Some (JObj [("message_id", result_message_id json)])
             /\ mapDirty w' = true)
  /\ (truthy known = true ->
      (exists rest,
          evs = EditMessageMedia (chat_id c) known
                  (photo_sent P E s (n_clock w))
                  (caption_sent P E c (n_clock w)) :: rest
          /\ count is_edit rest = 0%nat
          /\ (count is_send rest <= 1)%nat
          /\ (count is_send rest = 1%nat <->
              exists json,
                reply_ok (net E (n_fetch w)) = Some (json, false)
                /\ strict_eq (get_member_opt json "error_code") (JNum 400)
                   = true
                /\ not_modified json = false))).
Proof.
  intros Hv Hurl k known o evs. split; [| split].
  - intros Hk.
    destruct (loop_body_send c s w Hv Hurl Hk)
      as (r & w1 & Heq & _ & _ & _ & _ & _ & _ & Hcase).
    destruct (finish_calls k (r_ok r && truthy (r_message_id r)) r w1)
      as (tail & Hcalls & Htail).
    unfold evs, o. rewrite Heq. fold k.
    unfold sent_as in Hcase.
    destruct (reply_ok (net E (n_fetch w))) as [[json [|]]|].
    + destruct Hcase as (_ & _ & Hc1). rewrite Hc1, <- app_assoc in Hcalls.
      rewrite (since_app _ _ _ Hcalls). destruct Htail as [->| ->]; auto.
    + destruct Hcase as (_ & Hc1). rewrite Hc1, <- app_assoc in Hcalls.
      rewrite (since_app _ _ _ Hcalls). destruct Htail as [->| ->]; auto.
    + destruct Hcase as (_ & Hc1). rewrite Hc1, <- app_assoc in Hcalls.
      rewrite (since_app _ _ _ Hcalls). destruct Htail as [->| ->]; auto.
  - intros Hnone.
    assert (Hk : truthy known = false)
      by (unfold known; now rewrite (absent_is_unknown _ _ Hnone)).
    split; [exact Hk |]. intros json Hreply Hmid.
    destruct (loop_body_send c s w Hv Hurl Hk)
      as (r & w1 & Heq & Hm & _ & _ & _ & _ & _ & Hcase).
    unfold sent_as in Hcase. rewrite Hreply in Hcase.
    destruct Hcase as (Hok & Hid & _).
    destruct (finish_inserts k r w1) as (w' & Hfin & Hl & Hdirty);
      [now rewrite Hm | exact Hok | now rewrite Hid |].
    exists r, w'. unfold o. rewrite Heq. fold k.
    rewrite <- Hid. repeat split; assumption.
  - intros Hk.
    destruct (loop_body_edit c s w Hv Hurl Hk)
      as (r & w1 & Heq & _ & _ & _ & _ & Hcase).
    destruct (finish_calls k
                (r_ok r && r_replaced r && truthy (r_message_id r)) r w1)
      as (tail & Hcalls & Htail).
    unfold evs, o. rewrite Heq. fold k.
    unfold edited_as in Hcase. fold known in Hcase.
    destruct (reply_ok (net E (n_fetch w))) as [[json [|]]|].
    + destruct Hcase as (_ & _ & _ & Hc1).
      rewrite Hc1, <- app_assoc in Hcalls.
      rewrite (since_app _ _ _ Hcalls). eexists. split; [reflexivity |].
      destruct Htail as [->| ->]; cbn; repeat split; try lia;
        try (intros (j & [=] & _)); discriminate.
    + destruct (not_modified json) eqn:Hnm;
        [| destruct (strict_eq _ _) eqn:H400].
      * destruct Hcase as (_ & _ & _ & Hc1).
        rewrite Hc1, <- app_assoc in Hcalls.
        rewrite (since_app _ _ _ Hcalls). eexists. split; [reflexivity |].
        destruct Htail as [->| ->]; cbn; repeat split; try lia;
          try discriminate; intros (j & [= <-] & _ & Hn); congruence.
      * destruct Hcase as (_ & _ & Hcase).
        assert (Hex : exists j,
                   Some (json, false) = Some (j, false)
                   /\ strict_eq (get_member_opt j "error_code") (JNum 400)
                      = true
                   /\ not_modified j = false) by eauto.
        destruct (reply_ok (net E (S (n_fetch w)))) as [[j [|]]|];
          [destruct Hcase as (_ & _ & Hc1) | destruct Hcase as (_ & Hc1)
           | destruct Hcase as (_ & Hc1)];
          rewrite Hc1, <- app_assoc in Hcalls;
          rewrite (since_app _ _ _ Hcalls); (eexists; split; [reflexivity |]);
          destruct Htail as [->| ->]; cbn; repeat split; auto.
      * destruct Hcase as (_ & Hc1). rewrite Hc1, <- app_assoc in Hcalls.
        rewrite (since_app _ _ _ Hcalls). eexists. split; [reflexivity |].
        destruct Htail as [->| ->]; cbn; repeat split; try lia;
          try discriminate; intros (j & [= <-] & Hn & _); congruence.
    + destruct Hcase as (_ & Hc1). rewrite Hc1, <- app_assoc in Hcalls.
      rewrite (since_app _ _ _ Hcalls). eexists. split; [reflexivity |].
      destruct Htail as [->| ->]; cbn; repeat split; try lia;
        try discriminate; intros (j & [=] & _).
Qed.

(** * The map under [setMessageId] *)

Lemma strict_eq_true a b : strict_eq a b = true -> a = b.
Proof.
  unfold strict_eq. destruct a, b; try discriminate; intros H; try reflexivity.
  - apply Bool.eqb_prop in H. now subst.
  - apply Z.eqb_eq in H. now subst.
  - apply String.eqb_eq in H. now subst.
Qed.

Lemma strict_eq_primitive a b :
  primitive b = true -> strict_eq a b = false -> a <> b.
Proof.
  intros Hp H ->. unfold strict_eq in H. destruct b; try discriminate.
  - now rewrite Bool.eqb_reflx in H.
  - now rewrite Z.eqb_refl in H.
  - now rewrite String.eqb_refl in H.
Qed.

Lemma map_get_obj_set_same k v m : map_get (obj_set k v m) k = v.
Proof. unfold map_get. now rewrite lookup_obj_set_same. Qed.

Lemma map_get_obj_set_other k k' v m :
  k <> k' -> map_get (obj_set k v m) k' = map_get m k'.
Proof. intros N. unfold map_get. now rewrite lookup_obj_set_other. Qed.

Lemma set_member_get v mid record :
  set_member v "message_id" mid = Some record ->
  get_member_opt record "message_id" = mid /\ primitive record = false.
Proof.
  unfold set_member. destruct v; try discriminate; intros [= <-];
    unfold get_member_opt, get_member; cbn;
    now rewrite lookup_obj_set_same.
Qed.

Lemma records_obj_set k v m :
  records_are_objects m -> primitive v = false ->
  records_are_objects (obj_set k v m).
Proof.
  unfold records_are_objects. intros Hm Hv.
  apply Forall_forall. intros [x y] Hin.
  apply In_obj_set in Hin as [[_ ->]|Hin]; [exact Hv |].
  exact (proj1 (Forall_forall _ _) Hm _ Hin).
Qed.

Lemma records_map_get m k :
  records_are_objects m ->
  map_get m k = JUndefined \/ primitive (map_get m k) = false.
Proof.
  unfold records_are_objects, map_get. intros Hm.
  destruct (lookup k m) as [v|] eqn:Hl; [right | now left].
  apply lookup_In in Hl.
  apply (proj1 (Forall_forall _ _) Hm) in Hl. exact Hl.
Qed.

Lemma records_ensured m k :
  records_are_objects m -> records_are_objects (ensured m k).
Proof.
  intros Hm. unfold ensured. destruct (truthy (map_get m k)); [exact Hm |].
  now apply records_obj_set.
Qed.

Lemma ensured_settable m k mid :
  records_are_objects m ->
  exists record,
    set_member (map_get (ensured m k) k) "message_id" mid = Some record.
Proof.
  intros Hm. unfold ensured.
  destruct (truthy (map_get m k)) eqn:Ht.
  - destruct (records_map_get m k Hm) as [Hu|Hp].
    + rewrite Hu in Ht. discriminate.
    + destruct (map_get m k); try discriminate; cbn; eauto.
  - rewrite map_get_obj_set_same. cbn. eauto.
Qed.

Lemma message_id_of_ensured m k k' :
  message_id_of (ensured m k) k' = message_id_of m k'.
Proof.
  unfold ensured, message_id_of.
  destruct (truthy (map_get m k)) eqn:Ht; [reflexivity |].
  destruct (String.eqb_spec k k') as [<-|N].
  - rewrite map_get_obj_set_same.
    destruct (map_get m k) as [| |[|]|n|s|l|ps]; try discriminate;
      try reflexivity.
  - now rewrite map_get_obj_set_other.
Qed.

Lemma finish_safe k guard r w1 :
  let m := messageMap w1 in
  let mid := r_message_id r in
  records_are_objects m ->
  exists w',
    finish k guard r w1 = Ok r w'
    /\ calls w' = (calls w1 ++ [Delay 600])%list
    /\ records_are_objects (messageMap w')
    /\ ((messageMap w' = m /\ mapDirty w' = mapDirty w1
         /\ (guard = true -> truthy mid = true ->
             strict_eq (message_id_of m k) mid = true))
        \/ (guard = true /\ truthy mid = true
            /\ strict_eq (message_id_of m k) mid = false
            /\ mapDirty w' = true
            /\ message_id_of (messageMap w') k = mid
            /\ forall k', k <> k' ->
                 message_id_of (messageMap w') k' = message_id_of m k')).
Proof.
  intros m mid Hm. subst m mid.
  destruct (finish_view k guard r w1)
    as [(w' & Heq & Hc & [(Hsame & Hd & Hwhy)
                         |(Hg & Hmid & Hneq & record & Hset & Hm' & Hd)])
       |(_ & _ & Hset & _)].
  - exists w'. repeat split; try assumption; [now rewrite Hsame |].
    left. repeat split; try assumption. intros Hg Hmid.
    destruct Hwhy as [Hc'|[Hc'|[_ Hc']]]; congruence.
  - exists w'. apply set_member_get in Hset as [Hget Hprim].
    repeat split; try assumption.
    + rewrite Hm'. apply records_obj_set; [now apply records_ensured | exact Hprim].
    + right. rewrite message_id_of_ensured in Hneq.
      repeat split; try assumption.
      * rewrite Hm'. unfold message_id_of. now rewrite map_get_obj_set_same.
      * intros k' N. rewrite Hm'. unfold message_id_of.
        rewrite map_get_obj_set_other by exact N.
        apply (message_id_of_ensured (messageMap w1) k k').
  - destruct (ensured_settable (messageMap w1) k (r_message_id r) Hm)
      as [record Hr]. congruence.
Qed.

Lemma finish_effect k guard r w1 :
  records_are_objects (messageMap w1) ->
  (guard = true -> truthy (r_message_id r) = true) ->
  exists w',
    finish k guard r w1 = Ok r w'
    /\ calls w' = (calls w1 ++ [Delay 600])%list
    /\ (guard = true ->
        message_id_of (messageMap w') k = r_message_id r
        /\ (strict_eq (message_id_of (messageMap w1) k) (r_message_id r)
            = false -> mapDirty w' = true))
    /\ (guard = false ->
        messageMap w' = messageMap w1 /\ mapDirty w' = mapDirty w1).
Proof.
  intros Hrec Hg.
  destruct (finish_safe k guard r w1 Hrec)
    as (w' & Heq & Hc & _ & [(Hsame & Hd & Hwhy)
                            |(Hgt & Hmid & Hneq & Hd & Hid & _)]).
  - exists w'. repeat split; try assumption.
    + rewrite Hsame. apply strict_eq_true. auto.
    + intros Hneq. rewrite Hwhy in Hneq by auto. discriminate.
  - exists w'. repeat split; try assumption; congruence.
Qed.

(** C6, as amended: a valid target causes one send-or-edit request, or
    two when an edit is replaced by a send; the message is pinned once
    when the target ends [ok] and not at all otherwise; and when a send
    returned a message identifier the map holds it afterwards, dirty if it
    differs from the stored one, while in every other case the map is left
    as it was. *)
Theorem attempts_and_pins c s w :
  valid c = true -> image_url c = Some s ->
  records_are_objects (messageMap w) ->
  let k := key_of (chat_id c) in
  let m := messageMap w in
  exists r w',
    loop_body P E c w = Ok r w'
    /\ let evs := since w w' in
       (count is_send evs + count is_edit evs
        = if r_replaced r then 2 else 1)%nat
       /\ count is_pin evs = (if r_ok r then 1 else 0)%nat
       /\ (r_replaced r = true ->
           count is_edit evs = 1%nat /\ count is_send evs = 1%nat
           /\ truthy (known_id m c) = true)
       /\ let got_id :=
            (negb (truthy (known_id m c)) || r_replaced r)
            && r_ok r && truthy (r_message_id r) in
          (got_id = true ->
           message_id_of (messageMap w') k = r_message_id r
           /\ (strict_eq (message_id_of m k) (r_message_id r) = false ->
               mapDirty w' = true))
          /\ (got_id = false ->
              messageMap w' = m /\ mapDirty w' = mapDirty w).
Proof.
  intros Hv Hurl Hrec k m.
  destruct (truthy (known_id m c)) eqn:Hk.
  - destruct (loop_body_edit c s w Hv Hurl Hk)
      as (r & w1 & Heq & Hm & Hd & _ & _ & Hcase).
    remember (r_ok r && r_replaced r && truthy (r_message_id r)) as guard
      eqn:Hguard.
    destruct (finish_effect k guard r w1) as (w' & Hfin & Hcalls & Hyes & Hno);
      [now rewrite Hm | subst guard; intros Hg;
                        now apply andb_true_iff in Hg as [_ Hg] |].
    exists r, w'. split; [now rewrite Heq |]. rewrite Hm, Hd in *.
    assert (Hgot : (negb true || r_replaced r) && r_ok r
                   && truthy (r_message_id r) = guard)
      by (subst guard; cbn; now destruct (r_replaced r), (r_ok r)).
    cbn zeta. rewrite Hgot. clear Hgot Hguard. unfold edited_as in Hcase.
    split; [| split; [| split; [| split; [exact Hyes | exact Hno]]]];
      destruct (reply_ok (net E (n_fetch w))) as [[json [|]]|];
      try destruct (not_modified json);
      try destruct (strict_eq _ _);
      try destruct (reply_ok (net E (S (n_fetch w)))) as [[j [|]]|];
      repeat match type of Hcase with
             | _ /\ _ => let H := fresh "H" in destruct Hcase as [H Hcase]
             end;
      subst; try rewrite H; try rewrite H0; try rewrite H1;
      rewrite Hcase, <- app_assoc in Hcalls;
      rewrite (since_app _ _ _ Hcalls); cbn; auto; try discriminate.
  - destruct (loop_body_send c s w Hv Hurl Hk)
      as (r & w1 & Heq & Hm & Hd & _ & _ & Hrep & _ & Hcase).
    remember (r_ok r && truthy (r_message_id r)) as guard eqn:Hguard.
    destruct (finish_effect k guard r w1) as (w' & Hfin & Hcalls & Hyes & Hno);
      [now rewrite Hm | subst guard; intros Hg;
                        now apply andb_true_iff in Hg as [_ Hg] |].
    exists r, w'. split; [now rewrite Heq |]. rewrite Hm, Hd in *.
    cbn zeta. rewrite Hrep. cbn [negb orb andb]. rewrite <- Hguard.
    clear Hguard. unfold sent_as in Hcase.
    split; [| split; [| split; [| split; [exact Hyes | exact Hno]]]];
      destruct (reply_ok (net E (n_fetch w))) as [[json [|]]|];
      repeat match type of Hcase with
             | _ /\ _ => let H := fresh "H" in destruct Hcase as [H Hcase]
             end;
      subst; try rewrite H;
      rewrite Hcase, <- app_assoc in Hcalls;
      rewrite (since_app _ _ _ Hcalls); cbn; auto; try discriminate.
Qed.

(** ** The replies as they arrive *)

Lemma reply_ok_raw r json b :
  reply_ok r = Some (json, b)
  <-> r = Body json
      /\ exists okv, get_member json "ok" = Some okv /\ truthy okv = b.
Proof.
  unfold reply_ok. destruct r as [|j].
  - split; [discriminate | intros [H _]; discriminate].
  - destruct (get_member j "ok") as [okv|] eqn:Hok; split.
    + intros [= -> <-]. split; [reflexivity | eauto].
    + intros [[= ->] (okv' & Hok' & <-)]. congruence.
    + discriminate.
    + intros [[= ->] (okv' & Hok' & _)]. congruence.
Qed.

Lemma is_400_raw v : strict_eq v (JNum 400) = true <-> v = JNum 400.
Proof. split; [apply strict_eq_true | intros ->; reflexivity]. Qed.

Lemma not_modified_raw json :
  get_member_opt json "error_code" = JNum 400 ->
  (not_modified json = false <->
   ~ exists d, get_member_opt json "description" = JStr d
               /\ contains d "message is not modified").
Proof.
  intros H400. unfold not_modified. rewrite H400.
  change (strict_eq (JNum 400) (JNum 400)) with true. cbn [andb].
  destruct (get_member_opt json "description") as [| |b|n|d|l|ps];
    try (split; [intros _ (d' & H & _); discriminate | reflexivity]).
  split.
  - intros Hinc (d' & [= <-] & Hc). apply includes_iff in Hc. congruence.
  - intros Hno. destruct (includes d "message is not modified") eqn:Hinc;
      [| reflexivity].
    exfalso. apply Hno. exists d. split; [reflexivity |].
    now apply includes_iff.
Qed.

Lemma result_id_raw json result mid :
  get_member_opt json "result" = result ->
  get_member_opt result "message_id" = mid -> truthy mid = true ->
  result_message_id json = mid.
Proof.
  intros Hres Hmid Ht. unfold result_message_id. rewrite Hres.
  destruct (truthy result) eqn:Hr; [exact Hmid |].
  destruct result; try discriminate; cbn in Hmid; subst mid; discriminate.
Qed.

Lemma record_id_raw m c record :
  lookup (key_of (chat_id c)) m = Some record ->
  known_id m c = get_member_opt record "message_id".
Proof. intros H. unfold known_id, map_get. now rewrite H. Qed.

Lemma fallback_raw r :
  (exists json,
      reply_ok r = Some (json, false)
      /\ strict_eq (get_member_opt json "error_code") (JNum 400) = true
      /\ not_modified json = false)
  <-> (exists json okv,
          r = Body json
          /\ get_member json "ok" = Some okv /\ truthy okv = false
          /\ get_member_opt json "error_code" = JNum 400
          /\ ~ (exists d, get_member_opt json "description" = JStr d
                          /\ contains d "message is not modified")).
Proof.
  split.
  - intros (json & Hr & H400 & Hnm).
    apply reply_ok_raw in Hr as (-> & okv & Hok & Hf).
    apply is_400_raw in H400.
    exists json, okv. repeat split; auto. now apply not_modified_raw.
  - intros (json & okv & -> & Hok & Hf & H400 & Hnm).
    exists json. split; [| split].
    + apply reply_ok_raw. split; [reflexivity | eauto].
    + now apply is_400_raw.
    + now apply not_modified_raw.
Qed.

(** C1: a valid target whose chat id is absent from the map causes exactly
    one send call and no edit call, and when the reply to that send has a
    truthy [ok] and carries a message identifier, the map gains the record
    of that identifier under the chat id and is marked dirty; a valid
    target whose chat id has a record with a message identifier causes
    exactly one edit call, of that message, before any send call, and a
    send call follows exactly when the reply to the edit has a falsy [ok]
    and the error code 400 without a description that contains "message
    is not modified"; a record without a message identifier is treated as
    an absent one. *)
Theorem send_or_edit_by_map c s w :
  valid c = true -> image_url c = Some s ->
  let k := key_of (chat_id c) in
  let o := loop_body P E c w in
  let evs := since w (world_of o) in
  (lookup k (messageMap w) = None ->
   count is_send evs = 1%nat /\ count is_edit evs = 0%nat
   /\ forall json okv result mid,
        net E (n_fetch w) = Body json ->
        get_member json "ok" = Some okv -> truthy okv = true ->
        get_member_opt json "result" = result ->
        get_member_opt result "message_id" = mid -> truthy mid = true ->
        exists r w',
          o = Ok r w' /\ r_ok r = true
          /\ lookup k (messageMap w') = Some (JObj [("message_id", mid)])
          /\ mapDirty w' = true)
  /\ (forall record mid,
        lookup k (messageMap w) = Some record ->
        get_member_opt record "message_id" = mid -> truthy mid = true ->
        exists rest,
          evs = EditMessageMedia (chat_id c) mid
                  (photo_sent P E s (n_clock w))
                  (caption_sent P E c (n_clock w)) :: rest
          /\ count is_edit rest = 0%nat
          /\ (count is_send rest <= 1)%nat
          /\ (count is_send rest = 1%nat <->
              exists json okv,
                net E (n_fetch w) = Body json
                /\ get_member json "ok" = Some okv /\ truthy okv = false
                /\ get_member_opt json "error_code" = JNum 400
                /\ ~ (exists d,
                         get_member_opt json "description" = JStr d
                         /\ contains d "message is not modified")))
  /\ (forall record,
        lookup k (messageMap w) = Some record ->
        truthy (get_member_opt record "message_id") = false ->
        count is_send evs = 1%nat /\ count is_edit evs = 0%nat).
Proof.
  intros Hv Hurl k o evs.
  destruct (loop_body_calls c s w Hv Hurl) as (Hsend & Habsent & Hedit).
  cbn zeta in Hsend, Habsent, Hedit. fold k o evs in Hsend, Habsent, Hedit.
  split; [| split].
  - intros Hnone. destruct (Habsent Hnone) as [Hk Hins].
    destruct (Hsend Hk) as [H1 H0]. split; [exact H1 |]. split; [exact H0 |].
    intros json okv result mid Hnet Hok Ht Hres Hmid Htm.
    rewrite <- (result_id_raw json result mid Hres Hmid Htm).
    apply Hins.
    + apply reply_ok_raw. split; [exact Hnet | eauto].
    + now rewrite (result_id_raw json result mid Hres Hmid Htm).
  - intros record mid Hrec Hmid Htm.
    assert (Hknown : known_id (messageMap w) c = mid)
      by (rewrite (record_id_raw _ _ _ Hrec); exact Hmid).
    rewrite Hknown in Hedit.
    destruct (Hedit Htm) as (rest & Hevs & He & Hle & Hiff).
    exists rest. repeat split; try assumption.
    + intros H. now apply fallback_raw, Hiff.
    + intros H. now apply Hiff, fallback_raw.
  - intros record Hrec Hno. apply Hsend.
    now rewrite (record_id_raw _ _ _ Hrec).
Qed.

End Views.

(** ** The loop body on sample worlds *)

Lemma unchanged_edit_is_success_witness :
  exists r w',
    loop_body Sample.platform Sample.unchanged (Sample.chat (-1001))
      (Sample.world (Sample.remembered (-1001) 55)) = Ok r w'
    /\ r_ok r = true /\ r_not_modified r = true
    /\ since (Sample.world (Sample.remembered (-1001) 55)) w'
       = [EditMessageMedia (Some (ChatNum (-1001))) (JNum 55)
            "https://example.org/a.png?cb=1700000001000"
            (caption_sent Sample.platform Sample.unchanged
               (Sample.chat (-1001)) 0);
          PinChatMessage (Some (ChatNum (-1001))) (JNum 55);
          Delay 600]
    /\ messageMap w' = Sample.remembered (-1001) 55 /\ mapDirty w' = false.
Proof.
  apply (unchanged_edit_is_success Sample.platform Sample.unchanged
           (Sample.chat (-1001)) "https://example.org/a.png"
           (Sample.world (Sample.remembered (-1001) 55))
           (JObj [("ok", JBool false); ("error_code", JNum 400);
                  ("description", JStr "Bad Request: message is not modified")])
           (JBool false) "Bad Request: message is not modified");
    try reflexivity.
  apply includes_iff. reflexivity.
Defined.

Lemma send_or_edit_by_map_witness :
  let c := Sample.chat (-1001) in
  let fresh := Sample.world [] in
  let known := Sample.world (Sample.remembered (-1001) 55) in
  (exists r w',
      loop_body Sample.platform Sample.accepting c fresh = Ok r w'
      /\ r_ok r = true
      /\ lookup "-1001" (messageMap w') = Some (JObj [("message_id", JNum 100)])
      /\ mapDirty w' = true)
  /\ (exists rest,
         since known (world_of (loop_body Sample.platform Sample.gone c known))
         = EditMessageMedia (Some (ChatNum (-1001))) (JNum 55)
             "https://example.org/a.png?cb=1700000001000"
             (caption_sent Sample.platform Sample.gone c 0) :: rest
         /\ count is_edit rest = 0%nat /\ count is_send rest = 1%nat).
Proof.
  intros c fresh known. split.
  - pose proof (send_or_edit_by_map Sample.platform Sample.accepting c
                  "https://example.org/a.png" fresh eq_refl eq_refl) as H.
    cbv zeta in H. destruct H as (Habsent & _ & _).
    destruct (Habsent eq_refl) as (_ & _ & Hins).
    exact (Hins (JObj [("ok", JBool true);
                       ("result", JObj [("message_id", JNum 100)])])
             (JBool true) (JObj [("message_id", JNum 100)]) (JNum 100)
             eq_refl eq_refl eq_refl eq_refl eq_refl eq_refl).
  - pose proof (send_or_edit_by_map Sample.platform Sample.gone c
                  "https://example.org/a.png" known eq_refl eq_refl) as H.
    cbv zeta in H. destruct H as (_ & Hedit & _).
    destruct (Hedit (JObj [("message_id", JNum 55)]) (JNum 55)
                eq_refl eq_refl eq_refl) as (rest & Hevs & He & _ & Hiff).
    exists rest. split; [exact Hevs |]. split; [exact He |].
    apply Hiff.
    exists (JObj [("ok", JBool false); ("error_code", JNum 400);
                  ("description",
                   JStr "Bad Request: message to edit not found")]),
      (JBool false).
    repeat split; try reflexivity.
    intros (d & [= <-] & Hc). apply includes_iff in Hc. discriminate.
Defined.

Lemma attempts_and_pins_witness :
  exists r w',
    loop_body Sample.platform Sample.gone (Sample.chat (-1001))
      (Sample.world (Sample.remembered (-1001) 55)) = Ok r w'
    /\ r_replaced r = true /\ r_ok r = true
    /\ message_id_of (messageMap w') "-1001" = JNum 101
    /\ mapDirty w' = true.
Proof.
  destruct (attempts_and_pins Sample.platform Sample.gone
              (Sample.chat (-1001)) "https://example.org/a.png"
              (Sample.world (Sample.remembered (-1001) 55))
              eq_refl eq_refl)
    as (r & w' & Heq & _ & _ & _ & Hyes & _).
  - repeat constructor.
  - exists r, w'. split; [exact Heq |].
    vm_compute in Heq. injection Heq as <- <-. vm_compute. auto.
Defined.

(** C6, as stated, fails: an edit that is replaced by a send makes two
    requests for one target, and a target whose send is refused is not
    pinned at all. *)
Lemma one_attempt_one_pin_fails :
  (exists E c w,
      valid c = true /\ records_are_objects (messageMap w)
      /\ let evs := since w (world_of (loop_body Sample.platform E c w)) in
         (count is_send evs + count is_edit evs)%nat = 2%nat)
  /\ (exists E c w,
         valid c = true /\ records_are_objects (messageMap w)
         /\ let evs := since w (world_of (loop_body Sample.platform E c w)) in
            count is_pin evs = 0%nat).
Proof.
  split.
  - exists Sample.gone, (Sample.chat (-1001)),
      (Sample.world (Sample.remembered (-1001) 55)).
    split; [reflexivity | split; [repeat constructor | reflexivity]].
  - exists Sample.refusing, (Sample.chat (-1001)), (Sample.world []).
    split; [reflexivity | split; [constructor | reflexivity]].
Qed.

(** * Captions and cache busting *)

Lemma string_of_Z_inj a b : string_of_Z a = string_of_Z b -> a = b.
Proof.
  unfold string_of_Z. intros H.
  apply (f_equal NilEmpty.int_of_string) in H.
  rewrite !NilEmpty.isi in H. injection H as H.
  now apply DecimalZ.to_int_inj.
Qed.

Lemma urlencode_uint d :
  urlencode (NilEmpty.string_of_uint d) = NilEmpty.string_of_uint d.
Proof. induction d; simpl; [reflexivity | rewrite IHd; reflexivity ..]. Qed.

Lemma urlencode_decimal t : urlencode (string_of_Z t) = string_of_Z t.
Proof.
  unfold string_of_Z, NilEmpty.string_of_int.
  destruct (Z.to_int t); simpl; now rewrite urlencode_uint.
Qed.

Lemma serialize_query_cons p q :
  q <> [] -> serialize_query (p :: q) = serialize_pair p ++ "&" ++ serialize_query q.
Proof. destruct q; [congruence | reflexivity]. Qed.

Lemma searchParams_set_nonempty name v q : searchParams_set name v q <> [].
Proof.
  destruct q as [|[n v0] q]; simpl; [discriminate |].
  destruct (n =? name)%string; discriminate.
Qed.

Lemma serialize_set_shape name q :
  exists A B, forall v,
    serialize_query (searchParams_set name v q) = A ++ urlencode v ++ B.
Proof.
  induction q as [|[n v0] q (A & B & IH)]; simpl.
  - exists (urlencode name ++ "="), "". intros v.
    unfold serialize_pair; simpl. now rewrite append_assoc, append_nil_r.
  - destruct (n =? name)%string.
    + destruct (filter (fun p => negb (fst p =? name)%string) q) as [|p rest].
      * exists (urlencode n ++ "="), "". intros v.
        unfold serialize_pair; simpl. now rewrite append_assoc, append_nil_r.
      * exists (urlencode n ++ "="), ("&" ++ serialize_query (p :: rest)).
        intros v. rewrite serialize_query_cons by discriminate.
        unfold serialize_pair; simpl. now rewrite !append_assoc.
    + exists (serialize_pair (n, v0) ++ "&" ++ A), B. intros v.
      rewrite serialize_query_cons by apply searchParams_set_nonempty.
      rewrite IH. now rewrite !append_assoc.
Qed.

Lemma URL_toString_set u name v :
  URL_toString (URL_set u name v)
  = url_prefix u
    ++ ("?" ++ serialize_query (searchParams_set name v (url_query u)))
    ++ url_fragment u.
Proof.
  unfold URL_toString, URL_set. cbn [url_prefix url_query url_fragment].
  destruct (searchParams_set name v (url_query u)) eqn:Hq;
    [now apply searchParams_set_nonempty in Hq | reflexivity].
Qed.

Lemma url_with_cb_inj u t t' : t <> t' -> url_with_cb u t <> url_with_cb u t'.
Proof.
  intros N H. apply N. unfold url_with_cb in H.
  rewrite !URL_toString_set in H.
  destruct (serialize_set_shape "cb" (url_query u)) as (A & B & Hs).
  rewrite !Hs, !urlencode_decimal in H.
  apply append_inv_head, append_inv_tail, append_inv_head in H.
  apply append_inv_head, append_inv_tail in H.
  now apply string_of_Z_inj.
Qed.

Lemma url_append_cb_inj s t t' :
  t <> t' -> url_append_cb s t <> url_append_cb s t'.
Proof.
  intros N H. apply N. unfold url_append_cb in H.
  repeat apply append_inv_head in H. now apply string_of_Z_inj.
Qed.

Lemma busted_inj (P : Platform) s t1 t2 t1' t2' :
  t1 <> t1' -> t2 <> t2' -> busted P s t1 t2 <> busted P s t1' t2'.
Proof.
  intros N1 N2. unfold busted. destruct (URL_parse P s).
  - now apply url_with_cb_inj.
  - now apply url_append_cb_inj.
Qed.

Lemma searchParams_set_In name v q : In (name, v) (searchParams_set name v q).
Proof.
  induction q as [|[n v0] q IH]; simpl; [now left |].
  destruct (String.eqb_spec n name) as [->|N]; [now left | now right].
Qed.

Section Stamps.

Context (P : Platform) (E : Env).

Lemma caption_sent_shape c n :
  caption_sent P E c n
  = (if truthy_str (caption c)
     then match caption c with Some x => x | None => "" end ++ nl
     else "")
    ++ updated_label ++ format_timestamp P (clock E n).
Proof.
  unfold caption_sent, caption_at, truthy_str.
  destruct (caption c) as [x|]; [| reflexivity].
  destruct (negb (x =? "")%string); [| reflexivity].
  now rewrite append_assoc.
Qed.

(** C9: every send and every edit carries a caption made of the target's
    caption (nothing when it is missing or empty), the label and a time
    stamp rendered in the zone Europe/Kyiv from a clock reading of its
    own, and an image reference that carries the query parameter [cb] set
    from a clock reading of its own; two requests whose clock readings
    differ never carry the same image reference. *)
Theorem requests_are_stamped c s w :
  valid c = true -> image_url c = Some s ->
  let evs := since w (world_of (loop_body P E c w)) in
  (forall e, In e evs -> is_send e || is_edit e = true ->
     exists n, (n_clock w <= n)%nat
               /\ caption_of e = caption_sent P E c n
               /\ photo_of e = photo_sent P E s n)
  /\ (forall n,
        caption_sent P E c n
        = (if truthy_str (caption c)
           then match caption c with Some x => x | None => "" end ++ nl
           else "")
          ++ updated_label ++ format_timestamp P (clock E n))
  /\ (forall t,
        format_timestamp P t
        = let parts := Intl_formatToParts P "Europe/Kyiv" t in
          part parts "year" ++ "-" ++ part parts "month" ++ "-"
          ++ part parts "day" ++ " " ++ part parts "hour" ++ ":"
          ++ part parts "minute")
  /\ (forall n,
        (forall u, URL_parse P s = Some u ->
           let u' := URL_set u "cb" (string_of_Z (clock E (S n))) in
           photo_sent P E s n = URL_toString u'
           /\ In ("cb", string_of_Z (clock E (S n))) (url_query u'))
        /\ (URL_parse P s = None ->
            photo_sent P E s n
            = s ++ (if includes s "?" then "&" else "?") ++ "cb="
              ++ string_of_Z (clock E (S (S n)))))
  /\ (forall n n',
        clock E (S n) <> clock E (S n') ->
        clock E (S (S n)) <> clock E (S (S n')) ->
        photo_sent P E s n <> photo_sent P E s n').
Proof.
  intros Hv Hurl evs. split; [| split; [| split; [| split]]].
  - assert (Hshape : exists body tail,
               evs = (body ++ tail)%list
               /\ (tail = [Delay 600] \/ tail = [])
               /\ forall e, In e body -> is_send e || is_edit e = true ->
                    exists n, (n_clock w <= n)%nat
                              /\ caption_of e = caption_sent P E c n
                              /\ photo_of e = photo_sent P E s n).
    { unfold evs. destruct (truthy (known_id (messageMap w) c)) eqn:Hk.
      - destruct (loop_body_edit P E c s w Hv Hurl Hk)
          as (r & w1 & Heq & _ & _ & _ & _ & Hcase).
        rewrite Heq.
        destruct (finish_calls (key_of (chat_id c))
                    (r_ok r && r_replaced r && truthy (r_message_id r)) r w1)
          as (tail & Hcalls & Htail).
        unfold edited_as in Hcase.
        destruct (reply_ok (net E (n_fetch w))) as [[json [|]]|];
          try destruct (not_modified json);
          try destruct (strict_eq _ _);
          try destruct (reply_ok (net E (S (n_fetch w)))) as [[j [|]]|];
          repeat match type of Hcase with
                 | _ /\ _ => let H := fresh "H" in destruct Hcase as [H Hcase]
                 end;
          rewrite Hcase, <- app_assoc in Hcalls;
          rewrite (since_app _ _ _ Hcalls);
          (eexists; exists tail; split; [reflexivity | split; [exact Htail |]]);
          intros e Hin Hreq; cbn in Hin;
          repeat (destruct Hin as [<-|Hin]; [| try contradiction]);
          try discriminate;
          first [ exists (n_clock w); repeat split; lia
                | exists (n_clock w + ticks P s)%nat; repeat split; lia ].
      - destruct (loop_body_send P E c s w Hv Hurl Hk)
          as (r & w1 & Heq & _ & _ & _ & _ & _ & _ & Hcase).
        rewrite Heq.
        destruct (finish_calls (key_of (chat_id c))
                    (r_ok r && truthy (r_message_id r)) r w1)
          as (tail & Hcalls & Htail).
        unfold sent_as in Hcase.
        destruct (reply_ok (net E (n_fetch w))) as [[json [|]]|];
          repeat match type of Hcase with
                 | _ /\ _ => let H := fresh "H" in destruct Hcase as [H Hcase]
                 end;
          rewrite Hcase, <- app_assoc in Hcalls;
          rewrite (since_app _ _ _ Hcalls);
          (eexists; exists tail; split; [reflexivity | split; [exact Htail |]]);
          intros e Hin Hreq; cbn in Hin;
          repeat (destruct Hin as [<-|Hin]; [| try contradiction]);
          try discriminate;
          exists (n_clock w); repeat split; lia. }
    destruct Hshape as (body & tail & -> & Htail & Hbody).
    intros e Hin Hreq. apply in_app_or in Hin as [Hin|Hin]; [now apply Hbody |].
    destruct Htail as [->| ->]; [| contradiction].
    destruct Hin as [<-|[]]. discriminate.
  - apply caption_sent_shape.
  - reflexivity.
  - intros n. split.
    + intros u Hu. unfold photo_sent, busted. rewrite Hu. split; [reflexivity |].
      apply searchParams_set_In.
    + intros Hu. unfold photo_sent, busted. now rewrite Hu.
  - intros n n' H1 H2. unfold photo_sent. now apply busted_inj.
Qed.

End Stamps.

Lemma requests_are_stamped_witness :
  let c := Sample.chat (-1001) in
  let w := Sample.world (Sample.remembered (-1001) 55) in
  let evs := since w (world_of (loop_body Sample.platform Sample.gone c w)) in
  evs = [EditMessageMedia (Some (ChatNum (-1001))) (JNum 55)
           "https://example.org/a.png?cb=1700000001000"
           (String.append "Schedule"
              (String.append nl (String.append updated_label "2025-01-31 09:05")));
         SendPhoto (Some (ChatNum (-1001)))
           "https://example.org/a.png?cb=1700000003000"
           (String.append "Schedule"
              (String.append nl (String.append updated_label "2025-01-31 09:05")));
         PinChatMessage (Some (ChatNum (-1001))) (JNum 101);
         Delay 600]
  /\ photo_sent Sample.platform Sample.gone "https://example.org/a.png" 0
     <> photo_sent Sample.platform Sample.gone "https://example.org/a.png" 2.
Proof.
  intros c w evs. split; [reflexivity |].
  apply (requests_are_stamped Sample.platform Sample.gone c
           "https://example.org/a.png" w eq_refl eq_refl);
    vm_compute; discriminate.
Defined.

(** * A whole run *)

Section Run.

Context (P : Platform) (E : Env).

Lemma valid_url c : valid c = true -> exists s, image_url c = Some s.
Proof.
  unfold valid, truthy_str. intros H. apply andb_true_iff in H as [_ H].
  destruct (image_url c); [eauto | discriminate].
Qed.

Lemma reply_ok_Some n json b :
  reply_ok (net E n) = Some (json, b) -> net E n = Body json.
Proof.
  unfold reply_ok. destruct (net E n) as [|j]; [discriminate |].
  destruct (get_member j "ok"); [| discriminate]. now intros [= -> _].
Qed.

(** What one target does to the world when every record is an object. *)
Lemma loop_body_step c w :
  records_are_objects (messageMap w) ->
  exists r w',
    loop_body P E c w = Ok r w'
    /\ records_are_objects (messageMap w')
    /\ r_chat r = c
    /\ (valid c = false -> r = invalid_config c)
    /\ (valid c = true -> r_reason r = None)
    /\ (exists evs, calls w' = (calls w ++ evs)%list
                    /\ count is_write evs = 0%nat)
    /\ ((messageMap w' = messageMap w /\ mapDirty w' = mapDirty w)
        \/ (mapDirty w' = true
            /\ exists k n json,
                 reply_ok (net E n) = Some (json, true)
                 /\ strict_eq (message_id_of (messageMap w) k)
                      (result_message_id json) = false
                 /\ message_id_of (messageMap w') k = result_message_id json)).
Proof.
  intros Hrec. destruct (valid c) eqn:Hv.
  2:{ exists (invalid_config c), w. rewrite loop_body_invalid by exact Hv.
      repeat split; auto; try discriminate.
      exists []. now rewrite app_nil_r. }
  destruct (valid_url c Hv) as [s Hurl].
  destruct (truthy (known_id (messageMap w) c)) eqn:Hk.
  - destruct (loop_body_edit P E c s w Hv Hurl Hk)
      as (r & w1 & Heq & Hm & Hd & Hch & Hre & Hcase).
    destruct (finish_safe (key_of (chat_id c))
                (r_ok r && r_replaced r && truthy (r_message_id r)) r w1)
      as (w' & Hfin & Hcalls & Hrec' & Heff); [now rewrite Hm |].
    exists r, w'. rewrite Heq. rewrite Hm, Hd in Heff.
    repeat split; try assumption; try discriminate; [auto | |].
    + unfold edited_as in Hcase.
      destruct (reply_ok (net E (n_fetch w))) as [[json [|]]|];
        try destruct (not_modified json);
        try destruct (strict_eq _ _);
        try destruct (reply_ok (net E (S (n_fetch w)))) as [[j [|]]|];
        repeat match type of Hcase with
               | _ /\ _ => let H := fresh "H" in destruct Hcase as [H Hcase]
               end;
        rewrite Hcase, <- app_assoc in Hcalls;
        (eexists; split; [exact Hcalls | reflexivity]).
    + destruct Heff as [(Hsame & Hdirty & _)
                       |(Hg & Hmid & Hneq & Hdirty & Hid & _)]; [now left |].
      right. split; [exact Hdirty |].
      apply andb_true_iff in Hg as [Hg _].
      apply andb_true_iff in Hg as [Hok Hrep].
      clear Hch Hre. unfold edited_as in Hcase.
      destruct (reply_ok (net E (n_fetch w))) as [[json [|]]|];
        try destruct (not_modified json);
        try destruct (strict_eq (get_member_opt json "error_code") _);
        repeat match type of Hcase with
               | _ /\ _ => let H := fresh "H" in destruct Hcase as [H Hcase]
               end;
        subst; try congruence; try discriminate.
      destruct (reply_ok (net E (S (n_fetch w)))) as [[j [|]]|] eqn:Hj;
        destruct Hcase as [H1 Hcase]; try congruence.
      destruct Hcase as [Hid' _].
      exists (key_of (chat_id c)), (S (n_fetch w)), j.
      rewrite <- Hid'. auto.
  - destruct (loop_body_send P E c s w Hv Hurl Hk)
      as (r & w1 & Heq & Hm & Hd & Hch & Hre & Hrep & _ & Hcase).
    destruct (finish_safe (key_of (chat_id c))
                (r_ok r && truthy (r_message_id r)) r w1)
      as (w' & Hfin & Hcalls & Hrec' & Heff); [now rewrite Hm |].
    exists r, w'. rewrite Heq. rewrite Hm, Hd in Heff.
    repeat split; try assumption; try discriminate; [auto | |].
    + unfold sent_as in Hcase.
      destruct (reply_ok (net E (n_fetch w))) as [[json [|]]|];
        repeat match type of Hcase with
               | _ /\ _ => let H := fresh "H" in destruct Hcase as [H Hcase]
               end;
        rewrite Hcase, <- app_assoc in Hcalls;
        (eexists; split; [exact Hcalls | reflexivity]).
    + destruct Heff as [(Hsame & Hdirty & _)
                       |(Hg & Hmid & Hneq & Hdirty & Hid & _)]; [now left |].
      right. split; [exact Hdirty |].
      apply andb_true_iff in Hg as [Hok _].
      clear Hch Hre. unfold sent_as in Hcase.
      destruct (reply_ok (net E (n_fetch w))) as [[json [|]]|] eqn:Hj;
        repeat match type of Hcase with
               | _ /\ _ => let H := fresh "H" in destruct Hcase as [H Hcase]
               end;
        subst; try discriminate.
      exists (key_of (chat_id c)), (n_fetch w), json.
      rewrite <- H0. auto.
Qed.

(** The results of a loop, one per target and in their order. *)
Lemma loop_results chats w :
  records_are_objects (messageMap w) ->
  exists results w',
    loop P E chats w = Ok results w'
    /\ records_are_objects (messageMap w')
    /\ map r_chat results = chats
    /\ (forall r, In r results ->
          (valid (r_chat r) = false -> r = invalid_config (r_chat r))
          /\ (valid (r_chat r) = true -> r_reason r = None))
    /\ (exists evs, calls w' = (calls w ++ evs)%list
                    /\ count is_write evs = 0%nat).
Proof.
  revert w. induction chats as [|c cs IH]; intros w Hrec; simpl.
  - exists [], w. repeat split; auto; try contradiction.
    exists []. now rewrite app_nil_r.
  - destruct (loop_body_step c w Hrec)
      as (r & w1 & Heq & Hrec1 & Hch & Hinv & Hval & (e1 & Hc1 & Hw1) & _).
    destruct (IH w1 Hrec1)
      as (rs & w' & Hloop & Hrec' & Hmap & Hall & (e2 & Hc2 & Hw2)).
    exists (r :: rs), w'. unfold bind. rewrite Heq, Hloop.
    repeat split; auto.
    + simpl. now rewrite Hch, Hmap.
    + destruct H as [<-|Hin]; [rewrite Hch; auto | now apply Hall].
    + destruct H as [<-|Hin]; [rewrite Hch; auto | now apply Hall].
    + exists (e1 ++ e2)%list. rewrite Hc2, Hc1, <- app_assoc. split; auto.
      unfold count in *. rewrite filter_app, length_app. lia.
Qed.

Lemma genuine_failure_iff r :
  ((valid (r_chat r) = false -> r = invalid_config (r_chat r))
   /\ (valid (r_chat r) = true -> r_reason r = None)) ->
  (genuine_failure r = true <-> valid (r_chat r) = true /\ r_ok r = false).
Proof.
  intros [Hinv Hval]. unfold genuine_failure.
  destruct (valid (r_chat r)) eqn:Hv.
  - rewrite Hval by reflexivity. destruct (r_ok r); cbn; intuition congruence.
  - rewrite Hinv by reflexivity. cbn. intuition congruence.
Qed.

Lemma filter_nonempty {A} (f : A -> bool) (l : list A) :
  (0 <? List.length (filter f l))%nat = true <-> exists x, In x l /\ f x = true.
Proof.
  rewrite Nat.ltb_lt. split.
  - intros H. destruct (filter f l) as [|x rest] eqn:Hf; [simpl in H; lia |].
    exists x. apply filter_In. rewrite Hf. now left.
  - intros (x & Hin & Hx).
    assert (Hi : In x (filter f l)) by (apply filter_In; auto).
    destruct (filter f l); [contradiction | simpl; lia].
Qed.

(** C8: when the loop is over the process exits with code 10 exactly when
    some valid target ended without success, and ends normally exactly
    when every target that ended without success was skipped for its
    configuration; the targets without [chat_id] or [image_url] are the
    skipped ones and never count. *)
Theorem exit_status f chats :
  records_are_objects (loadMessageMap P f) ->
  exists results w1 code w',
    loop P E chats (initial_world P f) = Ok results w1
    /\ map r_chat results = chats
    /\ main P E f chats = Ok code w'
    /\ (code = ExitCode 10 <->
        exists r, In r results /\ valid (r_chat r) = true /\ r_ok r = false)
    /\ (code = Completed <->
        forall r, In r results -> r_ok r = false -> valid (r_chat r) = false)
    /\ (forall r, In r results -> valid (r_chat r) = false ->
          r_ok r = false /\ r_reason r = Some "invalid-config").
Proof.
  intros Hrec.
  destruct (loop_results chats (initial_world P f) Hrec)
    as (results & w1 & Hloop & _ & Hmap & Hall & _).
  assert (Hfail : (0 <? List.length (filter genuine_failure results))%nat = true
                  <-> exists r, In r results /\ valid (r_chat r) = true
                                /\ r_ok r = false).
  { rewrite filter_nonempty. split; intros (r & Hin & H); exists r;
      (split; [exact Hin |]); now apply (genuine_failure_iff r (Hall r Hin)). }
  assert (Hrun : exists w',
             main P E f chats
             = Ok (if (0 <? List.length (filter genuine_failure results))%nat
                   then ExitCode 10 else Completed) w').
  { unfold main, run, bind. rewrite Hloop.
    generalize (0 <? List.length (filter genuine_failure results))%nat.
    intros b. cbn. destruct (mapDirty w1); cbn.
    - unfold saveMessageMap.
      destruct (save_array P (messageMap w1)); unfold bind, emit, ret; cbn;
        destruct b; eauto.
    - destruct b; eauto. }
  destruct Hrun as (w' & Hrun).
  exists results, w1,
    (if (0 <? List.length (filter genuine_failure results))%nat
     then ExitCode 10 else Completed), w'.
  split; [exact Hloop |]. split; [exact Hmap |]. split; [exact Hrun |].
  split; [| split].
  - split.
    + intros Hc. apply Hfail.
      destruct (0 <? _)%nat; [reflexivity | discriminate].
    + intros H. apply Hfail in H. now rewrite H.
  - split.
    + intros Hc r Hin Hok. destruct (valid (r_chat r)) eqn:Hv; [| reflexivity].
      assert (H : (0 <? List.length (filter genuine_failure results))%nat
                  = true) by (apply Hfail; eauto).
      rewrite H in Hc. discriminate.
    + intros H. destruct (0 <? _)%nat eqn:Hlt; [| reflexivity].
      destruct (proj1 Hfail eq_refl) as (r & Hin & Hv & Hok).
      rewrite (H r Hin Hok) in Hv. discriminate.
  - intros r Hin Hv. destruct (Hall r Hin) as [Hinv _].
    rewrite (Hinv Hv). split; reflexivity.
Qed.

(** ** The dirty flag and the map file *)

Lemma any_change_cons m rest :
  any_change (m :: rest)
  <-> match rest with
      | [] => False
      | m' :: _ => changed_between m m' \/ any_change rest
      end.
Proof. destruct rest; reflexivity. Qed.

Lemma unchanged_between m : ~ changed_between m m.
Proof. intros [k H]. now apply H. Qed.

Lemma loop_dirty chats w :
  records_are_objects (messageMap w) -> plain_ids E ->
  exists results w',
    loop P E chats w = Ok results w'
    /\ (mapDirty w' = true <->
        mapDirty w = true \/ any_change (trajectory P E chats w)).
Proof.
  intros Hrec Hplain. revert w Hrec.
  induction chats as [|c cs IH]; intros w Hrec.
  - exists [], w. split; [reflexivity |]. simpl. tauto.
  - destruct (loop_body_step c w Hrec)
      as (r & w1 & Heq & Hrec1 & _ & _ & _ & _ & Heff).
    destruct (IH w1 Hrec1) as (rs & w' & Hloop & Hiff).
    exists (r :: rs), w'. split.
    { simpl. unfold bind. now rewrite Heq, Hloop. }
    rewrite Hiff. cbn [trajectory]. rewrite Heq.
    rewrite any_change_cons.
    destruct cs as [|c' cs']; cbn [trajectory] in *.
    + destruct Heff as [(Hm & Hd)|(Hd & k & n & json & Hr & Hneq & Hid)].
      * rewrite Hm, Hd. pose proof (unchanged_between (messageMap w)).
        simpl. tauto.
      * assert (changed_between (messageMap w) (messageMap w1)).
        { exists k. rewrite Hid.
          apply strict_eq_primitive; [| exact Hneq].
          eapply Hplain, reply_ok_Some, Hr. }
        tauto.
    + destruct Heff as [(Hm & Hd)|(Hd & k & n & json & Hr & Hneq & Hid)].
      * rewrite Hm, Hd. pose proof (unchanged_between (messageMap w)).
        tauto.
      * assert (changed_between (messageMap w) (messageMap w1)).
        { exists k. rewrite Hid.
          apply strict_eq_primitive; [| exact Hneq].
          eapply Hplain, reply_ok_Some, Hr. }
        tauto.
Qed.

Lemma save_records_total m keys :
  records_are_objects m -> incl keys (map fst m) ->
  save_records m keys
  = Some (map (fun k => entry (k, message_id_of m k)) keys).
Proof.
  intros Hrec. induction keys as [|k ks IH]; intros Hin; [reflexivity |].
  simpl. rewrite IH by (intros x Hx; apply Hin; now right).
  assert (Hk : In k (map fst m)) by (apply Hin; now left).
  unfold save_record, message_id_of, get_member_opt, get_member.
  destruct (records_map_get m k Hrec) as [Hu|Hp].
  - exfalso. unfold map_get in Hu.
    destruct (lookup k m) as [v|] eqn:Hl.
    + apply lookup_In in Hl.
      apply (proj1 (Forall_forall _ _) Hrec) in Hl. simpl in Hl.
      subst v. discriminate.
    + now apply lookup_None_iff in Hl.
  - destruct (map_get m k); try discriminate; reflexivity.
Qed.

Lemma save_array_total m :
  records_are_objects m ->
  save_array P m
  = Some (map (fun k => entry (k, message_id_of m k))
            (js_sort (localeCompare P) (map fst m))).
Proof.
  intros Hrec. unfold save_array. apply save_records_total; [exact Hrec |].
  intros k Hk. eapply Permutation_in; [apply js_sort_perm | exact Hk].
Qed.

(** C5: the map file is written, once, exactly when the stored message
    identifier of some chat changed between two consecutive targets of the
    run; what is written is the array of the single-key records of the
    whole final map, its keys in ascending collation order. *)
Theorem map_file_written_iff_changed f chats :
  records_are_objects (loadMessageMap P f) -> plain_ids E ->
  consistent (localeCompare P) ->
  exists code w',
    main P E f chats = Ok code w'
    /\ (count is_write (calls w') <= 1)%nat
    /\ ((exists text, In (WriteMapFile text) (calls w')) <->
        any_change (trajectory P E chats (initial_world P f)))
    /\ (forall text, In (WriteMapFile text) (calls w') ->
          exists keys,
            Permutation keys (map fst (messageMap w'))
            /\ StronglySorted (key_le (localeCompare P)) keys
            /\ text
               = JSON_stringify P
                   (JArr (map (fun k =>
                                 entry (k, message_id_of (messageMap w') k))
                            keys)) ++ nl).
Proof.
  intros Hrec Hplain Hcmp.
  destruct (loop_dirty chats (initial_world P f) Hrec Hplain)
    as (results & w1 & Hloop & Hdirty).
  destruct (loop_results chats (initial_world P f) Hrec)
    as (results' & w1' & Hloop' & Hrec1 & _ & _ & (evs & Hcalls & Hnw)).
  rewrite Hloop in Hloop'. injection Hloop' as <- <-.
  cbn in Hcalls. cbn [initial_world mapDirty] in Hdirty.
  assert (Hnone : forall text, ~ In (WriteMapFile text) evs).
  { intros text Hin. unfold count in Hnw.
    assert (Hf : In (WriteMapFile text) (filter is_write evs))
      by (apply filter_In; auto).
    destruct (filter is_write evs); [contradiction | discriminate]. }
  unfold main, run, bind. rewrite Hloop.
  generalize (0 <? List.length (filter genuine_failure results))%nat.
  intros b. cbn.
  destruct (mapDirty w1) eqn:Hd; cbn.
  - unfold saveMessageMap. rewrite (save_array_total _ Hrec1).
    unfold bind, emit, ret. cbn.
    set (text := JSON_stringify P _ ++ nl).
    exists (if b then ExitCode 10 else Completed), (logged (WriteMapFile text) w1).
    split; [now destruct b |]. cbn. rewrite Hcalls.
    split; [| split].
    + unfold count in *. rewrite filter_app, length_app, Hnw. simpl. lia.
    + split; [intros _; destruct (proj1 Hdirty eq_refl) as [Hx|Hx];
                        [discriminate | exact Hx] |].
      intros _. exists text. apply in_or_app. right. now left.
    + intros t Hin. apply in_app_or in Hin as [Hin|[Hin|[]]];
        [now apply Hnone in Hin |].
      injection Hin as <-.
      exists (js_sort (localeCompare P) (map fst (messageMap w1))).
      split; [apply js_sort_perm | split; [now apply js_sort_sorted |]].
      reflexivity.
  - exists (if b then ExitCode 10 else Completed), w1.
    split; [now destruct b |]. rewrite Hcalls.
    split; [unfold count in *; rewrite Hnw; lia | split].
    + split; [intros [text Hin]; now apply Hnone in Hin |].
      intros Hch. pose proof (proj2 Hdirty (or_intror Hch)). discriminate.
    + intros t Hin. now apply Hnone in Hin.
Qed.

End Run.

(** ** A run on sample worlds *)

Lemma sample_compare_consistent : consistent (localeCompare Sample.platform).
Proof.
  pose proof String_as_OT.lt_strorder as [Hirr Htr].
  assert (Hcyc : forall x y, String_as_OT.lt x y -> String_as_OT.lt y x -> False)
    by (intros x y H1 H2; exact (Hirr x (Htr x y x H1 H2))).
  split.
  - intros a b. simpl. unfold Sample.compare.
    destruct (String_as_OT.compare_spec a b) as [Hab|Hab|Hab];
      destruct (String_as_OT.compare_spec b a) as [Hba|Hba|Hba];
      simpl; try reflexivity; unfold String_as_OT.eq in *; subst; exfalso;
      match goal with
      | H : String_as_OT.lt ?x ?x |- _ => exact (Hirr x H)
      | H1 : String_as_OT.lt ?x ?y, H2 : String_as_OT.lt ?y ?x |- _ =>
          exact (Hcyc x y H1 H2)
      end.
  - intros a b c. simpl. unfold Sample.compare.
    destruct (String_as_OT.compare_spec a b) as [Hab|Hab|Hab];
      destruct (String_as_OT.compare_spec b c) as [Hbc|Hbc|Hbc];
      destruct (String_as_OT.compare_spec a c) as [Hac|Hac|Hac];
      intros H1 H2; try congruence; try discriminate;
      unfold String_as_OT.eq in *; subst; exfalso;
      match goal with
      | H : String_as_OT.lt ?x ?x |- _ => exact (Hirr x H)
      | H1 : String_as_OT.lt ?x ?y, H2 : String_as_OT.lt ?y ?x |- _ =>
          exact (Hcyc x y H1 H2)
      | H1 : String_as_OT.lt ?x ?y, H2 : String_as_OT.lt ?y ?z,
        H3 : String_as_OT.lt ?z ?x |- _ =>
          exact (Hcyc x z (Htr x y z H1 H2) H3)
      end.
Qed.

Lemma sample_accepting_plain : plain_ids Sample.accepting.
Proof. intros n json H. cbn in H. injection H as <-. reflexivity. Qed.

Lemma map_file_written_iff_changed_witness :
  exists text,
    In (WriteMapFile text)
      (calls (world_of (main Sample.platform Sample.accepting FileMissing
                          [Sample.chat (-1002); Sample.chat (-1001)]))).
Proof.
  destruct (map_file_written_iff_changed Sample.platform Sample.accepting
              FileMissing [Sample.chat (-1002); Sample.chat (-1001)])
    as (code & w' & Hmain & _ & Hiff & _).
  - constructor.
  - exact sample_accepting_plain.
  - exact sample_compare_consistent.
  - rewrite Hmain. apply Hiff. left. exists "-1002". vm_compute. discriminate.
Defined.

Lemma exit_status_witness :
  exists w',
    main Sample.platform Sample.refusing FileMissing
      [Sample.chat (-1001);
       {| chat_id := None; image_url := None; caption := None; title := None |}]
    = Ok (ExitCode 10) w'.
Proof.
  destruct (exit_status Sample.platform Sample.refusing FileMissing
              [Sample.chat (-1001);
               {| chat_id := None; image_url := None; caption := None;
                  title := None |}])
    as (results & w1 & code & w' & Hloop & _ & Hmain & Hten & _).
  - constructor.
  - exists w'. rewrite Hmain. f_equal. apply Hten.
    vm_compute in Hloop. injection Hloop as <- _.
    eexists. split; [left; reflexivity | split; reflexivity].
Defined.

(** * The region fetcher *)

Section Fetching.

Context (cfg : FetchConfig) (W : FetchEnv).

Lemma pages_app a b : pages (a ++ b) = (pages a + pages b)%nat.
Proof. unfold pages. now rewrite filter_app, length_app. Qed.

Lemma sleeps_app a b : sleeps (a ++ b) = (sleeps a ++ sleeps b)%list.
Proof. unfold sleeps. now rewrite flat_map_app. Qed.

Lemma writes_app a b : writes (a ++ b) = (writes a ++ writes b)%list.
Proof. unfold writes. now rewrite flat_map_app. Qed.

(** One iteration that does not return: its events and what it leaves. *)
Lemma backoff_view attempt s :
  exists evs,
    events (backoff cfg W attempt s) = (events s ++ evs)%list
    /\ opened (backoff cfg W attempt s) = opened s
    /\ pages evs = 0%nat /\ writes evs = []
    /\ (attempt < MAX_RETRY cfg ->
        sleeps evs = backoffs cfg W 1 attempt (drawn s)
        /\ drawn (backoff cfg W attempt s) = S (drawn s))
    /\ (MAX_RETRY cfg <= attempt ->
        sleeps evs = [] /\ drawn (backoff cfg W attempt s) = drawn s).
Proof.
  unfold backoff. destruct (Z.ltb_spec attempt (MAX_RETRY cfg)); cbn.
  - eexists. split; [reflexivity |]. repeat split; auto; lia.
  - exists []. rewrite app_nil_r. repeat split; auto; lia.
Qed.

Lemma moved_on_view url attempt settled s :
  exists evs,
    events (moved_on cfg W url attempt settled s) = (events s ++ evs)%list
    /\ opened (moved_on cfg W url attempt settled s) = S (opened s)
    /\ pages evs = 1%nat /\ writes evs = []
    /\ (attempt < MAX_RETRY cfg ->
        sleeps evs = backoffs cfg W 1 attempt (drawn s)
        /\ drawn (moved_on cfg W url attempt settled s) = S (drawn s))
    /\ (MAX_RETRY cfg <= attempt ->
        sleeps evs = []
        /\ drawn (moved_on cfg W url attempt settled s) = drawn s).
Proof.
  unfold moved_on.
  set (s0 := if settled then _ else _).
  assert (H0 : exists e0, events s0 = (events s ++ e0)%list
                          /\ opened s0 = S (opened s) /\ drawn s0 = drawn s
                          /\ pages e0 = 1%nat /\ writes e0 = []
                          /\ sleeps e0 = []).
  { unfold s0. destruct settled; cbn.
    - exists [NewPage; Goto url; WaitForTimeout 500].
      rewrite <- app_assoc. repeat split.
    - exists [NewPage; Goto url]. repeat split. }
  destruct H0 as (e0 & He0 & Ho0 & Hd0 & Hp0 & Hw0 & Hs0).
  destruct (backoff_view attempt s0) as (e1 & He1 & Ho1 & Hp1 & Hw1 & Hlt & Hge).
  exists (e0 ++ e1 ++ [ClosePage])%list. cbn.
  rewrite He1, He0, Ho1, Ho0, <- !app_assoc.
  rewrite !pages_app, !writes_app, !sleeps_app, Hp0, Hp1, Hw0, Hw1, Hs0.
  rewrite Hd0 in Hlt, Hge. cbn.
  repeat split; auto;
    match goal with
    | Hx : attempt < MAX_RETRY cfg |- _ => destruct (Hlt Hx) as [Hs Hd']
    | Hx : MAX_RETRY cfg <= attempt |- _ => destruct (Hge Hx) as [Hs Hd']
    end; rewrite ?Hs, ?app_nil_r; auto.
Qed.

Lemma attempts_view url k :
  forall a last s,
    (k = 0%nat \/ a + Z.of_nat k = MAX_RETRY cfg + 1) ->
    let res := fst (attempts cfg W k a url last s) in
    let s' := snd (attempts cfg W k a url last s) in
    exists evs i,
      events s' = (events s ++ evs)%list
      /\ (i <= k)%nat /\ pages evs = i /\ writes evs = []
      /\ opened s' = (opened s + i)%nat
      /\ f_bytes res = Z.of_nat (js_length (f_html res))
      /\ if f_ok res then
           exists i', i = S i'
             /\ (forall j, (j < i')%nat ->
                   rejected cfg (page_load W (opened s + j)))
             /\ page_load W (opened s + i') = Rendered (f_html res)
             /\ isSuspectHtml cfg (f_html res) = false
             /\ f_attempt res = a + Z.of_nat i'
             /\ sleeps evs = backoffs cfg W i' a (drawn s)
         else
           i = k
           /\ (forall j, (j < k)%nat ->
                 rejected cfg (page_load W (opened s + j)))
           /\ f_html res = last_obtained W k (opened s) last
           /\ f_attempt res = MAX_RETRY cfg
           /\ sleeps evs = backoffs cfg W (k - 1) a (drawn s).
Proof.
  induction k as [|k IH]; intros a last s Hinv.
  - cbn. exists [], 0%nat. rewrite app_nil_r.
    repeat split; auto. intros j Hj. lia.
  - assert (Ha : a + Z.of_nat (S k) = MAX_RETRY cfg + 1)
      by (destruct Hinv; [discriminate | assumption]).
    assert (Hnext : k = 0%nat \/ a + 1 + Z.of_nat k = MAX_RETRY cfg + 1)
      by (right; lia).
    assert (Hgo : forall settled last',
               last' = match page_load W (opened s) with
                       | Rendered html => html
                       | _ => last
                       end ->
               rejected cfg (page_load W (opened s)) ->
               let res := fst (attempts cfg W k (a + 1) url last'
                                 (moved_on cfg W url a settled s)) in
               let s' := snd (attempts cfg W k (a + 1) url last'
                                (moved_on cfg W url a settled s)) in
               exists evs i,
                 events s' = (events s ++ evs)%list
                 /\ (i <= S k)%nat /\ pages evs = i /\ writes evs = []
                 /\ opened s' = (opened s + i)%nat
                 /\ f_bytes res = Z.of_nat (js_length (f_html res))
                 /\ if f_ok res then
                      exists i', i = S i'
                        /\ (forall j, (j < i')%nat ->
                              rejected cfg (page_load W (opened s + j)))
                        /\ page_load W (opened s + i') = Rendered (f_html res)
                        /\ isSuspectHtml cfg (f_html res) = false
                        /\ f_attempt res = a + Z.of_nat i'
                        /\ sleeps evs = backoffs cfg W i' a (drawn s)
                    else
                      i = S k
                      /\ (forall j, (j < S k)%nat ->
                            rejected cfg (page_load W (opened s + j)))
                      /\ f_html res = last_obtained W (S k) (opened s) last
                      /\ f_attempt res = MAX_RETRY cfg
                      /\ sleeps evs = backoffs cfg W (S k - 1) a (drawn s)).
    { intros settled last' Hlast Hrej.
      destruct (moved_on_view url a settled s)
        as (e0 & He0 & Ho0 & Hp0 & Hw0 & Hlt & Hge).
      destruct (IH (a + 1) last' (moved_on cfg W url a settled s) Hnext)
        as (e1 & i & He1 & Hi & Hp1 & Hw1 & Ho1 & Hb & Hcase).
      cbn zeta. exists (e0 ++ e1)%list, (S i).
      rewrite He1, He0, Ho1, Ho0, <- app_assoc.
      rewrite pages_app, writes_app, sleeps_app, Hp0, Hp1, Hw0, Hw1.
      repeat split; auto; try lia.
      assert (Hshift : forall n j, (j < S n)%nat ->
                 (forall j', (j' < n)%nat ->
                    rejected cfg
                      (page_load W (opened (moved_on cfg W url a settled s) + j'))) ->
                 rejected cfg (page_load W (opened s + j))).
      { intros n [|j] Hj Hall; [now rewrite Nat.add_0_r |].
        replace (opened s + S j)%nat with (S (opened s) + j)%nat by lia.
        rewrite <- Ho0. apply Hall. lia. }
      destruct (f_ok _).
      - destruct Hcase as (i' & -> & Hall & Hpg & Hsus & Hat & Hsl).
        exists (S i'). rewrite Ho0 in Hpg.
        destruct (Hlt ltac:(lia)) as [Hs0 Hd0].
        repeat split; auto.
        + intros j Hj. apply (Hshift i'); [lia | exact Hall].
        + now replace (opened s + S i')%nat with (S (opened s) + i')%nat by lia.
        + rewrite Hat. lia.
        + rewrite Hs0, Hsl, Hd0. reflexivity.
      - destruct Hcase as (-> & Hall & Hh & Hat & Hsl).
        repeat split; auto.
        + intros j Hj. apply (Hshift k); [lia | exact Hall].
        + rewrite Hh, Ho0, Hlast. reflexivity.
        + rewrite Hsl. destruct k as [|k'].
          * destruct (Hge ltac:(lia)) as [-> _]. reflexivity.
          * destruct (Hlt ltac:(lia)) as [-> ->]. cbn.
            now rewrite Nat.sub_0_r. }
    cbn [attempts].
    destruct (page_load W (opened s)) as [| |html] eqn:Hpage.
    + apply (Hgo false last); [reflexivity | exact I].
    + apply (Hgo true last); [reflexivity | exact I].
    + destruct (isSuspectHtml cfg html) eqn:Hsus; cbn [negb].
      * apply (Hgo true html); [reflexivity | exact Hsus].
      * cbn. exists [NewPage; Goto url; WaitForTimeout 500; ClosePage], 1%nat.
        rewrite <- !app_assoc. repeat split; auto; try lia.
        exists 0%nat. rewrite Nat.add_0_r, Z.add_0_r.
        repeat split; auto. intros j Hj. lia.
Qed.

(** C2, as amended: a fetch opens at most [MAX_RETRY] pages; markup that
    passes the heuristic is returned at once, with a delay behind each of
    the earlier attempts and none behind the accepted one; an attempt that
    is rejected or throws is followed, unless it was the last one allowed,
    by a delay of the base backoff times the attempt number plus the
    jitter; and after the last attempt the file of the source is still
    written, once, with the last markup obtained, or with the placeholder
    comment when that markup is empty, and reported by a warning. *)
Theorem fetch_with_retry sources s r url :
  source_url sources r = Some url -> url <> "" ->
  let n := Z.to_nat (MAX_RETRY cfg) in
  let res := fst (fetchWithRetry cfg W url s) in
  let s' := fetch_region cfg W sources s r in
  exists evs i,
    events s'
    = (events s ++ evs
       ++ [WriteFile (out_file r)
             (if f_ok res then f_html res
              else if (f_html res =? "")%string then empty_placeholder
                   else f_html res);
           if f_ok res then LogSaved (out_file r) (f_bytes res)
           else WarnSavedSuspect r (f_attempt res) (f_bytes res)])%list
    /\ writes evs = [] /\ pages evs = i /\ (i <= n)%nat
    /\ if f_ok res then
         exists i', i = S i'
           /\ (forall j, (j < i')%nat ->
                 rejected cfg (page_load W (opened s + j)))
           /\ page_load W (opened s + i') = Rendered (f_html res)
           /\ isSuspectHtml cfg (f_html res) = false
           /\ f_attempt res = 1 + Z.of_nat i'
           /\ sleeps evs = backoffs cfg W i' 1 (drawn s)
       else
         i = n
         /\ (forall j, (j < n)%nat ->
               rejected cfg (page_load W (opened s + j)))
         /\ f_html res = last_obtained W n (opened s) ""
         /\ f_attempt res = MAX_RETRY cfg
         /\ sleeps evs = backoffs cfg W (n - 1) 1 (drawn s).
Proof.
  intros Hsrc Hurl n res s'.
  assert (Hinv : n = 0%nat \/ 1 + Z.of_nat n = MAX_RETRY cfg + 1) by (unfold n; lia).
  destruct (attempts_view url n 1 "" s Hinv)
    as (evs & i & Hev & Hi & Hp & Hw & _ & _ & Hcase).
  exists evs, i.
  assert (Hs' : s' = let (res0, s1) := fetchWithRetry cfg W url s in
                     if f_ok res0 then
                       record (LogSaved (out_file r) (f_bytes res0))
                         (record (WriteFile (out_file r) (f_html res0)) s1)
                     else
                       record (WarnSavedSuspect r (f_attempt res0) (f_bytes res0))
                         (record (WriteFile (out_file r)
                                    (if (f_html res0 =? "")%string
                                     then empty_placeholder
                                     else f_html res0)) s1)).
  { unfold s', fetch_region. rewrite Hsrc.
    destruct (String.eqb_spec url ""); [contradiction | reflexivity]. }
  rewrite Hs'. unfold res, fetchWithRetry in *. fold n.
  destruct (attempts cfg W n 1 url "" s) as [res0 s1]. cbn [fst snd] in *.
  split; [| repeat split; assumption].
  destruct (f_ok res0); cbn; rewrite Hev, <- !app_assoc; reflexivity.
Qed.

End Fetching.

Lemma fetch_with_retry_witness :
  exists evs,
    events (fetch_region Sample.config Sample.second_time Sample.sources
              Sample.start "kyiv")
    = (evs ++ [WriteFile "outputs/kyiv.html" Sample.schedule_page;
               LogSaved "outputs/kyiv.html" 70])%list
    /\ writes evs = [] /\ pages evs = 2%nat /\ sleeps evs = [2137].
Proof.
  destruct (fetch_with_retry Sample.config Sample.second_time Sample.sources
              Sample.start "kyiv" "https://example.org/kyiv" eq_refl)
    as (evs & i & Hev & Hw & Hp & _ & Hcase).
  - discriminate.
  - change (fst (fetchWithRetry Sample.config Sample.second_time
                   "https://example.org/kyiv" Sample.start))
      with {| f_ok := true; f_html := Sample.schedule_page; f_bytes := 70;
              f_attempt := 2 |} in *.
    cbn [f_ok f_html f_bytes f_attempt] in *.
    destruct Hcase as (i' & -> & _ & _ & _ & Hat & Hsl).
    assert (i' = 1%nat) by lia. subst i'.
    exists evs. repeat split; assumption.
Defined.

(** C2, as stated, fails: when every attempt threw, what is written is
    not the empty last-obtained content but the placeholder comment. *)
Lemma empty_content_is_replaced :
  (forall j, page_load Sample.blocked j = GotoFailed)
  /\ last_obtained Sample.blocked 3 0 "" = ""
  /\ events (fetch_region Sample.config Sample.blocked Sample.sources
               Sample.start "kyiv")
     = [NewPage; Goto "https://example.org/kyiv"; Sleep 2137; ClosePage;
        NewPage; Goto "https://example.org/kyiv"; Sleep 4138; ClosePage;
        NewPage; Goto "https://example.org/kyiv"; ClosePage;
        WriteFile "outputs/kyiv.html" "<!-- empty -->";
        WarnSavedSuspect "kyiv" 3 0]
  /\ ~ In (WriteFile "outputs/kyiv.html" "")
         (events (fetch_region Sample.config Sample.blocked Sample.sources
                    Sample.start "kyiv")).
Proof.
  split; [reflexivity | split; [reflexivity | split; [reflexivity |]]].
  vm_compute. intuition discriminate.
Qed.

(** * The map file from one run to the next *)

(** ** Loading *)

Lemma load_item_first_key m item :
  load_item m item
  = match first_key item with
    | Some k => obj_set k (get_member_opt item k) m
    | None => m
    end.
Proof.
  unfold load_item, first_key.
  destruct (truthy item && typeof_object item); [| reflexivity].
  destruct (Object_keys item) as [|k rest]; [reflexivity |].
  now destruct (negb (k =? "")%string).
Qed.

Lemma fold_load_lookup_other arr m k :
  (forall x, In x arr -> first_key x <> Some k) ->
  lookup k (fold_left load_item arr m) = lookup k m.
Proof.
  revert m. induction arr as [|x arr IH]; intros m H; simpl; [reflexivity |].
  rewrite IH by (intros y Hy; apply H; now right).
  rewrite load_item_first_key.
  destruct (first_key x) as [k0|] eqn:Hx; [| reflexivity].
  apply lookup_obj_set_other. intros ->. apply (H x); [now left | exact Hx].
Qed.

Lemma fold_load_keys arr m k :
  In k (map fst (fold_left load_item arr m))
  <-> In k (map fst m) \/ exists x, In x arr /\ first_key x = Some k.
Proof.
  revert m. induction arr as [|x arr IH]; intros m; simpl.
  - split; [auto | intros [H|(x & [] & _)]; exact H].
  - rewrite IH, load_item_first_key. split.
    + intros [H|(y & Hy & Hk)]; [| right; exists y; auto].
      destruct (first_key x) as [k0|] eqn:Hx; [| now left].
      apply keys_obj_set in H as [->|H]; [right; exists x; auto | now left].
    + intros [H|(y & [<-|Hy] & Hk)].
      * left. destruct (first_key x); [| exact H].
        apply keys_obj_set. now right.
      * left. rewrite Hk. apply keys_obj_set. now left.
      * right. exists y. auto.
Qed.

(** X1: the record loaded for a chat id is the one of the last element of the
    array that is stored under that id, and a chat id has no record exactly
    when no element is stored under it. *)
Theorem load_array_last_wins (arr : list JVal) (k : string) :
  (lookup k (load_array arr) = None <->
   forall x, In x arr -> first_key x <> Some k)
  /\ (forall before item after,
        arr = (before ++ item :: after)%list ->
        first_key item = Some k ->
        (forall x, In x after -> first_key x <> Some k) ->
        lookup k (load_array arr) = Some (get_member_opt item k)).
Proof.
  split.
  - rewrite lookup_None_iff. unfold load_array. rewrite fold_load_keys. simpl.
    split.
    + intros H x Hx Hk. apply H. right. exists x. auto.
    + intros H [[]|(x & Hx & Hk)]. exact (H x Hx Hk).
  - intros before item after -> Hk Hafter. unfold load_array.
    rewrite fold_left_app. simpl.
    rewrite fold_load_lookup_other by exact Hafter.
    rewrite load_item_first_key, Hk. apply lookup_obj_set_same.
Qed.

(** ** Saving *)

Lemma save_records_spec m keys :
  (forall k, In k keys -> is_nullish (map_get m k) = false) ->
  save_records m keys = Some (map (fun k => entry (k, message_id_of m k)) keys).
Proof.
  induction keys as [|k ks IH]; intros H; [reflexivity |].
  simpl. rewrite IH by (intros x Hx; apply H; now right).
  unfold save_record, message_id_of, get_member_opt, get_member.
  now rewrite (H k (or_introl eq_refl)).
Qed.

Lemma save_records_null m keys k :
  In k keys -> is_nullish (map_get m k) = true -> save_records m keys = None.
Proof.
  induction keys as [|k0 ks IH]; intros Hin Hk; [contradiction |].
  simpl. destruct Hin as [->|Hin].
  - unfold save_record, get_member. now rewrite Hk.
  - rewrite (IH Hin Hk). now destruct (save_record m k0).
Qed.

(** X2: [saveMessageMap] writes the file, once, with the records of the whole
    map reduced to their message identifiers and in the order of the sorted
    keys, unless some record is [null] or [undefined]: then the exception is
    swallowed, nothing is written and [false] is returned. *)
Theorem save_writes_unless_null (P : Platform) (m : Props) (w : World) :
  (no_null_record m ->
   saveMessageMap P m w
   = Ok true
       (logged
          (WriteMapFile
             (JSON_stringify P
                (JArr (map (fun k => entry (k, message_id_of m k))
                         (js_sort (localeCompare P) (map fst m))))
              ++ nl)) w))
  /\ ((exists k, In k (map fst m) /\ is_nullish (map_get m k) = true) ->
      saveMessageMap P m w = Ok false w).
Proof.
  unfold saveMessageMap, save_array. split.
  - intros H. rewrite save_records_spec; [reflexivity |].
    intros k Hk. apply H.
    eapply Permutation_in; [apply js_sort_perm | exact Hk].
  - intros (k & Hk & Hnull).
    rewrite (save_records_null m _ k); [reflexivity | | exact Hnull].
    eapply Permutation_in; [symmetry; apply js_sort_perm | exact Hk].
Qed.

Lemma sorted_keys_NoDup (P : Platform) (m : Props) :
  unique_keys m -> NoDup (js_sort (localeCompare P) (map fst m)).
Proof.
  intros H. eapply Permutation_NoDup; [symmetry; apply js_sort_perm | exact H].
Qed.

Lemma save_then_load (P : Platform) (m : Props) :
  unique_keys m -> no_null_record m ->
  Forall (fun k => k <> "") (map fst m) ->
  exists arr,
    save_array P m = Some arr
    /\ (forall k, In k (map fst m) ->
          lookup k (load_array arr)
          = Some (JObj [("message_id", message_id_of m k)]))
    /\ (forall k, ~ In k (map fst m) -> lookup k (load_array arr) = None)
    /\ (forall k, message_id_of (load_array arr) k = message_id_of m k).
Proof.
  intros Hu Hnn Hne.
  set (keys := js_sort (localeCompare P) (map fst m)).
  set (kvs := map (fun k => (k, message_id_of m k)) keys).
  assert (Hperm : Permutation keys (map fst m)) by apply js_sort_perm.
  assert (Hkeys : map fst kvs = keys).
  { unfold kvs. rewrite map_map. simpl. apply map_id. }
  assert (Harr : save_array P m = Some (map entry kvs)).
  { unfold save_array. fold keys. rewrite save_records_spec.
    - unfold kvs. now rewrite map_map.
    - intros k Hk. apply Hnn. eapply Permutation_in; [exact Hperm | exact Hk]. }
  assert (Hload : Permutation (load_array (map entry kvs)) (map record_of kvs)).
  { apply load_array_entries; rewrite Hkeys.
    - eapply Permutation_Forall; [symmetry; exact Hperm | exact Hne].
    - now apply sorted_keys_NoDup. }
  assert (Hin : forall k, In k (map fst m) ->
            lookup k (load_array (map entry kvs))
            = Some (JObj [("message_id", message_id_of m k)])).
  { intros k Hk. apply In_lookup; [apply load_array_unique |].
    apply (Permutation_in _ (Permutation_sym Hload)).
    unfold kvs. rewrite map_map. apply in_map_iff. exists k.
    split; [reflexivity |].
    eapply Permutation_in; [symmetry; exact Hperm | exact Hk]. }
  assert (Hout : forall k, ~ In k (map fst m) ->
            lookup k (load_array (map entry kvs)) = None).
  { intros k Hk. apply lookup_None_iff. intros H. apply Hk.
    apply (Permutation_in _ (Permutation_map fst Hload)) in H.
    rewrite keys_record_of, Hkeys in H.
    eapply Permutation_in; [exact Hperm | exact H]. }
  exists (map entry kvs). repeat split; auto.
  intros k. unfold message_id_of at 1, map_get.
  destruct (in_dec string_dec k (map fst m)) as [Hk|Hk].
  - rewrite (Hin k Hk). reflexivity.
  - rewrite (Hout k Hk). apply lookup_None_iff in Hk.
    unfold message_id_of, map_get. now rewrite Hk.
Qed.

(** X3: what a run saves, the next run loads: for a map with one record per
    chat id, no empty key and no [null] record, the array that
    [saveMessageMap] writes loads to a map with the same chat ids and the same
    message identifiers, each record reduced to its [message_id]. *)
Theorem load_after_save (P : Platform) (m : Props) :
  unique_keys m -> no_null_record m ->
  Forall (fun k => k <> "") (map fst m) ->
  exists arr,
    save_array P m = Some arr
    /\ (forall k, In k (map fst m) ->
          lookup k (load_array arr)
          = Some (JObj [("message_id", message_id_of m k)]))
    /\ (forall k, ~ In k (map fst m) -> lookup k (load_array arr) = None)
    /\ (forall k, message_id_of (load_array arr) k = message_id_of m k).
Proof. apply save_then_load. Qed.

Lemma load_array_keys_nonempty arr :
  Forall (fun k => k <> "") (map fst (load_array arr)).
Proof.
  apply Forall_forall. intros k Hk. unfold load_array in Hk.
  apply fold_load_keys in Hk as [[]|(x & _ & Hx)].
  unfold first_key in Hx.
  destruct (truthy x && typeof_object x); [| discriminate].
  destruct (Object_keys x) as [|k0 rest]; [discriminate |].
  destruct (String.eqb_spec k0 ""); [discriminate |]. now injection Hx as <-.
Qed.

Lemma loadMessageMap_keys_nonempty (P : Platform) (f : MapFile) :
  Forall (fun k => k <> "") (map fst (loadMessageMap P f)).
Proof.
  unfold loadMessageMap, loadMessageMap_try.
  destruct f as [| |raw]; try constructor.
  destruct (trim raw =? "")%string; [constructor |].
  destruct (JSON_parse P (trim raw)) as [[]|]; try constructor.
  apply load_array_keys_nonempty.
Qed.

Lemma records_no_null m : records_are_objects m -> no_null_record m.
Proof.
  intros Hrec k Hk. unfold map_get.
  destruct (lookup k m) as [v|] eqn:Hl.
  - apply lookup_In in Hl.
    apply (proj1 (Forall_forall _ _) Hrec) in Hl. now destruct v.
  - now apply lookup_None_iff in Hl.
Qed.




(** * Targets that throw *)

Section Targets.

Context (P : Platform) (E : Env).

Lemma primitive_no_id v :
  primitive v = true -> get_member_opt v "message_id" = JUndefined.
Proof. now destruct v. Qed.

Lemma setMessageId_throws k mid w :
  let rec := map_get (messageMap w) k in
  if truthy mid && truthy rec && primitive rec
  then setMessageId k mid w = Uncaught w
  else exists w', setMessageId k mid w = Ok tt w'.
Proof.
  cbn zeta. unfold setMessageId.
  destruct (truthy mid) eqn:Hmid; cbn; [| eexists; reflexivity].
  unfold bind, get_map, set_map, set_dirty, ret, throw.
  destruct (truthy (map_get (messageMap w) k)) eqn:Hrec; cbn.
  - destruct (primitive (map_get (messageMap w) k)) eqn:Hp.
    + rewrite (primitive_no_id _ Hp).
      replace (strict_eq JUndefined mid) with false
        by (destruct mid; try reflexivity; discriminate).
      cbn. destruct (map_get (messageMap w) k); try discriminate; reflexivity.
    + destruct (negb (strict_eq _ mid)); [| eexists; reflexivity].
      destruct (map_get (messageMap w) k); try discriminate; cbn;
        eexists; reflexivity.
  - rewrite map_get_obj_set_same. cbn.
    destruct (negb (strict_eq _ mid)); eexists; reflexivity.
Qed.

Lemma finish_throws k guard r w1 :
  let rec := map_get (messageMap w1) k in
  if guard && truthy (r_message_id r) && truthy rec && primitive rec
  then finish k guard r w1 = Uncaught w1
  else exists w', finish k guard r w1 = Ok r w'.
Proof.
  cbn zeta. unfold finish. destruct guard; cbn.
  - pose proof (setMessageId_throws k (r_message_id r) w1) as H. cbn zeta in H.
    destruct (truthy (r_message_id r) && _ && _).
    + unfold bind. now rewrite H.
    + destruct H as [w' H]. unfold bind. rewrite H. eexists. reflexivity.
  - eexists. reflexivity.
Qed.

Lemma known_needs_object m c :
  truthy (known_id m c) = true -> primitive (record_at m c) = false.
Proof.
  unfold known_id, record_at. destruct (map_get m (key_of (chat_id c))); auto;
    discriminate.
Qed.

(** X6: a target throws, and with it the whole run, exactly when the record
    the map holds for its chat is a number other than zero, a string that is
    not empty or [true], and the send succeeds with a message identifier: the
    identifier cannot be stored in such a record.  The photo has been sent and
    pinned by then; no later target is processed and the map file is not
    written. *)
Theorem target_throws (c : ChatTarget) (w : World) :
  ((exists w', loop_body P E c w = Uncaught w') <->
   valid c = true
   /\ truthy (record_at (messageMap w) c) = true
   /\ primitive (record_at (messageMap w) c) = true
   /\ exists json,
        reply_ok (net E (n_fetch w)) = Some (json, true)
        /\ truthy (result_message_id json) = true)
  /\ (forall w',
        loop_body P E c w = Uncaught w' ->
        messageMap w' = messageMap w /\ mapDirty w' = mapDirty w
        /\ (exists photo caption mid,
              since w w'
              = [SendPhoto (chat_id c) photo caption;
                 PinChatMessage (chat_id c) mid])
        /\ forall rest, run P E (c :: rest) w = Uncaught w').
Proof.
  assert (Hrun : forall w', loop_body P E c w = Uncaught w' ->
                   forall rest, run P E (c :: rest) w = Uncaught w').
  { intros w' H rest. unfold run. cbn [loop]. unfold bind. now rewrite H. }
  destruct (valid c) eqn:Hv.
  2:{ rewrite loop_body_invalid by exact Hv. split.
      - split; [intros [w' H]; discriminate | intros [H _]; discriminate].
      - intros w' H. discriminate. }
  destruct (valid_url c Hv) as [s Hurl].
  destruct (truthy (known_id (messageMap w) c)) eqn:Hk.
  - destruct (loop_body_edit P E c s w Hv Hurl Hk)
      as (r & w1 & Heq & Hm & _).
    pose proof (finish_throws (key_of (chat_id c))
                  (r_ok r && r_replaced r && truthy (r_message_id r)) r w1)
      as H.
    cbn zeta in H. rewrite Hm in H. fold (record_at (messageMap w) c) in H.
    rewrite (known_needs_object _ _ Hk), !andb_false_r in H.
    destruct H as [w' H]. rewrite Heq, H. split.
    + split; [intros [w2 H2]; discriminate |].
      intros (_ & _ & Hp & _). rewrite (known_needs_object _ _ Hk) in Hp.
      discriminate.
    + intros w2 H2. discriminate.
  - destruct (loop_body_send P E c s w Hv Hurl Hk)
      as (r & w1 & Heq & Hm & Hd & _ & _ & _ & _ & Hcase).
    pose proof (finish_throws (key_of (chat_id c))
                  (r_ok r && truthy (r_message_id r)) r w1) as H.
    cbn zeta in H. rewrite Hm in H. fold (record_at (messageMap w) c) in H.
    unfold sent_as in Hcase. rewrite Heq.
    destruct (reply_ok (net E (n_fetch w))) as [[json [|]]|] eqn:Hreply.
    + destruct Hcase as (Hok & Hid & Hcalls).
      rewrite Hok, Hid in H |- *. cbn [andb] in H |- *.
      destruct (truthy (result_message_id json)) eqn:Hmid; cbn [andb] in H.
      * destruct (truthy (record_at (messageMap w) c)) eqn:Hrec;
          cbn [andb] in H.
        -- destruct (primitive (record_at (messageMap w) c)) eqn:Hp.
           ++ rewrite H. split.
              ** split; [intros _; repeat split; eauto | intros _; eauto].
              ** intros w2 [= <-]. repeat split; auto.
                 --- do 3 eexists. apply since_app. exact Hcalls.
                 --- apply Hrun. rewrite Heq, Hok, Hid. cbn [andb].
                     rewrite Hmid. exact H.
           ++ destruct H as [w' H]. rewrite H. split.
              ** split; [intros [w2 H2]; discriminate |].
                 intros (_ & _ & H2 & _). discriminate.
              ** intros w2 H2. discriminate.
        -- destruct H as [w' H]. rewrite H. split.
           ++ split; [intros [w2 H2]; discriminate |].
              intros (_ & H2 & _). discriminate.
           ++ intros w2 H2. discriminate.
      * destruct H as [w' H]. rewrite H. split.
        -- split; [intros [w2 H2]; discriminate |].
           intros (_ & _ & _ & j & [= <-] & H2). congruence.
        -- intros w2 H2. discriminate.
    + destruct Hcase as (-> & _). cbn [failed r_ok andb] in H |- *.
      destruct H as [w' H]. rewrite H.
      split.
      * split; [intros [w2 H2]; discriminate |].
        intros (_ & _ & _ & j & [=] & _).
      * intros w2 H2. discriminate.
    + destruct Hcase as (-> & _). cbn [failed r_ok andb] in H |- *.
      destruct H as [w' H]. rewrite H.
      split.
      * split; [intros [w2 H2]; discriminate |].
        intros (_ & _ & _ & j & [=] & _).
      * intros w2 H2. discriminate.
Qed.

End Targets.

(** * What a run does to the map *)

Lemma string_of_Z_nonempty z : string_of_Z z <> "".
Proof.
  unfold string_of_Z, NilEmpty.string_of_int.
  assert (Hu : forall d, NilEmpty.string_of_uint d = "" -> d = Decimal.Nil)
    by (intros [| | | | | | | | | |]; simpl; congruence).
  destruct z as [|p|p]; simpl; try discriminate.
  intros H. apply Hu in H. now apply DecimalPos.Unsigned.to_uint_nonnil in H.
Qed.

Lemma key_of_valid c : valid c = true -> key_of (chat_id c) <> "".
Proof.
  unfold valid, truthy_id, key_of. intros H. apply andb_true_iff in H as [H _].
  destruct (chat_id c) as [[n|s]|]; try discriminate.
  - apply string_of_Z_nonempty.
  - intros ->. discriminate.
Qed.

Section Frame.

Context (P : Platform) (E : Env).

(** The two things the end of the loop body can do to the map. *)
Lemma finish_worlds k guard r w1 :
  let m := messageMap w1 in
  let w' := world_of (finish k guard r w1) in
  (messageMap w' = m /\ mapDirty w' = mapDirty w1)
  \/ (exists record,
         set_member (map_get (ensured m k) k) "message_id" (r_message_id r)
         = Some record
         /\ messageMap w' = obj_set k record (ensured m k)
         /\ truthy (r_message_id r) = true /\ mapDirty w' = true).
Proof.
  cbn zeta.
  destruct (finish_view k guard r w1)
    as [(w' & -> & _ & [(Hm & Hd & _)|(_ & Hmid & _ & record & Hset & Hm & Hd)])
       |(_ & _ & _ & w' & Heq & _)]; cbn.
  - now left.
  - right. exists record. auto.
  - left. pose proof (finish_throws k guard r w1) as H. cbn zeta in H.
    destruct (guard && _ && _ && _).
    + rewrite H. cbn. auto.
    + destruct H as [w2 H]. congruence.
Qed.

Lemma ensured_lookup m k k' : k <> k' -> lookup k' (ensured m k) = lookup k' m.
Proof.
  intros N. unfold ensured. destruct (truthy (map_get m k)); [reflexivity |].
  now apply lookup_obj_set_other.
Qed.

Lemma ensured_keys m k x :
  In x (map fst (ensured m k)) -> x = k \/ In x (map fst m).
Proof.
  unfold ensured. destruct (truthy (map_get m k)); [auto |].
  now rewrite keys_obj_set.
Qed.

Lemma keys_ensured m k x : In x (map fst m) -> In x (map fst (ensured m k)).
Proof.
  unfold ensured. destruct (truthy (map_get m k)); [auto |].
  rewrite keys_obj_set. auto.
Qed.

Lemma ensured_unique m k : unique_keys m -> unique_keys (ensured m k).
Proof.
  unfold ensured. destruct (truthy (map_get m k)); [auto |].
  apply unique_keys_obj_set.
Qed.

(** What one target does to the map, whether it returns or throws. *)
Lemma loop_body_frame c w :
  let m := messageMap w in
  let m' := messageMap (world_of (loop_body P E c w)) in
  let k := key_of (chat_id c) in
  (forall k', valid c = false \/ k <> k' -> lookup k' m' = lookup k' m)
  /\ (forall k', In k' (map fst m) -> In k' (map fst m'))
  /\ (forall k', In k' (map fst m') ->
        In k' (map fst m) \/ (valid c = true /\ k' = k))
  /\ (unique_keys m -> unique_keys m')
  /\ (forall k', message_id_of m' k' = message_id_of m k'
                 \/ truthy (message_id_of m' k') = true).
Proof.
  cbn zeta.
  assert (Hsame : messageMap (world_of (loop_body P E c w)) = messageMap w ->
            (forall k', valid c = false \/ key_of (chat_id c) <> k' ->
               lookup k' (messageMap (world_of (loop_body P E c w)))
               = lookup k' (messageMap w))
            /\ (forall k', In k' (map fst (messageMap w)) ->
                  In k' (map fst (messageMap (world_of (loop_body P E c w)))))
            /\ (forall k',
                  In k' (map fst (messageMap (world_of (loop_body P E c w)))) ->
                  In k' (map fst (messageMap w))
                  \/ (valid c = true /\ k' = key_of (chat_id c)))
            /\ (unique_keys (messageMap w) ->
                unique_keys (messageMap (world_of (loop_body P E c w))))
            /\ (forall k',
                  message_id_of (messageMap (world_of (loop_body P E c w))) k'
                  = message_id_of (messageMap w) k'
                  \/ truthy (message_id_of
                               (messageMap (world_of (loop_body P E c w))) k')
                     = true)).
  { intros ->. repeat split; auto. }
  destruct (valid c) eqn:Hv.
  2:{ apply Hsame. now rewrite loop_body_invalid. }
  destruct (valid_url c Hv) as [s Hurl].
  assert (Hfin : exists guard r w1,
             loop_body P E c w = finish (key_of (chat_id c)) guard r w1
             /\ messageMap w1 = messageMap w).
  { destruct (truthy (known_id (messageMap w) c)) eqn:Hk.
    - destruct (loop_body_edit P E c s w Hv Hurl Hk) as (r & w1 & Heq & Hm & _).
      eauto.
    - destruct (loop_body_send P E c s w Hv Hurl Hk) as (r & w1 & Heq & Hm & _).
      eauto. }
  destruct Hfin as (guard & r & w1 & Heq & Hm).
  destruct (finish_worlds (key_of (chat_id c)) guard r w1)
    as [[Hm' _]|(record & Hset & Hm' & Hmid & _)];
    rewrite <- Heq, Hm in Hm'.
  - now apply Hsame.
  - clear Hsame. rewrite Hm in Hset. rewrite Hm'.
    apply set_member_get in Hset as [Hget _].
    split; [| split; [| split; [| split]]].
    + intros k' [H|N]; [discriminate |].
      rewrite lookup_obj_set_other by exact N. now apply ensured_lookup.
    + intros k' H. apply keys_obj_set. right. now apply keys_ensured.
    + intros k' H. apply keys_obj_set in H as [->|H]; [auto |].
      apply ensured_keys in H as [->|H]; auto.
    + intros H. now apply unique_keys_obj_set, ensured_unique.
    + intros k'. destruct (String.eqb_spec (key_of (chat_id c)) k') as [<-|N].
      * right. unfold message_id_of. rewrite map_get_obj_set_same.
        now rewrite Hget.
      * left. unfold message_id_of. rewrite map_get_obj_set_other by exact N.
        apply (message_id_of_ensured (messageMap w) (key_of (chat_id c)) k').
Qed.

Lemma world_of_loop c cs w :
  world_of (loop P E (c :: cs) w)
  = match loop_body P E c w with
    | Ok _ w1 => world_of (loop P E cs w1)
    | Uncaught w1 => w1
    end.
Proof.
  cbn [loop]. unfold bind. destruct (loop_body P E c w) as [r w1|w1];
    [| reflexivity].
  now destruct (loop P E cs w1).
Qed.

Lemma world_of_body c w :
  match loop_body P E c w with
  | Ok _ w1 => w1
  | Uncaught w1 => w1
  end = world_of (loop_body P E c w).
Proof. now destruct (loop_body P E c w). Qed.

Lemma loop_frame chats w :
  let m := messageMap w in
  let m' := messageMap (world_of (loop P E chats w)) in
  (forall k, In k (map fst m) -> In k (map fst m'))
  /\ (forall k, In k (map fst m') ->
        In k (map fst m)
        \/ exists c, In c chats /\ valid c = true /\ k = key_of (chat_id c))
  /\ (forall k,
        (forall c, In c chats -> valid c = true -> key_of (chat_id c) <> k) ->
        lookup k m' = lookup k m)
  /\ (unique_keys m -> unique_keys m')
  /\ (forall k, message_id_of m' k = message_id_of m k
                \/ truthy (message_id_of m' k) = true).
Proof.
  cbn zeta. revert w. induction chats as [|c cs IH]; intros w.
  - cbn. repeat split; auto.
  - rewrite world_of_loop.
    destruct (loop_body_frame c w) as (F1 & F2 & F3 & F4 & F5).
    cbn zeta in *. rewrite <- world_of_body in F1, F2, F3, F4, F5.
    destruct (loop_body P E c w) as [r w1|w1].
    + destruct (IH w1) as (I1 & I2 & I3 & I4 & I5).
      split; [| split; [| split; [| split]]].
      * auto.
      * intros k H. apply I2 in H as [H|(c' & Hc & Hv & ->)].
        -- apply F3 in H as [H|[Hv ->]]; [now left |].
           right. exists c. split; [now left | auto].
        -- right. exists c'. split; [now right | auto].
      * intros k H. rewrite I3 by (intros c' Hc; apply H; now right).
        apply F1. destruct (valid c) eqn:Hv; [right | now left].
        apply H; [now left | exact Hv].
      * auto.
      * intros k. destruct (I5 k) as [I|I]; [| now right].
        rewrite I. apply F5.
    + split; [| split; [| split; [| split]]]; auto.
      * intros k H. apply F3 in H as [H|[Hv ->]]; [now left |].
        right. exists c. split; [now left | auto].
      * intros k H. apply F1. destruct (valid c) eqn:Hv; [right | now left].
        apply H; [now left | exact Hv].
Qed.

Lemma run_map chats w :
  messageMap (world_of (run P E chats w))
  = messageMap (world_of (loop P E chats w)).
Proof.
  unfold run, bind. destruct (loop P E chats w) as [results w1|w1];
    [| reflexivity].
  generalize (0 <? List.length (filter genuine_failure results))%nat.
  intros b. cbn. destruct (mapDirty w1); cbn.
  - unfold saveMessageMap. destruct (save_array P (messageMap w1));
      unfold bind, emit, ret; cbn; now destruct b.
  - now destruct b.
Qed.

Lemma run_keys_nonempty chats w :
  Forall (fun k => k <> "") (map fst (messageMap w)) ->
  Forall (fun k => k <> "") (map fst (messageMap (world_of (run P E chats w)))).
Proof.
  intros Hne. rewrite run_map.
  destruct (loop_frame chats w) as (_ & H2 & _). cbn zeta in H2.
  apply Forall_forall. intros k Hk.
  apply H2 in Hk as [Hk|(c & _ & Hv & ->)].
  - exact (proj1 (Forall_forall _ _) Hne k Hk).
  - now apply key_of_valid.
Qed.


End Frame.

(** * The requests of a run *)

Section Trace.

Context (P : Platform) (E : Env).

Ltac split_case Hcase :=
  repeat match type of Hcase with
         | _ /\ _ => let H := fresh "H" in destruct Hcase as [H Hcase]
         end.

(** The requests one valid target makes, whether it returns or throws. *)
Lemma loop_body_requests c s w :
  valid c = true -> image_url c = Some s ->
  exists guard r w1 block,
    loop_body P E c w = finish (key_of (chat_id c)) guard r w1
    /\ messageMap w1 = messageMap w /\ mapDirty w1 = mapDirty w
    /\ calls w1 = (calls w ++ block)%list
    /\ requests_of c block
    /\ (forall id mid, In (PinChatMessage id mid) block ->
          id = chat_id c
          /\ ((mid = known_id (messageMap w) c /\ guard = false)
              \/ (mid = r_message_id r /\ guard = truthy mid))).
Proof.
  intros Hv Hurl. destruct (truthy (known_id (messageMap w) c)) eqn:Hk.
  - destruct (loop_body_edit P E c s w Hv Hurl Hk)
      as (r & w1 & Heq & Hm & Hd & _ & _ & Hcase).
    exists (r_ok r && r_replaced r && truthy (r_message_id r)), r, w1.
    unfold edited_as in Hcase.
    destruct (reply_ok (net E (n_fetch w))) as [[json [|]]|];
      try destruct (not_modified json);
      try destruct (strict_eq _ _);
      try destruct (reply_ok (net E (S (n_fetch w)))) as [[j [|]]|];
      split_case Hcase;
      (eexists; split; [exact Heq |]; split; [exact Hm |]; split; [exact Hd |];
       split; [exact Hcase |]; split;
       [split; [cbn; lia | repeat constructor]
       | intros id mid Hin; cbn in Hin;
         repeat (destruct Hin as [Hin|Hin]; [| try contradiction]);
         try discriminate; injection Hin as <- <-;
         (split; [reflexivity |]);
         first [ left; split; [reflexivity |];
                 repeat match goal with Hx : _ = _ |- _ => rewrite Hx end;
                 cbn; now rewrite ?andb_false_r
               | right; split; [congruence |];
                 repeat match goal with
                        | Hx : r_ok _ = _ |- _ => rewrite Hx
                        | Hx : r_replaced _ = _ |- _ => rewrite Hx
                        | Hx : r_message_id _ = _ |- _ => rewrite Hx
                        end; reflexivity ]]).
  - destruct (loop_body_send P E c s w Hv Hurl Hk)
      as (r & w1 & Heq & Hm & Hd & _ & _ & _ & _ & Hcase).
    exists (r_ok r && truthy (r_message_id r)), r, w1.
    unfold sent_as in Hcase.
    destruct (reply_ok (net E (n_fetch w))) as [[json [|]]|];
      split_case Hcase;
      (eexists; split; [exact Heq |]; split; [exact Hm |]; split; [exact Hd |];
       split; [exact Hcase |]; split;
       [split; [cbn; lia | repeat constructor] |]).
    all: intros id mid Hin; cbn in Hin;
      repeat (destruct Hin as [Hin|Hin]; [| try contradiction]);
      try discriminate.
    injection Hin as <- <-. split; [reflexivity |]. right.
    split; [congruence |]. now rewrite H, H0.
Qed.

Lemma requests_no_write c block :
  requests_of c block -> count is_write block = 0%nat.
Proof.
  intros [_ H]. unfold count.
  induction H as [|e l [He _] _ IH]; [reflexivity |].
  simpl. destruct e; try discriminate; exact IH.
Qed.

Lemma count_app f (a b : list Call) :
  count f (a ++ b) = (count f a + count f b)%nat.
Proof. unfold count. now rewrite filter_app, length_app. Qed.

(** One valid target when every record is an object: its requests, then
    the pause. *)
Lemma loop_body_block c w :
  records_are_objects (messageMap w) -> valid c = true ->
  exists r w' block,
    loop_body P E c w = Ok r w'
    /\ records_are_objects (messageMap w')
    /\ calls w' = (calls w ++ block ++ [Delay 600])%list
    /\ requests_of c block
    /\ forall id mid,
         In (PinChatMessage id mid) block ->
         id = chat_id c
         /\ (truthy mid = true ->
             message_id_of (messageMap w') (key_of (chat_id c)) = mid).
Proof.
  intros Hrec Hv. destruct (valid_url c Hv) as [s Hurl].
  destruct (loop_body_requests c s w Hv Hurl)
    as (guard & r & w1 & block & Heq & Hm & Hd & Hcalls & Hreq & Hpin).
  destruct (finish_safe (key_of (chat_id c)) guard r w1)
    as (w' & Hfin & Hc & Hrec' & Heff); [now rewrite Hm |].
  exists r, w', block. rewrite Heq, Hc, Hcalls, <- app_assoc.
  repeat split; try assumption; try apply Hreq.
  - now apply (Hpin id mid).
  - intros Hmid. destruct (Hpin id mid H) as [_ [[-> Hg]|[-> Hg]]].
    + destruct Heff as [(Hsame & _)|(Hg' & _)]; [| congruence].
      rewrite Hsame, Hm. reflexivity.
    + rewrite Hmid in Hg.
      destruct Heff as [(Hsame & _ & Hwhy)|(_ & _ & _ & _ & Hid & _)];
        [| exact Hid].
      rewrite Hsame. apply strict_eq_true. auto.
Qed.

Lemma loop_blocks chats w :
  records_are_objects (messageMap w) ->
  exists results w' blocks,
    loop P E chats w = Ok results w'
    /\ records_are_objects (messageMap w')
    /\ calls w' = (calls w ++ paced blocks)%list
    /\ Forall2 requests_of (filter valid chats) blocks.
Proof.
  revert w. induction chats as [|c cs IH]; intros w Hrec.
  - exists [], w, []. cbn. rewrite app_nil_r. repeat split; auto.
  - cbn [loop filter]. unfold bind. destruct (valid c) eqn:Hv.
    + destruct (loop_body_block c w Hrec Hv)
        as (r & w1 & block & Heq & Hrec1 & Hc1 & Hreq & _).
      destruct (IH w1 Hrec1) as (rs & w' & blocks & Hloop & Hrec' & Hc & Hall).
      exists (r :: rs), w', (block :: blocks). rewrite Heq, Hloop.
      split; [reflexivity |]. split; [exact Hrec' |].
      split; [| now constructor].
      rewrite Hc, Hc1. unfold paced. cbn. now rewrite <- !app_assoc.
    + rewrite (loop_body_invalid P E c w Hv).
      destruct (IH w Hrec) as (rs & w' & blocks & Hloop & Hrec' & Hc & Hall).
      exists (invalid_config c :: rs), w', blocks. rewrite Hloop. auto.
Qed.

Lemma paced_no_write blocks chats :
  Forall2 requests_of chats blocks -> count is_write (paced blocks) = 0%nat.
Proof.
  induction 1 as [|c block cs blocks Hreq _ IH]; [reflexivity |].
  change (paced (block :: blocks))
    with ((block ++ [Delay 600]) ++ paced blocks)%list.
  rewrite !count_app, (requests_no_write c block Hreq), IH. reflexivity.
Qed.

(** A run whose map holds objects: the loop, then the save. *)
Lemma run_view chats w :
  records_are_objects (messageMap w) ->
  exists code w' blocks tail,
    run P E chats w = Ok code w'
    /\ records_are_objects (messageMap w')
    /\ calls w' = (calls w ++ paced blocks ++ tail)%list
    /\ Forall2 requests_of (filter valid chats) blocks
    /\ (tail = []
        \/ tail
           = [WriteMapFile
                (JSON_stringify P
                   (JArr
                      (map (fun k => entry (k, message_id_of (messageMap w') k))
                         (js_sort (localeCompare P)
                            (map fst (messageMap w')))))
                 ++ nl)]).
Proof.
  intros Hrec.
  destruct (loop_blocks chats w Hrec)
    as (results & w1 & blocks & Hloop & Hrec1 & Hc & Hall).
  unfold run, bind. rewrite Hloop.
  generalize (0 <? List.length (filter genuine_failure results))%nat.
  intros b. cbn. destruct (mapDirty w1); cbn.
  - unfold saveMessageMap. rewrite (save_array_total P _ Hrec1).
    unfold bind, emit, ret. cbn.
    eexists (if b then ExitCode 10 else Completed), _, blocks, [_].
    split; [now destruct b |]. cbn.
    split; [exact Hrec1 |]. split; [now rewrite Hc, <- app_assoc |].
    split; [exact Hall | now right].
  - exists (if b then ExitCode 10 else Completed), w1, blocks, [].
    split; [now destruct b |]. rewrite app_nil_r. auto.
Qed.

(** X8: between the start-up and the exit, a run whose map holds objects is
    the sequence of its valid targets in their order: for each one, one to
    three requests, all addressed to the chat of that target, and then the
    pause of 600 ms; invalid targets leave no trace; and the only thing that
    can follow is the write of the map file. *)
Theorem run_is_paced (chats : list ChatTarget) (w : World) :
  records_are_objects (messageMap w) ->
  exists code w' blocks tail,
    run P E chats w = Ok code w'
    /\ since w w' = (paced blocks ++ tail)%list
    /\ Forall2 requests_of (filter valid chats) blocks
    /\ (tail = [] \/ exists text, tail = [WriteMapFile text]).
Proof.
  intros Hrec.
  destruct (run_view chats w Hrec)
    as (code & w' & blocks & tail & Hrun & _ & Hc & Hall & Htail).
  exists code, w', blocks, tail. split; [exact Hrun |].
  split; [now apply since_app |]. split; [exact Hall |].
  destruct Htail as [-> | ->]; eauto.
Qed.

(** X4: the file a run writes holds the state the run reached: loaded again,
    the array it wrote gives the chat ids of the final map and, for each, the
    message identifier the final map holds; so does the file itself when the
    platform parses it back to that array. *)
Theorem saved_state_is_final_state (f : MapFile) (chats : list ChatTarget) :
  records_are_objects (loadMessageMap P f) ->
  exists code w',
    main P E f chats = Ok code w'
    /\ forall text,
         In (WriteMapFile text) (calls w') ->
         exists arr,
           text = JSON_stringify P (JArr arr) ++ nl
           /\ (forall k, In k (map fst (load_array arr))
                         <-> In k (map fst (messageMap w')))
           /\ (forall k, message_id_of (load_array arr) k
                         = message_id_of (messageMap w') k)
           /\ (trim text <> "" -> JSON_parse P (trim text) = Some (JArr arr) ->
               loadMessageMap P (FileText text) = load_array arr).
Proof.
  intros Hrec. unfold main.
  destruct (run_view chats (initial_world P f) Hrec)
    as (code & w' & blocks & tail & Hrun & Hrec' & Hc & Hall & Htail).
  exists code, w'. split; [exact Hrun |]. intros text Hin.
  rewrite Hc in Hin. cbn [initial_world calls app] in Hin.
  apply in_app_or in Hin as [Hin|Hin].
  { exfalso. pose proof (paced_no_write _ _ Hall) as Hnw. unfold count in Hnw.
    assert (Hf : In (WriteMapFile text) (filter is_write (paced blocks)))
      by (apply filter_In; auto).
    destruct (filter is_write (paced blocks)); [contradiction | discriminate]. }
  destruct Htail as [-> | ->]; [contradiction |].
  destruct Hin as [[= <-]|[]].
  destruct (loop_frame P E chats (initial_world P f)) as (_ & _ & _ & Hu & _).
  pose proof (run_keys_nonempty P E chats (initial_world P f)
                (loadMessageMap_keys_nonempty P f)) as Hne.
  cbn zeta in Hu. rewrite <- run_map in Hu. unfold main in *.
  rewrite Hrun in Hu, Hne. cbn [world_of initial_world messageMap] in Hu, Hne.
  specialize (Hu (loadMessageMap_unique P f)).
  destruct (save_then_load P (messageMap w') Hu (records_no_null _ Hrec') Hne)
    as (arr & Harr & Hin & Hout & Hids).
  rewrite (save_array_total P _ Hrec') in Harr. injection Harr as <-.
  eexists. split; [reflexivity |]. split; [| split; [exact Hids |]].
  - intros k. split; intros Hk.
    + destruct (in_dec string_dec k (map fst (messageMap w'))) as [H|H];
        [exact H |].
      apply Hout in H. apply lookup_None_iff in H. contradiction.
    + destruct (in_dec string_dec k (map fst (load_array
          (map (fun k0 => entry (k0, message_id_of (messageMap w') k0))
             (js_sort (localeCompare P) (map fst (messageMap w')))))))
        as [H|H]; [exact H |].
      apply lookup_None_iff in H. rewrite (Hin k Hk) in H. discriminate.
  - intros Hne' Hparse. unfold loadMessageMap, loadMessageMap_try.
    rewrite Hparse.
    match goal with
    | |- context [(?t =? "")%string] =>
        destruct (String.eqb_spec t ""); [contradiction | reflexivity]
    end.
Qed.

(** X9: the message a target pins is the one the map holds for its chat once
    the target is done: the stored one after an edit, the new one after a
    send. *)
Theorem pinned_message_is_recorded (c : ChatTarget) (w : World) :
  records_are_objects (messageMap w) -> valid c = true ->
  exists r w',
    loop_body P E c w = Ok r w'
    /\ forall id mid,
         In (PinChatMessage id mid) (since w w') ->
         id = chat_id c
         /\ (truthy mid = true ->
             message_id_of (messageMap w') (key_of (chat_id c)) = mid).
Proof.
  intros Hrec Hv.
  destruct (loop_body_block c w Hrec Hv)
    as (r & w' & block & Heq & _ & Hc & _ & Hpin).
  exists r, w'. split; [exact Heq |]. intros id mid Hin.
  rewrite (since_app _ _ _ Hc) in Hin.
  apply in_app_or in Hin as [Hin|[Hin|[]]]; [now apply Hpin | discriminate].
Qed.

(** What any target adds to the calls, whether it returns or throws. *)
Lemma loop_body_no_write c w :
  exists evs,
    calls (world_of (loop_body P E c w)) = (calls w ++ evs)%list
    /\ count is_write evs = 0%nat.
Proof.
  destruct (valid c) eqn:Hv.
  2:{ rewrite loop_body_invalid by exact Hv. exists []. cbn.
      now rewrite app_nil_r. }
  destruct (valid_url c Hv) as [s Hurl].
  destruct (loop_body_requests c s w Hv Hurl)
    as (guard & r & w1 & block & Heq & _ & _ & Hcalls & Hreq & _).
  destruct (finish_calls (key_of (chat_id c)) guard r w1)
    as (tail & Hc & Htail).
  exists (block ++ tail)%list. rewrite Heq, Hc, Hcalls, <- app_assoc.
  split; [reflexivity |]. rewrite count_app, (requests_no_write c block Hreq).
  now destruct Htail as [->| ->].
Qed.

Lemma loop_no_write chats w :
  exists evs,
    calls (world_of (loop P E chats w)) = (calls w ++ evs)%list
    /\ count is_write evs = 0%nat.
Proof.
  revert w. induction chats as [|c cs IH]; intros w.
  - exists []. cbn. now rewrite app_nil_r.
  - rewrite world_of_loop.
    destruct (loop_body_no_write c w) as (e1 & Hc1 & Hw1).
    rewrite <- world_of_body in Hc1.
    destruct (loop_body P E c w) as [r w1|w1]; [| eauto].
    destruct (IH w1) as (e2 & Hc2 & Hw2).
    exists (e1 ++ e2)%list. rewrite Hc2, Hc1, <- app_assoc.
    split; [reflexivity |]. rewrite count_app. lia.
Qed.

Lemma run_calls chats w :
  calls (world_of (run P E chats w))
  = match loop P E chats w with
    | Ok _ w1 =>
        if mapDirty w1 then
          match save_array P (messageMap w1) with
          | Some arr =>
              (calls w1
               ++ [WriteMapFile (JSON_stringify P (JArr arr) ++ nl)])%list
          | None => calls w1
          end
        else calls w1
    | Uncaught w1 => calls w1
    end.
Proof.
  unfold run, bind. destruct (loop P E chats w) as [results w1|w1];
    [| reflexivity].
  generalize (0 <? List.length (filter genuine_failure results))%nat.
  intros b. cbn. destruct (mapDirty w1); cbn.
  - unfold saveMessageMap. destruct (save_array P (messageMap w1));
      unfold bind, emit, ret; cbn; now destruct b.
  - now destruct b.
Qed.

(** X5: a record that is [null] or [undefined], as a hand-edited state file
    can hold, and that belongs to no valid target stays in the map for the
    whole run and makes the save fail: whatever the run changes, the map file
    is not written. *)
Theorem null_record_blocks_saving (chats : list ChatTarget) (w : World)
  (k : string) :
  In k (map fst (messageMap w)) ->
  is_nullish (map_get (messageMap w) k) = true ->
  (forall c, In c chats -> valid c = true -> key_of (chat_id c) <> k) ->
  count is_write (since w (world_of (run P E chats w))) = 0%nat.
Proof.
  intros Hin Hnull Hother.
  destruct (loop_no_write chats w) as (evs & Hc & Hw).
  destruct (loop_frame P E chats w) as (Hgrow & _ & Hframe & _).
  cbn zeta in *. specialize (Hgrow k Hin). specialize (Hframe k Hother).
  assert (Hcalls : calls (world_of (run P E chats w)) = (calls w ++ evs)%list).
  { rewrite run_calls.
    destruct (loop P E chats w) as [results w1|w1]; cbn [world_of] in *;
      [| exact Hc].
    destruct (mapDirty w1); [| exact Hc].
    unfold save_array.
    rewrite (save_records_null (messageMap w1) _ k); [exact Hc | |].
    - eapply Permutation_in; [symmetry; apply js_sort_perm | exact Hgrow].
    - unfold map_get in *. now rewrite Hframe. }
  now rewrite (since_app _ _ _ Hcalls).
Qed.

(** X10: targets share the map as the run goes.  Once the send for a chat
    that was absent from the map has been answered with a truthy [ok] and
    a message identifier, a later target for the same chat, with no other
    valid target for that chat in between, starts with one edit of that
    very message and makes no other edit; it sends a new message exactly
    when that edit is answered with a falsy [ok] and the error code 400
    without a description that contains "message is not modified". *)
Theorem later_target_edits (c c' : ChatTarget) (between : list ChatTarget)
  (w : World) (json okv mid : JVal) :
  records_are_objects (messageMap w) ->
  valid c = true -> valid c' = true -> chat_id c' = chat_id c ->
  lookup (key_of (chat_id c)) (messageMap w) = None ->
  net E (n_fetch w) = Body json ->
  get_member json "ok" = Some okv -> truthy okv = true ->
  get_member_opt (get_member_opt json "result") "message_id" = mid ->
  truthy mid = true ->
  (forall b, In b between -> valid b = true ->
     key_of (chat_id b) <> key_of (chat_id c)) ->
  exists r w1 rs w2,
    loop_body P E c w = Ok r w1 /\ r_ok r = true
    /\ loop P E between w1 = Ok rs w2
    /\ exists photo caption rest,
         since w2 (world_of (loop_body P E c' w2))
         = EditMessageMedia (chat_id c') mid photo caption :: rest
         /\ count is_edit rest = 0%nat
         /\ (count is_send rest <= 1)%nat
         /\ (count is_send rest = 1%nat <->
             exists j okv',
               net E (n_fetch w2) = Body j
               /\ get_member j "ok" = Some okv' /\ truthy okv' = false
               /\ get_member_opt j "error_code" = JNum 400
               /\ ~ (exists d,
                        get_member_opt j "description" = JStr d
                        /\ contains d "message is not modified")).
Proof.
  intros Hrec Hv Hv' Hsame Hnone Hnet Hok Ht Hmid Htm Hother.
  destruct (valid_url c Hv) as [s Hurl].
  destruct (valid_url c' Hv') as [s' Hurl'].
  pose proof (result_id_raw json _ mid eq_refl Hmid Htm) as Hid.
  destruct (loop_body_calls P E c s w Hv Hurl) as (_ & Habsent & _).
  destruct (Habsent Hnone) as [_ Hins].
  destruct (Hins json) as (r & w1 & Heq & Hrok & Hstored & _).
  { apply reply_ok_raw. split; [exact Hnet | eauto]. }
  { now rewrite Hid. }
  rewrite Hid in Hstored.
  destruct (loop_body_step P E c w Hrec) as (r0 & w0 & Heq0 & Hrec1 & _).
  rewrite Heq in Heq0. injection Heq0 as <- <-.
  destruct (loop_results P E between w1 Hrec1) as (rs & w2 & Hloop & _).
  destruct (loop_frame P E between w1) as (_ & _ & Hframe & _).
  cbn zeta in Hframe. rewrite Hloop in Hframe. cbn [world_of] in Hframe.
  specialize (Hframe (key_of (chat_id c)) Hother).
  rewrite Hstored in Hframe.
  exists r, w1, rs, w2. split; [exact Heq |]. split; [exact Hrok |].
  split; [exact Hloop |].
  assert (Hknown : known_id (messageMap w2) c' = mid).
  { rewrite (record_id_raw _ _ (JObj [("message_id", mid)]));
      [reflexivity | now rewrite Hsame]. }
  destruct (loop_body_calls P E c' s' w2 Hv' Hurl') as (_ & _ & Hedit).
  cbn zeta in Hedit. rewrite Hknown in Hedit.
  destruct (Hedit Htm) as (rest & Hevs & He & Hle & Hiff).
  do 3 eexists. split; [exact Hevs |]. repeat split; try assumption.
  - intros H. now apply fallback_raw, Hiff.
  - intros H. now apply Hiff, fallback_raw.
Qed.

End Trace.

(** * The reply to a pin request *)

Section Pins.

Context (P : Platform) (E : Env).

Lemma cacheBustedUrl_fetch u w photo w1 :
  cacheBustedUrl P E u w = Ok photo w1 -> n_fetch w1 = n_fetch w.
Proof.
  unfold cacheBustedUrl, Date_now, bind, ret, throw.
  destruct u as [s|]; [| discriminate].
  destruct (URL_parse P s); intros [= _ <-]; reflexivity.
Qed.

Lemma net_with_reply_other n i pin :
  i <> n -> net (with_reply E n pin) i = net E i.
Proof.
  intros N. cbn. destruct (Nat.eqb_spec i n); [contradiction | reflexivity].
Qed.

Lemma pinMessage_any (E1 E2 : Env) id mid w (r : Result) :
  (pinMessage E1 id mid ;;; ret r) w = (pinMessage E2 id mid ;;; ret r) w.
Proof.
  destruct (pinMessage_view E1 id mid w) as [b1 H1].
  destruct (pinMessage_view E2 id mid w) as [b2 H2].
  unfold bind. now rewrite H1, H2.
Qed.

Lemma cacheBustedUrl_env n pin u w :
  cacheBustedUrl P (with_reply E n pin) u w = cacheBustedUrl P E u w.
Proof. reflexivity. Qed.

Lemma sendPhoto_env c w n pin :
  n = S (n_fetch w) ->
  sendPhoto P (with_reply E n pin) c w = sendPhoto P E c w.
Proof.
  intros ->.
  unfold sendPhoto, withTimestamp, getTimestamp, Date_now, bind, ret.
  cbn [clock with_reply]. rewrite cacheBustedUrl_env.
  destruct (cacheBustedUrl P E (image_url c) (tick w)) as [photo w1|w1] eqn:Hcb;
    [| reflexivity].
  pose proof (cacheBustedUrl_fetch _ _ _ _ Hcb) as Hf1.
  cbn [tick n_fetch] in Hf1.
  unfold fetch_json. rewrite net_with_reply_other by lia.
  destruct (reply_ok (net E (n_fetch w1))) as [[json [|]]|]; try reflexivity.
  apply (pinMessage_any (with_reply E (S (n_fetch w)) pin) E).
Qed.

Lemma editPhoto_env c mid w pin :
  let n := if falls_back (net E (n_fetch w)) then S (S (n_fetch w))
           else S (n_fetch w) in
  editPhoto P (with_reply E n pin) c mid w = editPhoto P E c mid w.
Proof.
  cbn zeta. set (n := if falls_back _ then _ else _).
  assert (Hn : n_fetch w <> n) by (unfold n; destruct (falls_back _); lia).
  unfold editPhoto, withTimestamp, getTimestamp, Date_now, bind, ret.
  cbn [clock with_reply]. rewrite cacheBustedUrl_env.
  destruct (cacheBustedUrl P E (image_url c) (tick w)) as [photo w1|w1] eqn:Hcb;
    [| reflexivity].
  pose proof (cacheBustedUrl_fetch _ _ _ _ Hcb) as Hf1.
  cbn [tick n_fetch] in Hf1.
  unfold fetch_json. rewrite Hf1, net_with_reply_other by exact Hn.
  unfold n, falls_back.
  destruct (reply_ok (net E (n_fetch w))) as [[json [|]]|]; try reflexivity.
  - apply (pinMessage_any (with_reply E (S (n_fetch w)) pin) E).
  - destruct (not_modified json); cbn [negb andb].
    + apply (pinMessage_any (with_reply E (S (n_fetch w)) pin) E).
    + destruct (strict_eq (get_member_opt json "error_code") (JNum 400));
        [| reflexivity].
      rewrite sendPhoto_env; [reflexivity |]. cbn. now rewrite Hf1.
Qed.

(** X11: nothing depends on the reply to a pin request: [pinMessage] always
    returns, after one request, and [sendPhoto] and [editPhoto] return the
    same result and leave the same world whatever reply, error or network
    failure their pin request meets. *)
Theorem pin_reply_is_ignored (c : ChatTarget) (w : World) (pin : Reply) :
  (forall id mid,
      exists ok,
        pinMessage E id mid w = Ok ok (requested (PinChatMessage id mid) w))
  /\ sendPhoto P (with_reply E (S (n_fetch w)) pin) c w = sendPhoto P E c w
  /\ (forall mid,
        editPhoto P
          (with_reply E
             (if falls_back (net E (n_fetch w)) then S (S (n_fetch w))
              else S (n_fetch w)) pin) c mid w
        = editPhoto P E c mid w).
Proof.
  split; [| split].
  - intros id mid. apply pinMessage_view.
  - now apply sendPhoto_env.
  - intros mid. apply editPhoto_env.
Qed.

End Pins.

(** * A whole fetch run *)

Lemma page_open_app a b o :
  page_open (a ++ b) o
  = match page_open a o with
    | Some o' => page_open b o'
    | None => None
    end.
Proof.
  revert o. induction a as [|e a IH]; intros o; [reflexivity |].
  destruct e, o; cbn; auto.
Qed.

Lemma warned_app a b : warned (a ++ b) = (warned a ++ warned b)%list.
Proof. unfold warned. now rewrite flat_map_app. Qed.

Section Regions.

Context (cfg : FetchConfig) (W : FetchEnv).

Lemma quiet_app a b n m : quiet a n -> quiet b m -> quiet (a ++ b) (n + m).
Proof.
  intros (Ha1 & Ha2 & Ha3 & Ha4) (Hb1 & Hb2 & Hb3 & Hb4). unfold quiet.
  rewrite page_open_app, Ha1, warned_app, Ha2, Hb2, writes_app, Ha3, Hb3.
  rewrite pages_app. repeat split; auto. lia.
Qed.

Lemma moved_on_quiet url a settled s :
  exists evs,
    events (moved_on cfg W url a settled s) = (events s ++ evs)%list
    /\ quiet evs 1.
Proof.
  unfold moved_on, backoff, quiet.
  destruct settled, (a <? MAX_RETRY cfg); cbn; rewrite <- ?app_assoc; cbn;
    eexists; (split; [reflexivity |]); cbn; repeat split; lia.
Qed.

Lemma attempts_quiet url k :
  forall a last s,
    exists evs,
      events (snd (attempts cfg W k a url last s)) = (events s ++ evs)%list
      /\ quiet evs k
      /\ (f_ok (fst (attempts cfg W k a url last s)) = true ->
          isSuspectHtml cfg (f_html (fst (attempts cfg W k a url last s)))
          = false).
Proof.
  induction k as [|k IH]; intros a last s.
  - exists []. cbn. rewrite app_nil_r. repeat split; auto. discriminate.
  - assert (Hgo : forall settled last',
               exists evs,
                 events (snd (attempts cfg W k (a + 1) url last'
                                (moved_on cfg W url a settled s)))
                 = (events s ++ evs)%list
                 /\ quiet evs (S k)
                 /\ (f_ok (fst (attempts cfg W k (a + 1) url last'
                                  (moved_on cfg W url a settled s))) = true ->
                     isSuspectHtml cfg
                       (f_html (fst (attempts cfg W k (a + 1) url last'
                                       (moved_on cfg W url a settled s))))
                     = false)).
    { intros settled last'.
      destruct (moved_on_quiet url a settled s) as (e0 & He0 & Hq0).
      destruct (IH (a + 1) last' (moved_on cfg W url a settled s))
        as (e1 & He1 & Hq1 & Hok).
      exists (e0 ++ e1)%list. rewrite He1, He0, <- app_assoc.
      split; [reflexivity |]. split; [| exact Hok].
      now apply (quiet_app e0 e1 1 k). }
    cbn [attempts].
    destruct (page_load W (opened s)) as [| |html].
    + apply (Hgo false last).
    + apply (Hgo true last).
    + destruct (isSuspectHtml cfg html) eqn:Hsus; cbn [negb].
      * apply (Hgo true html).
      * exists [NewPage; Goto url; WaitForTimeout 500; ClosePage]. cbn.
        rewrite <- !app_assoc. unfold quiet. cbn. repeat split; auto; lia.
Qed.

Lemma accepted_is_not_empty html : isSuspectHtml cfg html = false -> html <> "".
Proof. intros H ->. discriminate. Qed.

(** What one region leaves in the events. *)
Lemma fetch_region_view sources s r :
  exists evs,
    events (fetch_region cfg W sources s r) = (events s ++ evs)%list
    /\ page_open evs false = Some false
    /\ if has_url sources r then
         (exists content,
             writes evs = [(out_file r, content)] /\ content <> "")
         /\ warned evs = []
         /\ (pages evs <= Z.to_nat (MAX_RETRY cfg))%nat
       else evs = [WarnNoUrl r].
Proof.
  unfold fetch_region, has_url.
  destruct (source_url sources r) as [url|]; cbn [negb].
  2:{ exists [WarnNoUrl r]. auto. }
  destruct (url =? "")%string; cbn [negb].
  { exists [WarnNoUrl r]. auto. }
  unfold fetchWithRetry.
  destruct (attempts_quiet url (Z.to_nat (MAX_RETRY cfg)) 1 "" s)
    as (evs & Hev & (Hq1 & Hq2 & Hq3 & Hq4) & Hok).
  destruct (attempts cfg W (Z.to_nat (MAX_RETRY cfg)) 1 url "" s) as [res s1].
  cbn [fst snd] in *.
  destruct (f_ok res) eqn:Hres; cbn; rewrite Hev, <- !app_assoc;
    eexists; (split; [reflexivity |]);
    rewrite page_open_app, Hq1, writes_app, Hq3, warned_app, Hq2, pages_app;
    cbn; (split; [reflexivity |]);
    (split; [eexists; split; [reflexivity |] | split; [reflexivity | lia]]).
  - apply accepted_is_not_empty. auto.
  - destruct (String.eqb_spec (f_html res) ""); [discriminate | assumption].
Qed.

(** X12: a fetch run writes one file for every region that has a URL, in the
    order of the regions, whether its fetch was accepted or not, and none for
    the others, about which it only warns; no file it writes is empty; its
    pages open and close one at a time, each closed before the next one opens
    and before the file is written; and it opens at most [MAX_RETRY] pages per
    region with a URL. *)
Theorem fetch_run_files (onlyRegion : option string)
  (sources : list (string * string)) (s : FetchState) :
  let rs := regions onlyRegion sources in
  exists evs,
    events (fetch_all cfg W onlyRegion sources s) = (events s ++ evs)%list
    /\ map fst (writes evs) = map out_file (filter (has_url sources) rs)
    /\ Forall (fun file => snd file <> "") (writes evs)
    /\ warned evs = filter (fun r => negb (has_url sources r)) rs
    /\ page_open evs false = Some false
    /\ (pages evs
        <= Z.to_nat (MAX_RETRY cfg)
           * List.length (filter (has_url sources) rs))%nat.
Proof.
  cbn zeta. unfold fetch_all. generalize (regions onlyRegion sources).
  intros rs. revert s. induction rs as [|r rs IH]; intros s.
  - exists []. cbn. rewrite app_nil_r. repeat split; auto. lia.
  - cbn [fold_left filter].
    destruct (fetch_region_view sources s r) as (e0 & He0 & Hp0 & Hcase).
    destruct (IH (fetch_region cfg W sources s r))
      as (e1 & He1 & Hf1 & Hn1 & Hw1 & Hp1 & Hb1).
    exists (e0 ++ e1)%list. rewrite He1, He0, <- app_assoc.
    split; [reflexivity |].
    rewrite writes_app, warned_app, page_open_app, Hp0, pages_app, map_app.
    destruct (has_url sources r); cbn [negb].
    + destruct Hcase as ((content & Hwr & Hne) & Hwa & Hpg).
      rewrite Hwr, Hwa, Hf1, Hw1. cbn.
      repeat split; auto. lia.
    + subst e0. cbn. rewrite Hf1, Hw1. repeat split; auto.
Qed.

(** X13: with [MAX_RETRY] at zero or below no page is opened at all: the file
    of a region with a URL is overwritten with the placeholder comment and the
    warning reports zero bytes. *)
Theorem no_attempt_allowed (sources : list (string * string))
  (s : FetchState) (r : string) :
  MAX_RETRY cfg <= 0 -> has_url sources r = true ->
  events (fetch_region cfg W sources s r)
  = (events s
     ++ [WriteFile (out_file r) empty_placeholder;
         WarnSavedSuspect r (MAX_RETRY cfg) 0])%list.
Proof.
  intros Hmax Hurl. unfold has_url in Hurl. unfold fetch_region, fetchWithRetry.
  destruct (source_url sources r) as [url|]; [| discriminate].
  destruct (url =? "")%string; [discriminate |].
  replace (Z.to_nat (MAX_RETRY cfg)) with 0%nat by lia. cbn.
  now rewrite <- app_assoc.
Qed.

End Regions.

Section Backoff.

Context (cfg : FetchConfig) (W : FetchEnv).

Hypothesis base_delay : 0 <= BACKOFF_MS cfg.
Hypothesis jitter_range : forall n, 0 <= random_jitter W n < 400.

Lemma attempts_sleeps url k :
  forall a last s,
    (k = 0%nat \/ a + Z.of_nat k = MAX_RETRY cfg + 1) ->
    exists evs,
      events (snd (attempts cfg W k a url last s)) = (events s ++ evs)%list
      /\ Forall (delay_in_range cfg a) (sleeps evs)
      /\ (List.length (sleeps evs) <= k - 1)%nat.
Proof.
  induction k as [|k IH]; intros a last s Hinv.
  - exists []. cbn. rewrite app_nil_r. repeat split; auto.
  - assert (Ha : a + Z.of_nat (S k) = MAX_RETRY cfg + 1)
      by (destruct Hinv; [discriminate | assumption]).
    assert (Hgo : forall settled last',
               exists evs,
                 events (snd (attempts cfg W k (a + 1) url last'
                                (moved_on cfg W url a settled s)))
                 = (events s ++ evs)%list
                 /\ Forall (delay_in_range cfg a) (sleeps evs)
                 /\ (List.length (sleeps evs) <= S k - 1)%nat).
    { intros settled last'.
      destruct (moved_on_view cfg W url a settled s)
        as (e0 & He0 & _ & _ & _ & Hlt & Hge).
      destruct (IH (a + 1) last' (moved_on cfg W url a settled s))
        as (e1 & He1 & Hall & Hlen); [right; lia |].
      exists (e0 ++ e1)%list. rewrite He1, He0, <- app_assoc.
      split; [reflexivity |]. rewrite sleeps_app, length_app.
      assert (Hweak : Forall (delay_in_range cfg a) (sleeps e1)).
      { eapply Forall_impl; [| exact Hall]. unfold delay_in_range.
        intros ms [H1 H2]. split; [nia | exact H2]. }
      destruct (Z.lt_ge_cases a (MAX_RETRY cfg)) as [Hlast|Hlast].
      - destruct (Hlt Hlast) as [-> _]. cbn. split; [| lia].
        constructor; [| exact Hweak]. unfold delay_in_range.
        pose proof (jitter_range (drawn s)). nia.
      - destruct (Hge Hlast) as [-> _]. cbn. split; [exact Hweak | lia]. }
    cbn [attempts].
    destruct (page_load W (opened s)) as [| |html].
    + apply (Hgo false last).
    + apply (Hgo true last).
    + destruct (isSuspectHtml cfg html); cbn [negb].
      * apply (Hgo true html).
      * exists [NewPage; Goto url; WaitForTimeout 500; ClosePage]. cbn.
        rewrite <- !app_assoc. repeat split; auto. lia.
Qed.

Lemma fetch_region_sleeps sources s r :
  exists evs,
    events (fetch_region cfg W sources s r) = (events s ++ evs)%list
    /\ Forall (delay_in_range cfg 1) (sleeps evs)
    /\ (List.length (sleeps evs)
        <= if has_url sources r then Z.to_nat (MAX_RETRY cfg) - 1 else 0)%nat.
Proof.
  unfold fetch_region, has_url.
  destruct (source_url sources r) as [url|]; cbn [negb].
  2:{ exists [WarnNoUrl r]. cbn. auto. }
  destruct (url =? "")%string; cbn [negb].
  { exists [WarnNoUrl r]. cbn. auto. }
  unfold fetchWithRetry.
  destruct (attempts_sleeps url (Z.to_nat (MAX_RETRY cfg)) 1 "" s)
    as (evs & Hev & Hall & Hlen); [lia |].
  destruct (attempts cfg W (Z.to_nat (MAX_RETRY cfg)) 1 url "" s) as [res s1].
  cbn [fst snd] in *.
  destruct (f_ok res); cbn; rewrite Hev, <- !app_assoc;
    eexists; (split; [reflexivity |]);
    rewrite sleeps_app; cbn; rewrite app_nil_r; auto.
Qed.

(** X14: the fetcher never sleeps less than the base delay nor more than the
    base delay times the number of attempts but one, plus 399 ms, and it
    sleeps at most [MAX_RETRY - 1] times per region with a URL: never after
    the last attempt. *)
Theorem backoff_is_bounded (onlyRegion : option string)
  (sources : list (string * string)) (s : FetchState) :
  let rs := regions onlyRegion sources in
  exists evs,
    events (fetch_all cfg W onlyRegion sources s) = (events s ++ evs)%list
    /\ Forall (fun ms =>
                 BACKOFF_MS cfg <= ms
                 <= BACKOFF_MS cfg * (MAX_RETRY cfg - 1) + 399) (sleeps evs)
    /\ (List.length (sleeps evs)
        <= (Z.to_nat (MAX_RETRY cfg) - 1)
           * List.length (filter (has_url sources) rs))%nat.
Proof.
  cbn zeta. unfold fetch_all. generalize (regions onlyRegion sources).
  intros rs. revert s. induction rs as [|r rs IH]; intros s.
  - exists []. cbn. rewrite app_nil_r. repeat split; auto. lia.
  - cbn [fold_left filter].
    destruct (fetch_region_sleeps sources s r) as (e0 & He0 & Hall0 & Hlen0).
    destruct (IH (fetch_region cfg W sources s r))
      as (e1 & He1 & Hall1 & Hlen1).
    exists (e0 ++ e1)%list. rewrite He1, He0, <- app_assoc.
    split; [reflexivity |]. rewrite sleeps_app, length_app. split.
    + apply Forall_app. split; [| exact Hall1].
      eapply Forall_impl; [| exact Hall0]. unfold delay_in_range.
      intros ms H. lia.
    + destruct (has_url sources r); cbn [List.length]; lia.
Qed.

End Backoff.

(** * Sample runs *)

Lemma load_array_last_wins_witness :
  lookup "-1001"
    (load_array
       [JObj [("-1001", JObj [("message_id", JNum 1)])]; JNull;
        JObj [("-1001", JObj [("message_id", JNum 2)])]; JStr "x"])
  = Some (JObj [("message_id", JNum 2)]).
Proof.
  apply (proj2 (load_array_last_wins _ "-1001")
           [JObj [("-1001", JObj [("message_id", JNum 1)])]; JNull]
           (JObj [("-1001", JObj [("message_id", JNum 2)])]) [JStr "x"]).
  - reflexivity.
  - reflexivity.
  - intros x [<-|[]]. discriminate.
Defined.

Lemma load_after_save_witness :
  exists arr,
    save_array Sample.platform
      [("-1002", JObj [("message_id", JNum 7); ("title", JStr "a")]);
       ("5", JObj [("message_id", JNum 9)])]
    = Some arr
    /\ lookup "-1002" (load_array arr) = Some (JObj [("message_id", JNum 7)]).
Proof.
  destruct (load_after_save Sample.platform
              [("-1002", JObj [("message_id", JNum 7); ("title", JStr "a")]);
               ("5", JObj [("message_id", JNum 9)])])
    as (arr & Ha & Hin & _).
  - repeat constructor; simpl; intuition discriminate.
  - intros k [<-|[<-|[]]]; reflexivity.
  - repeat constructor; discriminate.
  - exists arr. split; [exact Ha |]. apply (Hin "-1002"). now left.
Defined.

Lemma save_writes_unless_null_witness :
  saveMessageMap Sample.platform [("7", JNull)] (Sample.world [("7", JNull)])
  = Ok false (Sample.world [("7", JNull)]).
Proof.
  apply (proj2 (save_writes_unless_null Sample.platform [("7", JNull)] _)).
  exists "7". split; [now left | reflexivity].
Defined.

Lemma null_record_blocks_saving_witness :
  let w := Sample.world [("7", JNull)] in
  let w' := world_of (run Sample.platform Sample.accepting
                        [Sample.chat (-1001)] w) in
  mapDirty w' = true /\ count is_write (since w w') = 0%nat.
Proof.
  intros w w'. split; [reflexivity |].
  apply (null_record_blocks_saving Sample.platform Sample.accepting
           [Sample.chat (-1001)] w "7").
  - now left.
  - reflexivity.
  - intros c [<-|[]] _ H. vm_compute in H. discriminate.
Defined.

Lemma target_throws_witness :
  exists w',
    loop_body Sample.platform Sample.accepting (Sample.chat (-1001))
      (Sample.world [("-1001", JNum 55)])
    = Uncaught w'.
Proof.
  apply (proj1 (target_throws Sample.platform Sample.accepting
                  (Sample.chat (-1001)) (Sample.world [("-1001", JNum 55)]))).
  split; [reflexivity |]. split; [reflexivity |]. split; [reflexivity |].
  eexists. split; reflexivity.
Defined.


Lemma run_is_paced_witness :
  exists code w' blocks tail,
    run Sample.platform Sample.accepting
      [Sample.chat (-1001);
       {| chat_id := None; image_url := None; caption := None; title := None |}]
      (Sample.world [])
    = Ok code w'
    /\ since (Sample.world []) w' = (paced blocks ++ tail)%list
    /\ List.length blocks = 1%nat.
Proof.
  destruct (run_is_paced Sample.platform Sample.accepting
              [Sample.chat (-1001);
               {| chat_id := None; image_url := None; caption := None;
                  title := None |}] (Sample.world []))
    as (code & w' & blocks & tail & Hrun & Hs & Hall & _); [constructor |].
  exists code, w', blocks, tail. split; [exact Hrun |]. split; [exact Hs |].
  apply Forall2_length in Hall. now rewrite <- Hall.
Defined.

Lemma pinned_message_is_recorded_witness :
  exists r w',
    loop_body Sample.platform Sample.accepting (Sample.chat (-1001))
      (Sample.world [])
    = Ok r w'
    /\ message_id_of (messageMap w') (key_of (chat_id (Sample.chat (-1001))))
       = JNum 100.
Proof.
  destruct (pinned_message_is_recorded Sample.platform Sample.accepting
              (Sample.chat (-1001)) (Sample.world []))
    as (r & w' & Heq & Hpin); [constructor | reflexivity |].
  exists r, w'. split; [exact Heq |].
  apply (Hpin (Some (ChatNum (-1001))) (JNum 100)); [| reflexivity].
  replace w' with (world_of (loop_body Sample.platform Sample.accepting
                               (Sample.chat (-1001)) (Sample.world [])))
    by now rewrite Heq.
  vm_compute. auto.
Defined.

Lemma pin_reply_is_ignored_witness :
  sendPhoto Sample.platform
    (with_reply Sample.accepting 1 NetworkError) (Sample.chat (-1001))
    (Sample.world [])
  = sendPhoto Sample.platform Sample.accepting (Sample.chat (-1001))
      (Sample.world []).
Proof.
  exact (proj1 (proj2 (pin_reply_is_ignored Sample.platform Sample.accepting
                         (Sample.chat (-1001)) (Sample.world [])
                         NetworkError))).
Defined.

Lemma saved_state_is_final_state_witness :
  exists arr,
    In (WriteMapFile (JSON_stringify Sample.platform (JArr arr) ++ nl))
      (calls (world_of (main Sample.platform Sample.accepting FileMissing
                          [Sample.chat (-1002)])))
    /\ message_id_of (load_array arr) "-1002" = JNum 100.
Proof.
  destruct (saved_state_is_final_state Sample.platform Sample.accepting
              FileMissing [Sample.chat (-1002)])
    as (code & w' & Hmain & Hsaved); [constructor |].
  assert (Hw : w' = world_of (main Sample.platform Sample.accepting FileMissing
                                [Sample.chat (-1002)])) by now rewrite Hmain.
  assert (Hin : In (WriteMapFile ("[ ... ]" ++ nl)) (calls w')).
  { rewrite Hw. vm_compute. auto 10. }
  destruct (Hsaved _ Hin) as (arr & Htext & _ & Hids & _).
  exists arr. rewrite <- Htext, <- Hw. split; [exact Hin |].
  rewrite Hids, Hw. reflexivity.
Defined.

Lemma fetch_run_files_witness :
  exists evs,
    events (fetch_all Sample.config Sample.blocked None
              [("kyiv", "https://example.org/kyiv"); ("odesa", "")]
              Sample.start)
    = evs
    /\ map fst (writes evs) = ["outputs/kyiv.html"]
    /\ warned evs = ["odesa"].
Proof.
  destruct (fetch_run_files Sample.config Sample.blocked None
              [("kyiv", "https://example.org/kyiv"); ("odesa", "")]
              Sample.start)
    as (evs & Hev & Hfiles & _ & Hwarn & _).
  exists evs. split; [exact Hev |]. split; [exact Hfiles | exact Hwarn].
Defined.

Lemma no_attempt_allowed_witness :
  events (fetch_region {| MAX_RETRY := 0; MIN_BYTES := 1500;
                          BACKOFF_MS := 2000 |}
            Sample.second_time Sample.sources Sample.start "kyiv")
  = [WriteFile "outputs/kyiv.html" "<!-- empty -->";
     WarnSavedSuspect "kyiv" 0 0].
Proof.
  apply (no_attempt_allowed {| MAX_RETRY := 0; MIN_BYTES := 1500;
                               BACKOFF_MS := 2000 |}
           Sample.second_time Sample.sources Sample.start "kyiv").
  - cbn. lia.
  - reflexivity.
Defined.

Lemma backoff_is_bounded_witness :
  let W := {| page_load := fun _ => GotoFailed;
              random_jitter := fun _ => 137 |} in
  exists evs,
    events (fetch_all Sample.config W None Sample.sources Sample.start) = evs
    /\ Forall (fun ms => 2000 <= ms <= 4399) (sleeps evs)
    /\ (List.length (sleeps evs) <= 2)%nat.
Proof.
  intros W.
  destruct (backoff_is_bounded Sample.config W) with
    (onlyRegion := @None string) (sources := Sample.sources)
    (s := Sample.start) as (evs & Hev & Hall & Hlen).
  - cbn. lia.
  - intros n. cbn. lia.
  - exists evs. split; [exact Hev |]. split; [exact Hall | exact Hlen].
Defined.

Lemma later_target_edits_witness :
  exists r w1 rs w2 photo caption rest,
    loop_body Sample.platform Sample.accepting (Sample.chat (-1001))
      (Sample.world [])
    = Ok r w1
    /\ loop Sample.platform Sample.accepting [Sample.chat (-1002)] w1
       = Ok rs w2
    /\ since w2 (world_of (loop_body Sample.platform Sample.accepting
                             (Sample.chat (-1001)) w2))
       = EditMessageMedia (Some (ChatNum (-1001))) (JNum 100) photo caption
         :: rest
    /\ count is_edit rest = 0%nat.
Proof.
  destruct (later_target_edits Sample.platform Sample.accepting
              (Sample.chat (-1001)) (Sample.chat (-1001))
              [Sample.chat (-1002)] (Sample.world [])
              (JObj [("ok", JBool true);
                     ("result", JObj [("message_id", JNum 100)])])
              (JBool true) (JNum 100))
    as (r & w1 & rs & w2 & Heq & _ & Hloop & photo & caption & rest & Hs
        & He & _);
    try reflexivity; [constructor | |].
  - intros b [<-|[]] _ H. vm_compute in H. discriminate.
  - exists r, w1, rs, w2, photo, caption, rest. auto.
Defined.
